(** * Mod_Recomendador: a shallow embedding of the recommendation core

    The development follows the Python sources file by file:
    - [data_loader.py]  : the catalog and history provider ([DataLoader]);
    - [preprocess.py]   : the index tables of [DataPreprocessor];
    - [kg_builder.py]   : graph construction, the embedding update along a
                          walk and the embedding lookups;
    - [cf_model.py]     : scoring and [recommend] of the collaborative filter;
    - [recommend.py]    : the orchestrator ([CourseRecommender]).

    Conventions of the model.
    - Python floats are modelled by exact rationals ([Q]); comparisons are the
      ones of [Q], equalities between computed scores are stated with [==].
    - Python sets are [gset string], dictionaries are [gmap]; the iteration
      order of a Python set is unspecified, the model uses the order of
      [elements] and no statement below depends on it.
    - Exceptions are values of [result]: [Raise e] aborts the computation.
    - The loader is modelled once [load_courses] and [load_courses_taken]
      have run: both tables are present. *)

From Stdlib Require Import QArith Qminmax Lqa Permutation Sorted.
From stdpp Require Import gmap strings list fin_maps.

Local Open Scope Q_scope.

(** ** Exceptions *)

Inductive exn : Set :=
  | KeyError
  | IndexError
  | ValueError
  | NetworkXError.

Inductive result (A : Type) : Type :=
  | Ok (a : A)
  | Raise (e : exn).
Arguments Ok {A} a.
Arguments Raise {A} e.

#[global] Instance result_ret : MRet result := λ A a, Ok a.
#[global] Instance result_bind : MBind result := λ A B f m,
  match m with
  | Ok a => f a
  | Raise e => Raise e
  end.

Definition of_option {A} (e : exn) (o : option A) : result A :=
  match o with
  | Some a => Ok a
  | None => Raise e
  end.

(** ** Python built-ins used by the sources *)

Definition Qltb (a b : Q) : bool := negb (Qle_bool b a).

(** [max(a, b)] keeps [a] unless [b > a]; [min(a, b)] keeps [a] unless
    [b < a]. *)
Definition py_max (a b : Q) : Q := if Qltb a b then b else a.
Definition py_min (a b : Q) : Q := if Qltb b a then b else a.

(** [sum(l)]: left fold starting from [0]. *)
Definition py_sum (l : list Q) : Q := foldl Qplus 0 l.

(** [l[:k]] for a Python integer [k]: a negative [k] counts from the end. *)
Definition py_slice_to {A} (k : Z) (l : list A) : list A :=
  if (0 <=? k)%Z then take (Z.to_nat k) l
  else take (Z.to_nat (Z.of_nat (length l) + k)) l.

(** [list.sort(key=...)] and [sorted] are stable; the stable rearrangement of
    a list along a total preorder is unique, so a stable insertion sort
    computes the same list. *)
Fixpoint insert_sorted {A} (leb : A → A → bool) (x : A) (l : list A) : list A :=
  match l with
  | [] => [x]
  | y :: l' => if leb x y then x :: l else y :: insert_sorted leb x l'
  end.

Fixpoint py_sort {A} (leb : A → A → bool) (l : list A) : list A :=
  match l with
  | [] => []
  | x :: l' => insert_sorted leb x (py_sort leb l')
  end.

(** Order-preserving removal of duplicates (first occurrence kept), as
    [Series.unique()] and the key order of an insertion-ordered dict. *)
Definition unique_first {A} `{EqDecision A} (l : list A) : list A :=
  foldl (λ acc x, if decide (x ∈ acc) then acc else acc ++ [x]) [] l.

(** A [for] loop threading a state, aborted by the first exception. *)
Fixpoint for_each {A S} (f : S → A → result S) (s : S) (l : list A) : result S :=
  match l with
  | [] => Ok s
  | x :: l' => s' ← f s x; for_each f s' l'
  end.

(** [d[k]] on a dictionary. *)
Definition getitem {K} `{Countable K} {V} (d : gmap K V) (k : K) : result V :=
  of_option KeyError (d !! k).

(** [np.zeros(n)] and [np.dot] of two one-dimensional arrays; shapes that
    differ raise. *)
Definition zeros (n : nat) : list Q := replicate n 0.

Definition np_dot (u v : list Q) : result Q :=
  if decide (length u = length v) then Ok (py_sum (zip_with Qmult u v))
  else Raise ValueError.

(** ** data_loader.py *)

Record course_row : Type := {
  course_code : string;
  course_name : string;
  prereq_codes : list string;
  lineas_carrera : list string
}.

Record taken_row : Type := {
  alumno : string;
  taken_code : string;
  cycle : Z;
  grade : Q
}.

Record DataLoader : Type := {
  courses : list course_row;
  courses_taken : list taken_row
}.

Record history : Type := {
  student_id : string;
  all_courses : list string;
  passed_courses : list string;
  grades : gmap string Q;
  by_cycle : gmap Z (list (string * Q))
}.

(** [student_data.groupby('course_code')['grade'].max()]. *)
Definition best_grade_step (m : gmap string Q) (r : taken_row) : gmap string Q :=
  match m !! taken_code r with
  | Some g => <[taken_code r := Qmax g (grade r)]> m
  | None => <[taken_code r := grade r]> m
  end.

Definition groupby_max (rows : list taken_row) : gmap string Q :=
  foldl best_grade_step ∅ rows.

Definition by_cycle_step (m : gmap Z (list (string * Q))) (r : taken_row)
    : gmap Z (list (string * Q)) :=
  <[cycle r := default [] (m !! cycle r) ++ [(taken_code r, grade r)]]> m.

(** [groupby] lists its keys in ascending order, so the index of
    [best_grades], and with it [passed_courses], is sorted by course code. *)
Definition get_student_history (dl : DataLoader) (sid : string)
    (pass_threshold : Q) : history :=
  let student_data := filter (λ r, alumno r = sid) (courses_taken dl) in
  if decide (length student_data = 0%nat) then
    {| student_id := sid; all_courses := []; passed_courses := [];
       grades := ∅; by_cycle := ∅ |}
  else
    let best_grades := groupby_max student_data in
    {| student_id := sid;
       all_courses := taken_code <$> student_data;
       passed_courses :=
         py_sort String.leb
           (filter (λ kv, Qle_bool pass_threshold kv.2 = true)
                   (map_to_list best_grades)).*1;
       grades := best_grades;
       by_cycle := foldl by_cycle_step ∅ student_data |}.

Definition get_all_students (dl : DataLoader) : list string :=
  py_sort String.leb (unique_first (alumno <$> courses_taken dl)).

Definition get_all_courses (dl : DataLoader) : list string :=
  course_code <$> courses dl.

(** The row found first is used ([course.iloc[0]]); [None] when no row has
    the code. *)
Definition get_course_info (dl : DataLoader) (code : string) : option course_row :=
  match filter (λ c, course_code c = code) (courses dl) with
  | [] => None
  | course_row :: _ =>
      Some {| course_code := code;
              course_name := course_name course_row;
              prereq_codes := prereq_codes course_row;
              lineas_carrera := lineas_carrera course_row |}
  end.

(** The two messages of the validation report, each with the set it prints. *)
Inductive issue : Type :=
  | UnknownCourses (s : gset string)
  | InvalidPrereqs (s : gset string).

Record validation : Type := {
  valid : bool;
  issues : list issue;
  num_courses : nat;
  num_students : nat;
  num_records : nat
}.

Definition validate_data_consistency (dl : DataLoader) : validation :=
  let catalog_courses : gset string := list_to_set (course_code <$> courses dl) in
  let taken_courses : gset string := list_to_set (taken_code <$> courses_taken dl) in
  let unknown_courses := taken_courses ∖ catalog_courses in
  let issues1 :=
    if decide (unknown_courses = ∅) then [] else [UnknownCourses unknown_courses] in
  let all_prereqs : gset string :=
    foldl (λ acc prereqs, acc ∪ list_to_set prereqs) ∅ (prereq_codes <$> courses dl) in
  let invalid_prereqs := all_prereqs ∖ catalog_courses in
  let issues2 :=
    if decide (invalid_prereqs = ∅) then issues1
    else issues1 ++ [InvalidPrereqs invalid_prereqs] in
  {| valid := bool_decide (length issues2 = 0%nat);
     issues := issues2;
     num_courses := size catalog_courses;
     num_students := length (get_all_students dl);
     num_records := length (courses_taken dl) |}.

(** ** kg_builder.py: the graph *)

Module KG.

Inductive node_type : Set := course_t | linea_t | student_t.

Inductive edge_type : Type :=
  | BELONGS_TO
  | HAS_PREREQ
  | TOOK (grade : Q) (passed : bool).

Record edge : Type := {
  e_src : string;
  e_dst : string;
  e_type : edge_type
}.

(** A [networkx.MultiDiGraph]: nodes with their optional [type] attribute,
    and the edges in insertion order (parallel edges are kept). *)
Record MultiDiGraph : Type := {
  g_nodes : gmap string (option node_type);
  g_edges : list edge
}.

Definition empty_graph : MultiDiGraph := {| g_nodes := ∅; g_edges := [] |}.

Definition has_node (g : MultiDiGraph) (n : string) : bool :=
  bool_decide (is_Some (g_nodes g !! n)).

Definition add_node (g : MultiDiGraph) (n : string) (ty : node_type) : MultiDiGraph :=
  {| g_nodes := <[n := Some ty]> (g_nodes g); g_edges := g_edges g |}.

(** [add_edge] creates the end points that are not nodes yet, with no
    attribute. *)
Definition touch_node (n : string) (m : gmap string (option node_type))
    : gmap string (option node_type) :=
  match m !! n with
  | Some _ => m
  | None => <[n := None]> m
  end.

Definition add_edge (g : MultiDiGraph) (u v : string) (ty : edge_type) : MultiDiGraph :=
  {| g_nodes := touch_node v (touch_node u (g_nodes g));
     g_edges := g_edges g ++ [{| e_src := u; e_dst := v; e_type := ty |}] |}.

(** [graph.neighbors(n)] is [graph.successors(n)]: the distinct targets of
    the edges leaving [n], and [NetworkXError] when [n] is not a node. *)
Definition successors (g : MultiDiGraph) (n : string) : result (list string) :=
  if has_node g n then
    Ok (unique_first (e_dst <$> filter (λ e, e_src e = n) (g_edges g)))
  else Raise NetworkXError.

Definition predecessors (g : MultiDiGraph) (n : string) : result (list string) :=
  if has_node g n then
    Ok (unique_first (e_src <$> filter (λ e, e_dst e = n) (g_edges g)))
  else Raise NetworkXError.

Definition course_node (code : string) : string := "Course:" +:+ code.
Definition linea_node (linea : string) : string := "Linea:" +:+ linea.
Definition student_node (student : string) : string := "Student:" +:+ student.

(** The six passes of [build_graph], in the order of the source. *)
Definition add_course_nodes (dl : DataLoader) (g : MultiDiGraph) : MultiDiGraph :=
  foldl (λ g course, add_node g (course_node (course_code course)) course_t)
        g (courses dl).

Definition add_linea_nodes (dl : DataLoader) (g : MultiDiGraph) : MultiDiGraph :=
  let all_lineas : gset string :=
    foldl (λ acc lineas, acc ∪ list_to_set lineas) ∅ (lineas_carrera <$> courses dl) in
  foldl (λ g linea, add_node g (linea_node linea) linea_t) g (elements all_lineas).

Definition add_student_nodes (dl : DataLoader) (g : MultiDiGraph) : MultiDiGraph :=
  foldl (λ g student, add_node g (student_node student) student_t)
        g (get_all_students dl).

Definition add_belongs_to (dl : DataLoader) (g : MultiDiGraph) : MultiDiGraph :=
  foldl (λ g course,
           foldl (λ g linea,
                    add_edge g (course_node (course_code course))
                             (linea_node linea) BELONGS_TO)
                 g (lineas_carrera course))
        g (courses dl).

Definition add_prereqs_of (course : course_row) (g : MultiDiGraph) : MultiDiGraph :=
  foldl (λ g prereq,
           let prereq_node := course_node prereq in
           if has_node g prereq_node
           then add_edge g (course_node (course_code course)) prereq_node HAS_PREREQ
           else g)
        g (prereq_codes course).

Definition add_has_prereq (dl : DataLoader) (g : MultiDiGraph) : MultiDiGraph :=
  foldl (λ g course, add_prereqs_of course g) g (courses dl).

Definition add_took (dl : DataLoader) (pass_threshold : Q) (g : MultiDiGraph)
    : MultiDiGraph :=
  foldl (λ g row,
           add_edge g (student_node (alumno row)) (course_node (taken_code row))
                    (TOOK (grade row) (Qle_bool pass_threshold (grade row))))
        g (courses_taken dl).

(** The graph as it stands when the HAS_PREREQ pass starts. *)
Definition graph_before_prereqs (dl : DataLoader) : MultiDiGraph :=
  add_belongs_to dl
    (add_student_nodes dl (add_linea_nodes dl (add_course_nodes dl empty_graph))).

Definition build_graph (dl : DataLoader) (pass_threshold : Q) : MultiDiGraph :=
  add_took dl pass_threshold (add_has_prereq dl (graph_before_prereqs dl)).

(** ** kg_builder.py: embeddings *)

Definition vscale (c : Q) (v : list Q) : list Q := Qmult c <$> v.
Definition vsub (u v : list Q) : list Q := zip_with Qminus u v.
Definition vdiv (v : list Q) (c : Q) : list Q := (λ x, x / c) <$> v.

(** The body of the inner loop of [_update_embeddings]: one (node, context)
    pair.  The embedding table is a store: the second assignment reads the
    table written by the first. *)
Definition update_pair (learning_rate : Q) (E : gmap string (list Q))
    (node context_node : string) : result (gmap string (list Q)) :=
  en ← getitem E node;
  ec ← getitem E context_node;
  similarity ← np_dot en ec;
  let gradient := (similarity - 1) * learning_rate in
  let E1 := <[node := vsub en (vscale gradient ec)]> E in
  ec1 ← getitem E1 context_node;
  en1 ← getitem E1 node;
  Ok (<[context_node := vsub ec1 (vscale gradient en1)]> E1).

Definition window_size : Z := 5.

Section Node2Vec.
(** [np.linalg.norm], a routine of numpy. *)
Variable linalg_norm : list Q → Q.

Definition update_window (learning_rate : Q) (walk : list string)
    (i : Z) (node : string) (E : gmap string (list Q))
    : result (gmap string (list Q)) :=
  let context_start := Z.max 0 (i - window_size) in
  let context_end := Z.min (Z.of_nat (length walk)) (i + window_size + 1) in
  for_each (λ E j,
              if bool_decide (i ≠ j ∧ (j < Z.of_nat (length walk))%Z) then
                context_node ← of_option IndexError (walk !! Z.to_nat j);
                update_pair learning_rate E node context_node
              else Ok E)
           E (seqZ context_start (context_end - context_start)).

Definition normalize (node : string) (E : gmap string (list Q))
    : result (gmap string (list Q)) :=
  v ← getitem E node;
  let norm := linalg_norm v + 1e-10 in
  Ok (<[node := vdiv v norm]> E).

(** [learning_rate] defaults to 0.01 in the source, and [train_node2vec]
    calls with the default; the [dim] argument is not used by the body. *)
Definition _update_embeddings (E : gmap string (list Q)) (walk : list string)
    (learning_rate : Q) : result (gmap string (list Q)) :=
  for_each (λ E '(i, node),
              E' ← update_window learning_rate walk i node E;
              normalize node E')
           E (zip (seqZ 0 (Z.of_nat (length walk))) walk).
End Node2Vec.

Record KnowledgeGraphBuilder : Type := {
  graph : MultiDiGraph;
  embeddings : gmap string (list Q);
  embedding_dim : nat
}.

Definition get_student_embedding (kg : KnowledgeGraphBuilder) (sid : string)
    : list Q :=
  let node := student_node sid in
  match embeddings kg !! node with
  | Some v => v
  | None => zeros (embedding_dim kg)
  end.

Definition get_course_embedding (kg : KnowledgeGraphBuilder) (code : string)
    : list Q :=
  let node := course_node code in
  match embeddings kg !! node with
  | Some v => v
  | None => zeros (embedding_dim kg)
  end.

(** [s.replace(old, new)] for a non-empty [old]: left to right, without
    overlaps. *)
Fixpoint string_drop (n : nat) (s : string) : string :=
  match n, s with
  | O, _ => s
  | S n', String _ s' => string_drop n' s'
  | S _, EmptyString => EmptyString
  end.

Fixpoint str_replace_from (fuel : nat) (old new s : string) : string :=
  match fuel with
  | O => s
  | S fuel' =>
      if String.prefix old s then
        new +:+ str_replace_from fuel' old new (string_drop (String.length old) s)
      else
        match s with
        | EmptyString => EmptyString
        | String a s' => String a (str_replace_from fuel' old new s')
        end
  end.

Definition str_replace (old new s : string) : string :=
  str_replace_from (String.length s) old new s.

Definition get_course_neighbors (kg : KnowledgeGraphBuilder) (code : string)
    (k : Z) : result (list (string * string)) :=
  let g := graph kg in
  let node := course_node code in
  nbrs ← successors g node;
  by_linea ←
    for_each (λ acc neighbor,
                if String.prefix "Linea:" neighbor then
                  preds ← predecessors g neighbor;
                  Ok (acc ++
                      ((λ p, (str_replace "Course:" "" p, "linea")) <$>
                         filter (λ p, String.prefix "Course:" p = true ∧ p ≠ node)
                                preds))
                else Ok acc)
             [] nbrs;
  nbrs' ← successors g node;
  let by_prereq :=
    (λ p, (str_replace "Course:" "" p, "prereq")) <$>
      filter (λ p, String.prefix "Course:" p = true) nbrs' in
  Ok (py_slice_to k (by_linea ++ by_prereq)).

End KG.

(** ** preprocess.py: the index tables *)

Record DataPreprocessor : Type := {
  student_to_idx : gmap string nat;
  idx_to_student : gmap nat string;
  course_to_idx : gmap string nat;
  idx_to_course : gmap nat string
}.

Definition enumerate {A} (l : list A) : list (nat * A) := zip (seq 0 (length l)) l.

Definition build_indices (dl : DataLoader) : DataPreprocessor :=
  let students := enumerate (get_all_students dl) in
  let courses := enumerate (get_all_courses dl) in
  {| student_to_idx := foldl (λ m '(idx, student), <[student := idx]> m) ∅ students;
     idx_to_student := foldl (λ m '(idx, student), <[idx := student]> m) ∅ students;
     course_to_idx := foldl (λ m '(idx, course), <[course := idx]> m) ∅ courses;
     idx_to_course := foldl (λ m '(idx, course), <[idx := course]> m) ∅ courses |}.

(** ** cf_model.py *)

Module CF.

(** A float that may be infinite: the masked scores. *)
Inductive ext : Type :=
  | NegInf
  | Fin (q : Q)
  | PosInf.

Definition ext_neg (e : ext) : ext :=
  match e with
  | NegInf => PosInf
  | Fin q => Fin (- q)
  | PosInf => NegInf
  end.

Definition ext_leb (a b : ext) : bool :=
  match a, b with
  | NegInf, _ => true
  | _, PosInf => true
  | Fin x, Fin y => Qle_bool x y
  | _, _ => false
  end.

Record CollaborativeFilteringModel : Type := {
  preprocessor : DataPreprocessor;
  factors : nat;
  user_factors : list (list Q);
  item_factors : list (list Q);
  interaction_matrix : list (list Q)
}.

Definition get_student_embedding (cf : CollaborativeFilteringModel) (sid : string)
    : result (list Q) :=
  match student_to_idx (preprocessor cf) !! sid with
  | None => Ok (zeros (factors cf))
  | Some idx => of_option IndexError (user_factors cf !! idx)
  end.

Definition get_course_embedding (cf : CollaborativeFilteringModel) (code : string)
    : result (list Q) :=
  match course_to_idx (preprocessor cf) !! code with
  | None => Ok (zeros (factors cf))
  | Some idx => of_option IndexError (item_factors cf !! idx)
  end.

Definition predict_score (cf : CollaborativeFilteringModel) (sid code : string)
    : result Q :=
  user_emb ← get_student_embedding cf sid;
  item_emb ← get_course_embedding cf code;
  np_dot user_emb item_emb.

(** [row.nonzero()[1]]: the columns of the entries that are not zero. *)
Definition nonzero (row : list Q) : list nat :=
  (filter (λ iv, Qeq_bool iv.2 0 = false) (enumerate row)).*1.

(** [scores_copy[taken_items] = -np.inf]. *)
Definition mask (scores : list ext) (taken_items : list nat) : result (list ext) :=
  for_each (λ sc i,
              if decide (i < length sc)%nat then Ok (<[i := NegInf]> sc)
              else Raise IndexError)
           scores taken_items.

(** [np.argsort]: the indices in ascending order of the entries.  numpy does
    not fix the order of the indices of equal entries; the model keeps them
    in index order. *)
Definition argsort (a : list ext) : list nat :=
  (py_sort (λ x y, ext_leb x.2 y.2) (enumerate a)).*1.

Definition recommend (cf : CollaborativeFilteringModel) (sid : string) (top_k : Z)
    : result (list (string * Q)) :=
  match student_to_idx (preprocessor cf) !! sid with
  | None => Ok []
  | Some student_idx =>
      user_emb ← of_option IndexError (user_factors cf !! student_idx);
      scores ← mapM (λ item, np_dot item user_emb) (item_factors cf);
      row ← of_option IndexError (interaction_matrix cf !! student_idx);
      let taken_items := nonzero row in
      scores_copy ← mask (Fin <$> scores) taken_items;
      let top_indices := py_slice_to top_k (argsort (ext_neg <$> scores_copy)) in
      mapM (λ idx,
              course_code ← getitem (idx_to_course (preprocessor cf)) idx;
              score ← of_option IndexError (scores !! idx);
              Ok (course_code, score))
           top_indices
  end.

End CF.

(** ** recommend.py *)

(** The fusion network and the cosine similarity of the content model are
    floating-point collaborators; they enter through the score they return. *)
Record HybridRecommenderModel : Type := {
  predict_score : string → string → Q
}.

Record ContentBasedModel : Type := {
  compute_similarity : string → string → Q
}.

Record CourseRecommender : Type := {
  data_loader : DataLoader;
  preprocessor : DataPreprocessor;
  kg_builder : KG.KnowledgeGraphBuilder;
  cf_model : CF.CollaborativeFilteringModel;
  content_model : ContentBasedModel;
  hybrid_model : HybridRecommenderModel
}.

Definition OBLIGATORY_COURSES : gset string :=
  list_to_set
    [ "BAE01"; "BFI01"; "BIC01"; "BMA01"; "BMA03"; "BRN01"; "CBS01";
      "BFI05"; "BMA02"; "BMA09"; "BQU01"; "BRC01"; "CBS02";
      "BEG01"; "BFI03"; "BMA05"; "BMA10"; "BMA15"; "EE306";
      "BEF01"; "CBN01"; "BMA07"; "BMA18"; "EE320"; "EE410"; "BIE01";
      "BMA22"; "TLR01"; "TLN01"; "EE428"; "EE522"; "CBS05";
      "EE430"; "TLR02"; "EE458"; "EE588"; "EE604"; "TLN02";
      "TLR03"; "EE530"; "EE590";
      "BEG06"; "EE498"; "EE592";
      "TLR04"; "CIB45"; "TLR05";
      "EE712"; "CIB46" ].

Definition is_nil {A} (l : list A) : bool :=
  match l with
  | [] => true
  | _ => false
  end.

Definition cumple_prereqs (self : CourseRecommender) (sid code : string) : bool :=
  match get_course_info (data_loader self) code with
  | None => true
  | Some course_info =>
      let prereqs := prereq_codes course_info in
      if is_nil prereqs then true
      else
        let history := get_student_history (data_loader self) sid 10 in
        let passed : gset string := list_to_set (passed_courses history) in
        forallb (λ p, bool_decide (p ∈ passed)) prereqs
  end.

(** The grades collected by the loop over [history['passed_courses']]. *)
Definition related_grades (dl : DataLoader) (history : history)
    (course_lineas : gset string) : list Q :=
  foldl (λ related passed_course,
           match get_course_info dl passed_course with
           | Some passed_info =>
               if is_nil (lineas_carrera passed_info) then related
               else
                 let passed_lineas : gset string :=
                   list_to_set (lineas_carrera passed_info) in
                 if decide (course_lineas ∩ passed_lineas = ∅) then related
                 else related ++ [default 0 (grades history !! passed_course)]
           | None => related
           end)
        [] (passed_courses history).

Definition calcular_peso_lineas (self : CourseRecommender) (sid code : string) : Q :=
  match get_course_info (data_loader self) code with
  | None => 0
  | Some course_info =>
      if is_nil (lineas_carrera course_info) then 0
      else
        let course_lineas : gset string := list_to_set (lineas_carrera course_info) in
        let history := get_student_history (data_loader self) sid 10 in
        let related := related_grades (data_loader self) history course_lineas in
        if is_nil related then 0
        else
          let avg_grade := py_sum related / inject_Z (Z.of_nat (length related)) in
          let peso := (avg_grade - 10) / 10 in
          py_max 0 (py_min 1 peso)
  end.

Record explanation : Type := {
  content_similarity : Q;
  kg_neighbors : list (string * string);
  collaborative_score : Q;
  lineas_performance : Q;
  prerequisites : list string;
  prerequisites_met : bool
}.

Definition explain_recommendation (self : CourseRecommender) (sid code : string)
    : result explanation :=
  let content_sim := compute_similarity (content_model self) sid code in
  kg_neighbors ← KG.get_course_neighbors (kg_builder self) code 3;
  cf_score ← CF.predict_score (cf_model self) sid code;
  let lineas_weight := calcular_peso_lineas self sid code in
  let course_info := get_course_info (data_loader self) code in
  let prereqs :=
    match course_info with
    | Some info => prereq_codes info
    | None => []
    end in
  Ok {| content_similarity := content_sim;
        kg_neighbors := kg_neighbors;
        collaborative_score := cf_score;
        lineas_performance := lineas_weight;
        prerequisites := prereqs;
        prerequisites_met := cumple_prereqs self sid code |}.

(** The entries of [scores] and of the returned list. *)
Record scored : Type := {
  item_course_code : string;
  item_score : Q;
  item_priority : Z;
  item_is_failed : bool;
  item_is_obligatory : bool;
  item_lineas_weight : Q
}.

Record recommendation : Type := {
  rec_course_code : string;
  rec_course_name : string;
  rec_score : Q;
  rec_lineas_carrera : list string;
  rec_is_failed : bool;
  rec_is_obligatory : bool;
  rec_priority : Z;
  rec_reasons : explanation
}.

(** The three tiers of candidates. *)
Definition failed_courses (dl : DataLoader) (sid : string) : gset string :=
  let history := get_student_history dl sid 10 in
  let passed : gset string := list_to_set (passed_courses history) in
  let all_taken : gset string := list_to_set (all_courses history) in
  (all_taken ∖ passed) ∩ OBLIGATORY_COURSES.

Definition not_taken_obligatory (dl : DataLoader) (sid : string) : gset string :=
  let history := get_student_history dl sid 10 in
  let all_taken : gset string := list_to_set (all_courses history) in
  OBLIGATORY_COURSES ∖ all_taken.

Definition other_courses (dl : DataLoader) (sid : string) : gset string :=
  let history := get_student_history dl sid 10 in
  let all_courses : gset string := list_to_set (get_all_courses dl) in
  let passed : gset string := list_to_set (passed_courses history) in
  all_courses ∖ passed ∖ OBLIGATORY_COURSES.

(** One turn of the scoring loop: [None] is the [continue] of a candidate
    whose prerequisites are not met. *)
Definition score_candidate (self : CourseRecommender) (sid : string)
    (course : string) : option scored :=
  let failed := failed_courses (data_loader self) sid in
  let not_taken := not_taken_obligatory (data_loader self) sid in
  if negb (cumple_prereqs self sid course) then None
  else
    let hybrid_score := predict_score (hybrid_model self) sid course in
    let lineas_weight := calcular_peso_lineas self sid course in
    let final_score := hybrid_score + lineas_weight * 0.5 in
    let '(final_score, priority) :=
      if decide (course ∈ failed) then (final_score + 2, 1%Z)
      else if decide (course ∈ not_taken) then (final_score + 1, 2%Z)
      else (final_score, 3%Z) in
    Some {| item_course_code := course;
            item_score := final_score;
            item_priority := priority;
            item_is_failed := bool_decide (course ∈ failed);
            item_is_obligatory := bool_decide (course ∈ OBLIGATORY_COURSES);
            item_lineas_weight := lineas_weight |}.

(** The sort key [(x['priority'], -x['score'])], compared as a tuple. *)
Definition key_leb (x y : scored) : bool :=
  (item_priority x <? item_priority y)%Z
  || ((item_priority x =? item_priority y)%Z
      && Qle_bool (- item_score x) (- item_score y)).

Definition attach (self : CourseRecommender) (sid : string) (item : scored)
    : result recommendation :=
  let course := item_course_code item in
  explanation ← explain_recommendation self sid course;
  let course_info := get_course_info (data_loader self) course in
  Ok {| rec_course_code := course;
        rec_course_name :=
          match course_info with
          | Some info => course_name info
          | None => ""
          end;
        rec_score := item_score item;
        rec_lineas_carrera :=
          match course_info with
          | Some info => lineas_carrera info
          | None => []
          end;
        rec_is_failed := item_is_failed item;
        rec_is_obligatory := item_is_obligatory item;
        rec_priority := item_priority item;
        rec_reasons := explanation |}.

Definition prioritized_candidates (dl : DataLoader) (sid : string) : list string :=
  elements (failed_courses dl sid)
  ++ elements (not_taken_obligatory dl sid)
  ++ elements (other_courses dl sid).

Definition recomendar_cursos (self : CourseRecommender) (sid : string) (top_k : Z)
    : result (list recommendation) :=
  let candidates := prioritized_candidates (data_loader self) sid in
  if is_nil candidates then Ok []
  else
    let scores := omap (score_candidate self sid) candidates in
    let scores := py_sort key_leb scores in
    mapM (attach self sid) (py_slice_to top_k scores).

(** ** Sample data *)

(** A small catalog: two obligatory courses without prerequisites, an
    obligatory course that requires one of them, and an elective with a
    prerequisite that is not in the catalog.  Student [s1] failed BAE01 and
    passed BFI01; student [s2] passed BMA01, which the catalog does not
    list. *)
Definition sample_loader : DataLoader :=
  {| courses :=
       [ {| course_code := "BAE01"; course_name := "Administracion";
            prereq_codes := []; lineas_carrera := ["T1"] |};
         {| course_code := "BFI01"; course_name := "Fisica I";
            prereq_codes := []; lineas_carrera := ["T1"] |};
         {| course_code := "BFI05"; course_name := "Fisica II";
            prereq_codes := ["BFI01"]; lineas_carrera := ["T1"] |};
         {| course_code := "EL001"; course_name := "Electivo";
            prereq_codes := ["BAE01"; "ZZZ99"]; lineas_carrera := ["T2"] |} ];
     courses_taken :=
       [ {| alumno := "s1"; taken_code := "BAE01"; cycle := 1; grade := 8 |};
         {| alumno := "s1"; taken_code := "BFI01"; cycle := 1; grade := 14 |};
         {| alumno := "s2"; taken_code := "BMA01"; cycle := 1; grade := 15 |} ] |}.

Definition sample_recommender : CourseRecommender :=
  {| data_loader := sample_loader;
     preprocessor := build_indices sample_loader;
     kg_builder :=
       {| KG.graph := KG.build_graph sample_loader 11;
          KG.embeddings := {[ "Student:s1" := [1; 0] ]};
          KG.embedding_dim := 2 |};
     cf_model :=
       {| CF.preprocessor := build_indices sample_loader;
          CF.factors := 2;
          CF.user_factors := [[1; 0]; [0; 1]];
          CF.item_factors := [[1; 1]; [2; 0]; [0; 3]; [1; 2]];
          CF.interaction_matrix := [[0; 1; 0; 0]; [0; 0; 0; 0]] |};
     content_model := {| compute_similarity := λ _ _, 0 |};
     hybrid_model :=
       {| predict_score := λ _ course,
            if decide (course = "BFI05") then 5
            else if decide (course = "BMA01") then 4
            else 0 |} |}.

(** The retake scenario: course A taken twice, 15 then 8. *)
Definition retake_loader : DataLoader :=
  {| courses :=
       [ {| course_code := "A"; course_name := "Curso A";
            prereq_codes := []; lineas_carrera := [] |} ];
     courses_taken :=
       [ {| alumno := "s"; taken_code := "A"; cycle := 1; grade := 15 |};
         {| alumno := "s"; taken_code := "A"; cycle := 2; grade := 8 |} ] |}.

(** ** Vocabulary of the statements *)

(** The list that [recomendar_cursos] sorts and cuts. *)
Definition scored_candidates (self : CourseRecommender) (sid : string) : list scored :=
  py_sort key_leb
    (omap (score_candidate self sid) (prioritized_candidates (data_loader self) sid)).

(** The grades of the attempts of [sid] at [code], in table order. *)
Definition attempts (dl : DataLoader) (sid code : string) : list Q :=
  grade <$> filter (λ r, taken_code r = code)
                   (filter (λ r, alumno r = sid) (courses_taken dl)).

Definition is_best (g : Q) (l : list Q) : Prop :=
  g ∈ l ∧ ∀ x, x ∈ l → x <= g.

Definition declared_prereqs (dl : DataLoader) (code : string) : list string :=
  match get_course_info dl code with
  | Some info => prereq_codes info
  | None => []
  end.

(** The tracks a course declares, a passed course that shares one with the
    target, and the best grade the history records for a course. *)
Definition tracks (dl : DataLoader) (code : string) : list string :=
  match get_course_info dl code with
  | Some info => lineas_carrera info
  | None => []
  end.

Definition shares_track (dl : DataLoader) (code passed_course : string) : Prop :=
  Exists (λ linea, linea ∈ tracks dl passed_course) (tracks dl code).

Definition related_courses (dl : DataLoader) (sid code : string) : list string :=
  filter (shares_track dl code) (passed_courses (get_student_history dl sid 10)).

Definition best_grade_of (h : history) (code : string) : Q :=
  default 0 (grades h !! code).

(** A passed course with best grade exactly 10 on the track of the target. *)
Definition borderline_loader : DataLoader :=
  {| courses :=
       [ {| course_code := "A"; course_name := "Curso A";
            prereq_codes := []; lineas_carrera := ["T"] |};
         {| course_code := "B"; course_name := "Curso B";
            prereq_codes := []; lineas_carrera := ["T"] |} ];
     courses_taken :=
       [ {| alumno := "s"; taken_code := "A"; cycle := 1; grade := 10 |} ] |}.

Definition with_loader (dl : DataLoader) : CourseRecommender :=
  {| data_loader := dl;
     preprocessor := preprocessor sample_recommender;
     kg_builder := kg_builder sample_recommender;
     cf_model := cf_model sample_recommender;
     content_model := content_model sample_recommender;
     hybrid_model := hybrid_model sample_recommender |}.

(** What [recomendar_cursos] returns for student [s1] of the sample, cut at
    three recommendations. *)
Definition sample_recs : list recommendation :=
  Eval vm_compute in
    match recomendar_cursos sample_recommender "s1" 3 with
    | Ok recs => recs
    | Raise _ => []
    end.

(** Which node ids the passes before HAS_PREREQ can create. *)
Definition node_origin (dl : DataLoader) (k : string) : Prop :=
  (∃ course, course ∈ courses dl ∧ k = KG.course_node (course_code course))
  ∨ (∃ linea, k = KG.linea_node linea)
  ∨ (∃ student, k = KG.student_node student).

Definition nodes_from (dl : DataLoader) (g : KG.MultiDiGraph) : Prop :=
  ∀ k, is_Some (KG.g_nodes g !! k) → node_origin dl k.

(** The positions paired with position [i] of a walk: those at distance at
    most [window_size], [i] itself excluded, in increasing order. *)
Definition window_positions (walk : list string) (i : Z) : list Z :=
  filter (λ j, j ≠ i ∧ (Z.abs (i - j) ≤ KG.window_size)%Z)
         (seqZ 0 (Z.of_nat (length walk))).

(** The pair update as the specification words it: both assignments read
    the embeddings as they were before the pair.  Compared below with
    [KG.update_pair], which follows the source. *)
Definition update_pair_as_stated (learning_rate : Q) (E : gmap string (list Q))
    (node context_node : string) : result (gmap string (list Q)) :=
  en ← getitem E node;
  ec ← getitem E context_node;
  similarity ← np_dot en ec;
  let gradient := (similarity - 1) * learning_rate in
  Ok (<[context_node := KG.vsub ec (KG.vscale gradient en)]>
        (<[node := KG.vsub en (KG.vscale gradient ec)]> E)).

(** Two one-dimensional embeddings. *)
Definition pair_store : gmap string (list Q) := {[ "a" := [2]; "b" := [3] ]}.

(** A trained collaborative filter over two courses; student [u] has an
    interaction with C0 only. *)
Definition masked_loader : DataLoader :=
  {| courses :=
       [ {| course_code := "C0"; course_name := "Curso 0";
            prereq_codes := []; lineas_carrera := [] |};
         {| course_code := "C1"; course_name := "Curso 1";
            prereq_codes := []; lineas_carrera := [] |} ];
     courses_taken :=
       [ {| alumno := "u"; taken_code := "C0"; cycle := 1; grade := 15 |} ] |}.

Definition masked_cf : CF.CollaborativeFilteringModel :=
  {| CF.preprocessor := build_indices masked_loader;
     CF.factors := 1;
     CF.user_factors := [[1]];
     CF.item_factors := [[1]; [2]];
     CF.interaction_matrix := [[1; 0]] |}.

(** ** data_loader.py: further queries *)

Definition get_students_who_took_course (dl : DataLoader) (code : string)
    (pass_threshold : Q) : list string :=
  unique_first
    (alumno <$>
       filter (λ r, taken_code r = code ∧ Qle_bool pass_threshold (grade r) = true)
              (courses_taken dl)).

(** A recommender over a loader, with the graph built from it and models
    that know no student and no course. *)
Definition recommender_of (dl : DataLoader) : CourseRecommender :=
  {| data_loader := dl;
     preprocessor := build_indices dl;
     kg_builder :=
       {| KG.graph := KG.build_graph dl 11;
          KG.embeddings := ∅;
          KG.embedding_dim := 2 |};
     cf_model :=
       {| CF.preprocessor :=
            {| student_to_idx := ∅; idx_to_student := ∅;
               course_to_idx := ∅; idx_to_course := ∅ |};
          CF.factors := 2;
          CF.user_factors := [];
          CF.item_factors := [];
          CF.interaction_matrix := [] |};
     content_model := {| compute_similarity := λ _ _, 0 |};
     hybrid_model := {| predict_score := λ _ _, 0 |} |}.

(** The same recommender before any graph is built. *)
Definition without_graph (self : CourseRecommender) : CourseRecommender :=
  {| data_loader := data_loader self;
     preprocessor := preprocessor self;
     kg_builder :=
       {| KG.graph := KG.empty_graph;
          KG.embeddings := KG.embeddings (kg_builder self);
          KG.embedding_dim := KG.embedding_dim (kg_builder self) |};
     cf_model := cf_model self;
     content_model := content_model self;
     hybrid_model := hybrid_model self |}.

(** Student [s3] passed every obligatory course and the elective EL001;
    EL002 requires EL001. *)
Definition graduate_loader : DataLoader :=
  {| courses :=
       [ {| course_code := "EL001"; course_name := "Electivo 1";
            prereq_codes := []; lineas_carrera := ["T1"] |};
         {| course_code := "EL002"; course_name := "Electivo 2";
            prereq_codes := ["EL001"]; lineas_carrera := ["T1"] |} ];
     courses_taken :=
       ((λ code, {| alumno := "s3"; taken_code := code; cycle := 1; grade := 12 |})
          <$> elements OBLIGATORY_COURSES)
       ++ [ {| alumno := "s3"; taken_code := "EL001"; cycle := 2; grade := 15 |} ] |}.

(** The TOOK edge that [build_graph] adds for a record, and the graphs in
    which the end points of every edge are nodes (networkx keeps this by
    construction). *)
Definition took_edge (pass_threshold : Q) (row : taken_row) : KG.edge :=
  {| KG.e_src := KG.student_node (alumno row);
     KG.e_dst := KG.course_node (taken_code row);
     KG.e_type := KG.TOOK (grade row) (Qle_bool pass_threshold (grade row)) |}.

Definition is_took (e : KG.edge) : Prop :=
  match KG.e_type e with
  | KG.TOOK _ _ => True
  | _ => False
  end.

#[global] Instance is_took_dec e : Decision (is_took e).
Proof. unfold is_took. destruct (KG.e_type e); apply _. Defined.

Definition graph_wf (g : KG.MultiDiGraph) : Prop :=
  ∀ e, e ∈ KG.g_edges g →
       is_Some (KG.g_nodes g !! KG.e_src e) ∧ is_Some (KG.g_nodes g !! KG.e_dst e).

(** What a run over a walk keeps of the table it started from. *)
Definition keeps (E0 : gmap string (list Q)) (walk : list string) (d : nat)
    (E : gmap string (list Q)) : Prop :=
  (∀ k, is_Some (E !! k) ↔ is_Some (E0 !! k))
  ∧ (∀ k, k ∉ walk → E !! k = E0 !! k)
  ∧ (∀ k v, k ∈ walk → E !! k = Some v → length v = d).

(** ** kg_builder.py: random walks *)

(** [random.choice] is driven by an oracle: the draw of step [i] selects the
    entry of index [rng i mod len] of the neighbour list. *)
Fixpoint walk_steps (neighbors : gmap string (list string)) (rng : nat → nat)
    (i steps : nat) (current : string) : list string :=
  match steps with
  | O => []
  | S steps' =>
      match neighbors !! current with
      | Some (x :: l) =>
          let next := default x ((x :: l) !! (rng i mod length (x :: l))%nat) in
          next :: walk_steps neighbors rng (S i) steps' next
      | _ => []
      end
  end.

Definition _random_walk (rng : nat → nat) (start_node : string) (walk_length : Z)
    (neighbors : gmap string (list string)) : list string :=
  start_node :: walk_steps neighbors rng 0 (Z.to_nat (walk_length - 1)) start_node.

(** Node [a] leads to [b], which leads nowhere. *)
Definition dead_end_neighbors : gmap string (list string) :=
  {[ "a" := ["b"]; "b" := [] ]}.

(** ** utils.py *)

Record curriculum_progress : Type := {
  cp_student_id : string;
  obligatory_passed : nat;
  obligatory_failed : nat;
  obligatory_pending : nat;
  total_obligatory : nat;
  progress_percentage : Q;
  failed_list : list string;
  pending_list : list string
}.

Definition get_curriculum_progress (dl : DataLoader) (sid : string)
    (obligatory_courses : gset string) (pass_threshold : Q) : curriculum_progress :=
  let history := get_student_history dl sid pass_threshold in
  let passed : gset string := list_to_set (passed_courses history) in
  let all_taken : gset string := list_to_set (all_courses history) in
  let obligatory_passed := passed ∩ obligatory_courses in
  let obligatory_failed := (all_taken ∖ passed) ∩ obligatory_courses in
  let obligatory_pending := obligatory_courses ∖ all_taken in
  let total_obligatory := size obligatory_courses in
  let progress :=
    if decide (0 < total_obligatory)%nat
    then inject_Z (Z.of_nat (size obligatory_passed))
         / inject_Z (Z.of_nat total_obligatory) * 100
    else 0 in
  {| cp_student_id := sid;
     obligatory_passed := size obligatory_passed;
     obligatory_failed := size obligatory_failed;
     obligatory_pending := size obligatory_pending;
     total_obligatory := total_obligatory;
     progress_percentage := progress;
     failed_list := elements obligatory_failed;
     pending_list := elements obligatory_pending |}.



(** [DataLoader.get_prerequisite_chain].  The inner function recurses on the
    prerequisites of a course with a copy of the visited set, so the calls for
    two prerequisites do not see each other's additions.  The recursion is on
    [fuel]; [None] stands for running out of it, which
    [get_prerequisite_chain_spec] shows not to happen with the fuel given by
    [get_prerequisite_chain].  Python's recursion limit is not modelled. *)
Fixpoint get_prereqs_recursive (fuel : nat) (dl : DataLoader) (code : string)
    (visited : gset string) : option (list (list string)) :=
  match fuel with
  | O => None
  | S fuel =>
      if decide (code ∈ visited) then Some []
      else
        let visited := {[code]} ∪ visited in
        match get_course_info dl code with
        | None => Some [[code]]
        | Some course_info =>
            if is_nil (prereq_codes course_info) then Some [[code]]
            else
              sub_chains ←
                mapM (λ prereq, get_prereqs_recursive fuel dl prereq visited)
                     (prereq_codes course_info);
              let chains := (λ chain, chain ++ [code]) <$> concat sub_chains in
              Some (if is_nil chains then [[code]] else chains)
        end
  end.

Definition get_prerequisite_chain (dl : DataLoader) (code : string)
    : option (list (list string)) :=
  get_prereqs_recursive (S (length (courses dl))) dl code ∅.

(** Each course of a chain is a declared prerequisite of the next one. *)
Definition linked (dl : DataLoader) (chain : list string) : Prop :=
  ∀ i a b, chain !! i = Some a → chain !! S i = Some b →
           a ∈ declared_prereqs dl b.

(** What a call of the inner function returns, for any visited set. *)
Definition chains_ok (dl : DataLoader) (visited : gset string) (code : string)
    (r : list (list string)) : Prop :=
  (code ∈ visited → r = []) ∧ (code ∉ visited → r ≠ []) ∧
  ∀ chain, chain ∈ r →
    last chain = Some code ∧ NoDup chain ∧ (∀ x, x ∈ chain → x ∉ visited) ∧
    linked dl chain ∧
    ∀ h p, head chain = Some h → p ∈ declared_prereqs dl h →
           p ∈ chain ∨ p ∈ visited.

(** [DataPreprocessor.build_interaction_matrix], over the loader the
    preprocessor was made for.  The records that pass are mapped to index
    pairs, those without an index are dropped ([dropna]), and the pairs are
    handed to [csr_matrix] with the shape taken from the sizes of the two
    dictionaries: scipy raises [ValueError] for an index outside the shape and
    adds up the entries of a pair given more than once.  The matrix is kept
    dense, as the collaborative filter reads it. *)
Definition index_pairs (pre : DataPreprocessor) (dl : DataLoader)
    (pass_threshold : Q) : list (nat * nat) :=
  omap (λ r, student_idx ← student_to_idx pre !! alumno r;
             course_idx ← course_to_idx pre !! taken_code r;
             Some (student_idx, course_idx))
       (filter (λ r, Qle_bool pass_threshold (grade r) = true) (courses_taken dl)).

Definition csr_matrix (n_rows n_cols : nat) (entries : list (nat * nat))
    : result (list (list Q)) :=
  for_each (λ matrix '(i, j),
              if decide (i < n_rows ∧ j < n_cols)%nat
              then Ok (alter (alter (λ v, v + 1) j) i matrix)
              else Raise ValueError)
           (replicate n_rows (zeros n_cols)) entries.

Definition build_interaction_matrix (pre : DataPreprocessor) (dl : DataLoader)
    (pass_threshold : Q) : result (list (list Q)) :=
  let entries := index_pairs pre dl pass_threshold in
  let n_students := size (student_to_idx pre) in
  let n_courses := size (course_to_idx pre) in
  if is_nil entries then Ok (replicate n_students (zeros n_courses))
  else csr_matrix n_students n_courses entries.

(** The entry of a matrix, and the records of a student's passing attempts at
    a course. *)
Definition entry (matrix : list (list Q)) (i j : nat) : option Q :=
  matrix !! i ≫= (.!! j).

Definition passing_records (dl : DataLoader) (sid code : string) (t : Q)
    : list taken_row :=
  filter (λ r, alumno r = sid ∧ taken_code r = code ∧ Qle_bool t (grade r) = true)
         (courses_taken dl).

(** ** content_model.py *)

Module CB.

(** [ContentBasedModel.recommend]: the candidates with their similarity,
    sorted by it in descending order ([reverse=True] keeps the order of equal
    scores) and cut at [top_k]. *)
Definition recommend (cb : ContentBasedModel) (sid : string)
    (candidates : list string) (top_k : Z) : list (string * Q) :=
  let scores := (λ course, (course, compute_similarity cb sid course)) <$> candidates in
  py_slice_to top_k (py_sort (λ x y, Qle_bool y.2 x.2) scores).

End CB.

(** [DataLoader.get_course_statistics].  The four labels of the difficulty
    ('Fácil', 'Medio', 'Difícil', 'N/A') are an enumeration. *)
Inductive difficulty_label : Type :=
  | Facil
  | Medio
  | Dificil
  | NotAvailable.

Record course_statistics : Type := {
  cs_course_code : string;
  cs_num_students : nat;
  cs_avg_grade : Q;
  cs_pass_rate : Q;
  cs_difficulty : difficulty_label
}.

Definition get_course_statistics (dl : DataLoader) (code : string)
    : course_statistics :=
  let course_data := filter (λ r, taken_code r = code) (courses_taken dl) in
  if decide (length course_data = 0%nat) then
    {| cs_course_code := code; cs_num_students := 0; cs_avg_grade := 0;
       cs_pass_rate := 0; cs_difficulty := NotAvailable |}
  else
    let num_students := length course_data in
    let avg_grade :=
      py_sum (grade <$> course_data) / inject_Z (Z.of_nat num_students) in
    let pass_rate :=
      inject_Z (Z.of_nat (length (filter (λ r, Qle_bool 10 (grade r) = true)
                                         course_data)))
      / inject_Z (Z.of_nat num_students) * 100 in
    let difficulty :=
      if Qle_bool 14 avg_grade then Facil
      else if Qle_bool 11 avg_grade then Medio
      else Dificil in
    {| cs_course_code := code; cs_num_students := num_students;
       cs_avg_grade := avg_grade; cs_pass_rate := pass_rate;
       cs_difficulty := difficulty |}.

(** * Properties *)

(** ** The result monad, sorting and slicing *)

Lemma mapM_Ok_Forall2 {A B} (f : A → result B) (l : list A) (k : list B) :
  mapM f l = Ok k → Forall2 (λ x y, f x = Ok y) l k.
Proof.
  revert k. induction l as [|x l IH]; intros k Hk; simpl in Hk.
  - injection Hk as <-. constructor.
  - destruct (f x) as [y|e] eqn:Hx; simpl in Hk; [|discriminate].
    destruct (mapM f l) as [k'|e] eqn:Hl; simpl in Hk; [|discriminate].
    injection Hk as <-. constructor; [done|]. by apply IH.
Qed.

Lemma Forall2_mapM_Ok {A B} (f : A → result B) (l : list A) (k : list B) :
  Forall2 (λ x y, f x = Ok y) l k → mapM f l = Ok k.
Proof.
  induction 1 as [|x y l k Hx _ IH]; simpl; [done|].
  rewrite Hx. simpl. rewrite IH. done.
Qed.

Lemma py_slice_to_take {A} (k : Z) (l : list A) :
  ∃ n, py_slice_to k l = take n l.
Proof. unfold py_slice_to. destruct (0 <=? k)%Z; eauto. Qed.

Lemma py_slice_to_all {A} (k : Z) (l : list A) :
  (Z.of_nat (length l) <= k)%Z → py_slice_to k l = l.
Proof.
  intros Hk. unfold py_slice_to.
  destruct (Z.leb_spec 0 k) as [_|Hneg]; [|lia].
  apply take_ge. lia.
Qed.

Lemma insert_sorted_perm {A} (leb : A → A → bool) x l :
  insert_sorted leb x l ≡ₚ x :: l.
Proof.
  induction l as [|y l IH]; simpl; [done|].
  destruct (leb x y); [done|]. rewrite IH. apply Permutation_swap.
Qed.

Lemma py_sort_perm {A} (leb : A → A → bool) l : py_sort leb l ≡ₚ l.
Proof.
  induction l as [|x l IH]; simpl; [done|].
  by rewrite insert_sorted_perm, IH.
Qed.

Section sort_facts.
Context {A : Type} (leb : A → A → bool).
Hypothesis leb_total : ∀ x y, leb x y = false → leb y x = true.
Hypothesis leb_trans : ∀ x y z, leb x y = true → leb y z = true → leb x z = true.

Lemma insert_sorted_sorted x l :
  StronglySorted (λ a b, leb a b = true) l →
  StronglySorted (λ a b, leb a b = true) (insert_sorted leb x l).
Proof using leb_total leb_trans.
  induction 1 as [|y l Hl IH Hy]; simpl.
  - repeat constructor.
  - destruct (leb x y) eqn:Hxy.
    + constructor; [by constructor|].
      constructor; [done|].
      eapply Forall_impl; [exact Hy|]. intros z Hz. by eapply leb_trans.
    + constructor; [done|].
      rewrite insert_sorted_perm. constructor; [by apply leb_total|done].
Qed.

Lemma py_sort_sorted l : StronglySorted (λ a b, leb a b = true) (py_sort leb l).
Proof using leb_total leb_trans.
  induction l as [|x l IH]; simpl; [constructor|].
  by apply insert_sorted_sorted.
Qed.
End sort_facts.

Lemma StronglySorted_lookup_lt {A} (R : relation A) (l : list A) i j a b :
  StronglySorted R l → (i < j)%nat → l !! i = Some a → l !! j = Some b → R a b.
Proof.
  intros Hl. revert i j. induction Hl as [|x l Hl IH Hx]; intros i j Hij Hi Hj.
  - done.
  - destruct j as [|j]; [lia|]. simpl in Hj.
    destruct i as [|i]; simpl in Hi.
    + injection Hi as <-. rewrite Forall_forall in Hx.
      apply Hx. by eapply list_elem_of_lookup_2.
    + eapply IH; [|done|done]. lia.
Qed.

(** ** recommend.py: ranking *)

Lemma key_leb_spec x y :
  key_leb x y = true ↔
  (item_priority x < item_priority y)%Z
  ∨ (item_priority x = item_priority y ∧ item_score y <= item_score x).
Proof.
  unfold key_leb.
  rewrite orb_true_iff, andb_true_iff, Z.ltb_lt, Z.eqb_eq, Qle_bool_iff.
  split; (intros [H|[H1 H2]]; [by left|right; split; [done|]]).
  - by apply Qopp_le_compat in H2; rewrite !Qopp_involutive in H2.
  - by apply Qopp_le_compat.
Qed.

Lemma key_leb_total x y : key_leb x y = false → key_leb y x = true.
Proof.
  intros Hxy. apply key_leb_spec.
  destruct (Z.lt_trichotomy (item_priority x) (item_priority y)) as [H|[H|H]].
  - assert (key_leb x y = true) by (apply key_leb_spec; by left). congruence.
  - destruct (Qlt_le_dec (item_score x) (item_score y)) as [Hlt|Hle].
    + right. split; [done|]. by apply Qlt_le_weak.
    + assert (key_leb x y = true) by (apply key_leb_spec; by right). congruence.
  - by left.
Qed.

Lemma key_leb_trans x y z :
  key_leb x y = true → key_leb y z = true → key_leb x z = true.
Proof.
  rewrite !key_leb_spec. intros [H1|[H1 H1']] [H2|[H2 H2']].
  - left. lia.
  - left. lia.
  - left. lia.
  - right. split; [lia|]. by eapply Qle_trans.
Qed.

Lemma attach_Ok self sid item r :
  attach self sid item = Ok r →
  rec_course_code r = item_course_code item
  ∧ rec_score r = item_score item
  ∧ rec_priority r = item_priority item
  ∧ rec_is_failed r = item_is_failed item
  ∧ rec_course_name r =
      match get_course_info (data_loader self) (item_course_code item) with
      | Some info => course_name info
      | None => ""
      end
  ∧ rec_lineas_carrera r =
      match get_course_info (data_loader self) (item_course_code item) with
      | Some info => lineas_carrera info
      | None => []
      end.
Proof.
  unfold attach. intros H.
  destruct (explain_recommendation self sid (item_course_code item)) as [e|e];
    simpl in H; [|discriminate].
  injection H as <-. done.
Qed.

(** What one turn of the scoring loop records for a candidate. *)
Lemma score_candidate_Some self sid course item :
  score_candidate self sid course = Some item →
  item_course_code item = course
  ∧ cumple_prereqs self sid course = true
  ∧ let base := predict_score (hybrid_model self) sid course
                + calcular_peso_lineas self sid course * 0.5 in
    ((course ∈ failed_courses (data_loader self) sid)
       ∧ item_priority item = 1%Z ∧ item_score item = base + 2)
    ∨ ((course ∉ failed_courses (data_loader self) sid)
       ∧ (course ∈ not_taken_obligatory (data_loader self) sid)
       ∧ item_priority item = 2%Z ∧ item_score item = base + 1)
    ∨ ((course ∉ failed_courses (data_loader self) sid)
       ∧ (course ∉ not_taken_obligatory (data_loader self) sid)
       ∧ item_priority item = 3%Z ∧ item_score item = base).
Proof.
  unfold score_candidate.
  destruct (cumple_prereqs self sid course); simpl; [|done].
  repeat case_decide; intros [= <-]; simpl; (split; [done|split; [done|]]); tauto.
Qed.

Lemma recomendar_cursos_Ok self sid top_k recs :
  recomendar_cursos self sid top_k = Ok recs →
  ∃ n, Forall2 (λ item r, attach self sid item = Ok r)
               (take n (scored_candidates self sid)) recs.
Proof.
  unfold recomendar_cursos.
  destruct (is_nil _) eqn:Hnil.
  - intros [= <-]. exists 0%nat. constructor.
  - intros H. apply mapM_Ok_Forall2 in H.
    destruct (py_slice_to_take top_k
                (py_sort key_leb
                   (omap (score_candidate self sid)
                      (prioritized_candidates (data_loader self) sid)))) as [n Hn].
    exists n. unfold scored_candidates. by rewrite <- Hn.
Qed.

(** C1. The recommendations returned by [recomendar_cursos] are ordered by
    priority first and by score next: of two recommendations, the earlier
    one has the smaller priority, or the same priority and a score at least
    as large. *)
Theorem recomendar_cursos_sorted self sid top_k recs i j r1 r2 :
  recomendar_cursos self sid top_k = Ok recs →
  (i < j)%nat → recs !! i = Some r1 → recs !! j = Some r2 →
  (rec_priority r1 < rec_priority r2)%Z
  ∨ (rec_priority r1 = rec_priority r2 ∧ rec_score r2 <= rec_score r1).
Proof.
  intros Hrec Hij Hi Hj.
  destruct (recomendar_cursos_Ok _ _ _ _ Hrec) as [n HF].
  destruct (Forall2_lookup_r _ _ _ _ _ HF Hi) as (x1 & Hx1 & Ha1).
  destruct (Forall2_lookup_r _ _ _ _ _ HF Hj) as (x2 & Hx2 & Ha2).
  apply attach_Ok in Ha1 as (_ & -> & -> & _).
  apply attach_Ok in Ha2 as (_ & -> & -> & _).
  apply key_leb_spec.
  apply lookup_take_Some in Hx1 as [Hx1 _].
  apply lookup_take_Some in Hx2 as [Hx2 _].
  eapply (StronglySorted_lookup_lt (λ a b, key_leb a b = true)); [|exact Hij|done|done].
  apply py_sort_sorted; [apply key_leb_total|apply key_leb_trans].
Qed.

Lemma recomendar_cursos_sorted_witness :
  recomendar_cursos sample_recommender "s1" 3 = Ok sample_recs
  ∧ ∃ r1 r2,
      sample_recs !! 0%nat = Some r1 ∧ sample_recs !! 1%nat = Some r2
      ∧ ((rec_priority r1 < rec_priority r2)%Z
         ∨ (rec_priority r1 = rec_priority r2 ∧ rec_score r2 <= rec_score r1)).
Proof.
  assert (Hrun : recomendar_cursos sample_recommender "s1" 3 = Ok sample_recs)
    by (vm_compute; reflexivity).
  split; [exact Hrun|].
  eexists _, _. split; [reflexivity|]. split; [reflexivity|].
  apply (recomendar_cursos_sorted sample_recommender "s1" 3 sample_recs 0 1);
    [exact Hrun|lia|reflexivity|reflexivity].
Defined.

(** C2. Every returned recommendation is a candidate whose prerequisites
    are met, and its score is the fusion score plus half the track weight,
    plus 2 for a failed obligatory course (priority 1), plus 1 for an
    obligatory course never taken (priority 2), plus 0 otherwise
    (priority 3). *)
Theorem recomendar_cursos_score self sid top_k recs r :
  recomendar_cursos self sid top_k = Ok recs →
  r ∈ recs →
  let course := rec_course_code r in
  let dl := data_loader self in
  let base := predict_score (hybrid_model self) sid course
              + 0.5 * calcular_peso_lineas self sid course in
  course ∈ prioritized_candidates dl sid
  ∧ cumple_prereqs self sid course = true
  ∧ (((course ∈ failed_courses dl sid)
        ∧ rec_priority r = 1%Z ∧ rec_score r == base + 2)
     ∨ ((course ∉ failed_courses dl sid) ∧ (course ∈ not_taken_obligatory dl sid)
        ∧ rec_priority r = 2%Z ∧ rec_score r == base + 1)
     ∨ ((course ∉ failed_courses dl sid) ∧ (course ∉ not_taken_obligatory dl sid)
        ∧ rec_priority r = 3%Z ∧ rec_score r == base + 0)).
Proof.
  intros Hrec Hr.
  destruct (recomendar_cursos_Ok _ _ _ _ Hrec) as [n HF].
  apply list_elem_of_lookup in Hr as [i Hi].
  destruct (Forall2_lookup_r _ _ _ _ _ HF Hi) as (item & Hitem & Hatt).
  apply attach_Ok in Hatt as (Hc & Hs & Hp & _).
  apply lookup_take_Some in Hitem as [Hitem _].
  apply list_elem_of_lookup_2 in Hitem.
  unfold scored_candidates in Hitem. rewrite py_sort_perm in Hitem.
  apply list_elem_of_omap in Hitem as (c & Hcand & Hsc).
  apply score_candidate_Some in Hsc as (Hcode & Hpre & Hcases).
  simpl. rewrite Hc, Hcode, Hs, Hp.
  split; [done|]. split; [done|].
  destruct Hcases as [(H1 & H2 & H3)|[(H1 & H2 & H3 & H4)|(H1 & H2 & H3 & H4)]].
  - left. split; [done|]. split; [done|]. rewrite H3. ring.
  - right; left. do 3 (split; [done|]). rewrite H4. ring.
  - right; right. do 3 (split; [done|]). rewrite H4. ring.
Qed.

Lemma recomendar_cursos_score_witness :
  recomendar_cursos sample_recommender "s1" 3 = Ok sample_recs
  ∧ ∃ r, sample_recs !! 1%nat = Some r
      ∧ rec_course_code r = "BFI05"
      ∧ cumple_prereqs sample_recommender "s1" "BFI05" = true
      ∧ rec_priority r = 2%Z
      ∧ rec_score r ==
          predict_score (hybrid_model sample_recommender) "s1" "BFI05"
          + 0.5 * calcular_peso_lineas sample_recommender "s1" "BFI05" + 1.
Proof.
  assert (Hrun : recomendar_cursos sample_recommender "s1" 3 = Ok sample_recs)
    by (vm_compute; reflexivity).
  split; [exact Hrun|].
  eexists. split; [reflexivity|]. split; [reflexivity|].
  match goal with
  | |- context [rec_priority ?r] =>
      destruct (recomendar_cursos_score sample_recommender "s1" 3 sample_recs r Hrun)
        as (_ & Hpre & Hcases)
  end.
  { apply list_elem_of_lookup. by exists 1%nat. }
  split; [exact Hpre|].
  destruct Hcases as [(_ & Hp & _)|[(_ & _ & Hp & Hs)|(_ & _ & Hp & _)]];
    [discriminate Hp|split; [exact Hp|exact Hs]|discriminate Hp].
Defined.

(** ** data_loader.py: the history of a student *)

Lemma Qmax_cases (a b : Q) :
  (Qmax a b = a ∧ b <= a) ∨ (Qmax a b = b ∧ a <= b).
Proof.
  unfold Qmax, GenericMinMax.gmax.
  destruct (a ?= b) eqn:Hc.
  - left. split; [done|]. apply Qeq_alt in Hc. apply Qle_lteq. right. by symmetry.
  - right. split; [done|]. apply Qlt_alt in Hc. by apply Qlt_le_weak.
  - left. split; [done|]. apply Qgt_alt in Hc. by apply Qlt_le_weak.
Qed.

Lemma groupby_max_lookup (rows : list taken_row) (code : string) :
  match groupby_max rows !! code with
  | Some g => is_best g (grade <$> filter (λ r, taken_code r = code) rows)
  | None => filter (λ r, taken_code r = code) rows = []
  end.
Proof.
  unfold groupby_max. induction rows as [|r rows IH] using rev_ind.
  - simpl. by rewrite lookup_empty.
  - rewrite foldl_snoc, filter_app. unfold best_grade_step at 1.
    set (m := foldl best_grade_step ∅ rows) in *.
    destruct (decide (taken_code r = code)) as [Heq|Hne].
    + rewrite filter_cons_True, filter_nil by done. rewrite Heq.
      destruct (m !! code) as [g|] eqn:Hm.
      * rewrite lookup_insert_eq, fmap_app. simpl.
        destruct IH as [Hin Hub].
        destruct (Qmax_cases g (grade r)) as [[-> Hle]|[-> Hle]]; split.
        -- apply elem_of_app. by left.
        -- intros x [Hx|Hx%list_elem_of_singleton]%elem_of_app; [by apply Hub|by subst].
        -- apply elem_of_app. right. by apply list_elem_of_singleton.
        -- intros x [Hx|Hx%list_elem_of_singleton]%elem_of_app.
           ++ eapply Qle_trans; [by apply Hub|done].
           ++ subst. apply Qle_refl.
      * rewrite lookup_insert_eq, IH. simpl. split.
        -- by apply list_elem_of_singleton.
        -- intros x Hx%list_elem_of_singleton. subst. apply Qle_refl.
    + rewrite filter_cons_False, filter_nil, app_nil_r by done.
      destruct (m !! taken_code r); by rewrite lookup_insert_ne.
Qed.

Lemma passed_courses_spec dl sid t code :
  code ∈ passed_courses (get_student_history dl sid t) ↔
  ∃ g, grades (get_student_history dl sid t) !! code = Some g ∧ t <= g.
Proof.
  unfold get_student_history. case_decide as Hlen; simpl.
  - split; [by intros ?%not_elem_of_nil|]. intros (g & Hg & _).
    by rewrite lookup_empty in Hg.
  - rewrite py_sort_perm, list_elem_of_fmap. split.
    + intros ([c g] & -> & [Hle Hin%elem_of_map_to_list]%list_elem_of_filter).
      exists g. split; [done|]. by apply Qle_bool_iff.
    + intros (g & Hg & Hle). exists (code, g). split; [done|].
      apply list_elem_of_filter. split; [by apply Qle_bool_iff|].
      by apply elem_of_map_to_list.
Qed.

Lemma grades_spec dl sid t code :
  match grades (get_student_history dl sid t) !! code with
  | Some g => is_best g (attempts dl sid code)
  | None => attempts dl sid code = []
  end.
Proof.
  unfold attempts, get_student_history. case_decide as Hlen; simpl.
  - apply nil_length_inv in Hlen. rewrite Hlen, lookup_empty. done.
  - pose proof (groupby_max_lookup
                  (filter (λ r, alumno r = sid) (courses_taken dl)) code) as H.
    destruct (groupby_max _ !! code); [done|]. by rewrite H.
Qed.

Lemma all_courses_spec dl sid t :
  all_courses (get_student_history dl sid t) =
  taken_code <$> filter (λ r, alumno r = sid) (courses_taken dl).
Proof.
  unfold get_student_history. case_decide as Hlen; simpl; [|done].
  apply nil_length_inv in Hlen. by rewrite Hlen.
Qed.

(** C6. The history of a student keeps every attempt in [all_courses],
    records for each course the best grade over its attempts, and counts a
    course as passed exactly when that best grade reaches the threshold.
    For the attempts (A, cycle 1, 15) and (A, cycle 2, 8) with threshold 10,
    A is passed with grade 15 and is listed twice. *)
Theorem get_student_history_retakes :
  (∀ dl sid t,
     let h := get_student_history dl sid t in
     all_courses h = taken_code <$> filter (λ r, alumno r = sid) (courses_taken dl)
     ∧ (∀ code,
          match grades h !! code with
          | Some g => is_best g (attempts dl sid code)
          | None => attempts dl sid code = []
          end)
     ∧ (∀ code, code ∈ passed_courses h ↔ ∃ g, grades h !! code = Some g ∧ t <= g))
  ∧ (let h := get_student_history retake_loader "s" 10 in
     passed_courses h = ["A"]
     ∧ grades h !! "A" = Some 15
     ∧ all_courses h = ["A"; "A"]).
Proof.
  split.
  - intros dl sid t. simpl. split; [apply all_courses_spec|].
    split; [apply grades_spec|apply passed_courses_spec].
  - vm_compute. done.
Qed.

(** ** recommend.py: prerequisites *)

(** C3. [cumple_prereqs] holds exactly when every declared prerequisite of
    the course is among the courses the student passed with threshold 10;
    the function takes no threshold.  With no declared prerequisite it
    holds. *)
Theorem cumple_prereqs_spec self sid code :
  (cumple_prereqs self sid code = true ↔
   ∀ p, p ∈ declared_prereqs (data_loader self) code →
        p ∈ passed_courses (get_student_history (data_loader self) sid 10))
  ∧ (declared_prereqs (data_loader self) code = [] →
     cumple_prereqs self sid code = true).
Proof.
  unfold cumple_prereqs, declared_prereqs.
  destruct (get_course_info (data_loader self) code) as [info|].
  - destruct (prereq_codes info) as [|p0 ps] eqn:Hp; simpl.
    + split; [|done]. split; [|done]. by intros _ p ?%not_elem_of_nil.
    + split; [|done].
      rewrite andb_true_iff, bool_decide_eq_true, forallb_forall, elem_of_list_to_set.
      split.
      * intros [H0 Hps] p [->|Hin]%elem_of_cons; [done|].
        apply list_elem_of_In, Hps in Hin.
        by apply bool_decide_eq_true, elem_of_list_to_set in Hin.
      * intros H. split; [apply H; by left|].
        intros p Hin%list_elem_of_In.
        apply bool_decide_eq_true, elem_of_list_to_set, H. by right.
  - split; [|done]. split; [|done]. by intros _ p ?%not_elem_of_nil.
Qed.

Lemma cumple_prereqs_spec_witness :
  declared_prereqs (data_loader sample_recommender) "BFI05" = ["BFI01"]
  ∧ cumple_prereqs sample_recommender "s1" "BFI05" = true
  ∧ declared_prereqs (data_loader sample_recommender) "BAE01" = []
  ∧ cumple_prereqs sample_recommender "s1" "BAE01" = true.
Proof.
  split; [reflexivity|].
  split.
  - apply (proj1 (cumple_prereqs_spec sample_recommender "s1" "BFI05")).
    intros p Hp. vm_compute in Hp.
    apply list_elem_of_singleton in Hp. subst p.
    vm_compute. apply list_elem_of_singleton. reflexivity.
  - split; [reflexivity|].
    apply (proj2 (cumple_prereqs_spec sample_recommender "s1" "BAE01")).
    reflexivity.
Defined.

(** ** kg_builder.py: embedding lookups *)

(** C9. The embedding lookups of the knowledge graph return the stored
    vector of the node when the table has one, and otherwise the zero vector
    of the configured dimension; they are total. *)
Theorem kg_embedding_lookup kg sid code :
  KG.get_student_embedding kg sid =
    default (replicate (KG.embedding_dim kg) 0)
            (KG.embeddings kg !! ("Student:" +:+ sid))
  ∧ KG.get_course_embedding kg code =
    default (replicate (KG.embedding_dim kg) 0)
            (KG.embeddings kg !! ("Course:" +:+ code))
  ∧ length (replicate (KG.embedding_dim kg) 0) = KG.embedding_dim kg.
Proof.
  unfold KG.get_student_embedding, KG.get_course_embedding,
    KG.student_node, KG.course_node, zeros.
  split; [by destruct (KG.embeddings kg !! _)|].
  split; [by destruct (KG.embeddings kg !! _)|].
  apply length_replicate.
Qed.

(** ** recommend.py: the track weight *)

Lemma Qltb_lt a b : Qltb a b = true ↔ a < b.
Proof.
  unfold Qltb. rewrite negb_true_iff, <- not_true_iff_false, Qle_bool_iff.
  split; [apply Qnot_le_lt|apply Qlt_not_le].
Qed.

Lemma Qltb_ge a b : Qltb a b = false ↔ b <= a.
Proof.
  unfold Qltb. rewrite negb_false_iff. apply Qle_bool_iff.
Qed.

Lemma py_clamp_cases (x : Q) :
  let w := py_max 0 (py_min 1 x) in
  0 <= w ∧ w <= 1
  ∧ (x <= 0 → w == 0) ∧ (0 <= x → x <= 1 → w == x) ∧ (1 <= x → w == 1)
  ∧ (w == 0 → x <= 0).
Proof.
  unfold py_max, py_min.
  destruct (Qltb x 1) eqn:H1; [apply Qltb_lt in H1|apply Qltb_ge in H1];
  (destruct (Qltb 0 _) eqn:H0; [apply Qltb_lt in H0|apply Qltb_ge in H0]);
  simpl; repeat split; intros; lra.
Qed.

Lemma py_sum_acc (a : Q) (l : list Q) : foldl Qplus a l == a + py_sum l.
Proof.
  unfold py_sum. revert a. induction l as [|x l IH]; intros a; simpl.
  - ring.
  - rewrite (IH (a + x)), (IH (0 + x)). ring.
Qed.

Lemma py_sum_cons x l : py_sum (x :: l) == x + py_sum l.
Proof. unfold py_sum at 1. simpl. rewrite py_sum_acc. ring. Qed.

Lemma inject_length_cons {A} (x : A) l :
  inject_Z (Z.of_nat (length (x :: l))) == inject_Z (Z.of_nat (length l)) + 1.
Proof.
  simpl length. rewrite Nat2Z.inj_succ. unfold Z.succ. by rewrite inject_Z_plus.
Qed.

Lemma related_grades_filter dl h (tr : list string) :
  related_grades dl h (list_to_set tr) =
  best_grade_of h <$>
    filter (λ c, Exists (λ linea, linea ∈ tracks dl c) tr) (passed_courses h).
Proof.
  unfold related_grades.
  assert (∀ l acc,
    foldl (λ related passed_course,
             match get_course_info dl passed_course with
             | Some passed_info =>
                 if is_nil (lineas_carrera passed_info) then related
                 else
                   let passed_lineas : gset string :=
                     list_to_set (lineas_carrera passed_info) in
                   if decide (list_to_set tr ∩ passed_lineas = ∅) then related
                   else related ++ [default 0 (grades h !! passed_course)]
             | None => related
             end) acc l
    = acc ++ (best_grade_of h <$>
                filter (λ c, Exists (λ linea, linea ∈ tracks dl c) tr) l)) as Hgen.
  { induction l as [|c l IH]; intros acc; simpl.
    - by rewrite app_nil_r.
    - rewrite IH.
      destruct (get_course_info dl c) as [pinfo|] eqn:Hc.
      + assert (tracks dl c = lineas_carrera pinfo) as Ht
          by (unfold tracks; by rewrite Hc).
        destruct (lineas_carrera pinfo) as [|x xs] eqn:Hl; cbn [is_nil]; cbv zeta.
        * rewrite filter_cons_False; [done|].
          rewrite Exists_exists, Ht. intros (y & _ & Hy). by apply not_elem_of_nil in Hy.
        * case_decide as Hd.
          -- rewrite filter_cons_False; [done|].
             rewrite Exists_exists, Ht. intros (y & Hy).
             apply (not_elem_of_empty (C:=gset string) y). rewrite <- Hd.
             apply elem_of_intersection.
             split; apply elem_of_list_to_set; tauto.
          -- rewrite filter_cons_True.
             { rewrite fmap_cons, <- app_assoc. done. }
             apply Exists_exists. rewrite Ht.
             apply set_choose_L in Hd as [y Hy]. exists y.
             apply elem_of_intersection in Hy as [Hy1 Hy2].
             split; by apply (elem_of_list_to_set (C:=gset string)).
      + assert (tracks dl c = []) as Ht by (unfold tracks; by rewrite Hc).
        rewrite filter_cons_False; [done|].
        rewrite Exists_exists, Ht. intros (y & _ & Hy). by apply not_elem_of_nil in Hy. }
  by rewrite Hgen.
Qed.

Lemma inject_length_pos {A} (l : list A) : l ≠ [] → 0 < inject_Z (Z.of_nat (length l)).
Proof.
  destruct l as [|x l]; [done|]. intros _.
  rewrite inject_length_cons.
  assert (0 <= inject_Z (Z.of_nat (length l))).
  { change 0 with (inject_Z 0). rewrite <- Zle_Qle. lia. }
  lra.
Qed.

Lemma related_courses_no_tracks dl sid code :
  tracks dl code = [] → related_courses dl sid code = [].
Proof.
  intros Ht. unfold related_courses, shares_track. rewrite Ht.
  induction (passed_courses _) as [|c l IH]; [done|].
  rewrite filter_cons_False; [done|]. by intros ?%Exists_nil.
Qed.

Lemma calcular_peso_lineas_unfold self sid code :
  let dl := data_loader self in
  let h := get_student_history dl sid 10 in
  let rel := related_courses dl sid code in
  calcular_peso_lineas self sid code =
  if is_nil rel then 0
  else py_max 0 (py_min 1
         ((py_sum (best_grade_of h <$> rel) / inject_Z (Z.of_nat (length rel)) - 10) / 10)).
Proof.
  intros dl h rel. unfold calcular_peso_lineas. fold dl h.
  destruct (get_course_info dl code) as [info|] eqn:Hc.
  - assert (tracks dl code = lineas_carrera info) as Ht
      by (unfold tracks; by rewrite Hc).
    destruct (lineas_carrera info) as [|x xs] eqn:Hl.
    + simpl. unfold rel. by rewrite related_courses_no_tracks.
    + cbv zeta. rewrite related_grades_filter.
      change (is_nil (x :: xs)) with false. cbv iota.
      unfold rel, related_courses, shares_track. rewrite Ht. fold h.
      destruct (filter _ (passed_courses h)) as [|c l]; [done|].
      simpl is_nil. cbv iota. by rewrite length_fmap.
  - assert (tracks dl code = []) as Ht by (unfold tracks; by rewrite Hc).
    unfold rel. by rewrite related_courses_no_tracks.
Qed.

(** C4, as amended.  The track weight lies in [0,1].  It is the average of
    the best grades of the passed courses that share a track with the
    target, mapped linearly from [10,20] to [0,1] and clamped.  It is 0 when
    no passed course shares a track with the target. *)
Theorem calcular_peso_lineas_bounds self sid code :
  let dl := data_loader self in
  let h := get_student_history dl sid 10 in
  let w := calcular_peso_lineas self sid code in
  let rel := related_courses dl sid code in
  let peso :=
    (py_sum (best_grade_of h <$> rel) / inject_Z (Z.of_nat (length rel)) - 10) / 10 in
  (0 <= w ∧ w <= 1)
  ∧ (rel = [] → w == 0)
  ∧ (rel ≠ [] →
       (peso <= 0 → w == 0) ∧ (0 <= peso → peso <= 1 → w == peso) ∧ (1 <= peso → w == 1)).
Proof.
  intros dl h w rel peso.
  pose proof (calcular_peso_lineas_unfold self sid code) as Hw.
  cbv zeta in Hw. fold dl h rel w peso in Hw.
  destruct rel as [|c0 rel0] eqn:Hrel.
  - simpl in Hw. rewrite Hw. split; [split; lra|]. split; [done|]. done.
  - simpl is_nil in Hw. cbv iota in Hw.
    destruct (py_clamp_cases peso) as (H0 & H1 & Hlo & Hmid & Hhi & _).
    cbv zeta in *. rewrite <- Hw in *.
    split; [done|]. split; [done|]. done.
Qed.

Lemma calcular_peso_lineas_bounds_witness :
  related_courses sample_loader "s1" "BFI05" ≠ []
  ∧ calcular_peso_lineas sample_recommender "s1" "BFI05" == 0.4.
Proof.
  split; [by vm_compute|].
  destruct (calcular_peso_lineas_bounds sample_recommender "s1" "BFI05")
    as (_ & _ & H).
  destruct H as (_ & Hmid & _); [by vm_compute|].
  rewrite Hmid; by vm_compute.
Defined.

(** C4, as stated, fails: a passed course with best grade 10 shares the
    track of the target and the weight is 0 all the same. *)
Lemma calcular_peso_lineas_zero_with_related :
  ¬ (calcular_peso_lineas (with_loader borderline_loader) "s" "B" == 0 ↔
     ¬ ∃ c, c ∈ passed_courses (get_student_history borderline_loader "s" 10)
            ∧ shares_track borderline_loader "B" c).
Proof.
  intros [H _]. apply H; [by vm_compute|].
  exists "A". split.
  - vm_compute. apply list_elem_of_singleton. reflexivity.
  - unfold shares_track. vm_compute. constructor. apply list_elem_of_singleton. reflexivity.
Qed.

(** ** recommend.py: obligatory courses outside the catalog *)

(** An obligatory course the student never took is a candidate of the second
    tier whether the catalog lists it or not, and without catalog entry the
    prerequisite check passes. *)
Lemma obligatory_not_taken_candidate self sid code :
  code ∈ OBLIGATORY_COURSES →
  code ∉ all_courses (get_student_history (data_loader self) sid 10) →
  get_course_info (data_loader self) code = None →
  code ∈ prioritized_candidates (data_loader self) sid
  ∧ cumple_prereqs self sid code = true
  ∧ ∃ item, score_candidate self sid code = Some item ∧ item_priority item = 2%Z.
Proof.
  intros Hob Hnt Hinfo.
  assert (code ∈ not_taken_obligatory (data_loader self) sid) as Hin.
  { unfold not_taken_obligatory. apply elem_of_difference. split; [done|].
    by rewrite elem_of_list_to_set. }
  assert (code ∉ failed_courses (data_loader self) sid) as Hnf.
  { unfold failed_courses. rewrite elem_of_intersection, elem_of_difference.
    rewrite elem_of_list_to_set. tauto. }
  assert (cumple_prereqs self sid code = true) as Hpre
    by (unfold cumple_prereqs; by rewrite Hinfo).
  split; [|split; [done|]].
  - unfold prioritized_candidates. rewrite !elem_of_app, !elem_of_elements. tauto.
  - unfold score_candidate. rewrite Hpre. simpl.
    rewrite decide_False, decide_True by done. eauto.
Qed.

(** C10. For some catalog and history the orchestrator returns a course
    that the catalog does not list: an obligatory course the student never
    took is a candidate of priority 2, passes the prerequisite check because
    no catalog entry is found, and comes back with an empty name and no
    track. *)
Theorem recomendar_cursos_outside_catalog :
  ∃ self sid top_k recs r,
    recomendar_cursos self sid top_k = Ok recs
    ∧ r ∈ recs
    ∧ (rec_course_code r ∈ OBLIGATORY_COURSES)
    ∧ (rec_course_code r ∉ get_all_courses (data_loader self))
    ∧ (rec_course_code r ∉ all_courses (get_student_history (data_loader self) sid 10))
    ∧ get_course_info (data_loader self) (rec_course_code r) = None
    ∧ cumple_prereqs self sid (rec_course_code r) = true
    ∧ rec_priority r = 2%Z
    ∧ rec_course_name r = ""
    ∧ rec_lineas_carrera r = [].
Proof.
  exists sample_recommender, "s1", 3%Z, sample_recs.
  eexists. split; [vm_compute; reflexivity|].
  split; [apply list_elem_of_lookup; exists 2%nat; reflexivity|].
  cbn [rec_course_code rec_priority rec_course_name rec_lineas_carrera].
  split; [apply (bool_decide_unpack _); vm_compute; exact I|].
  split; [apply (bool_decide_unpack _); vm_compute; exact I|].
  split; [apply (bool_decide_unpack _); vm_compute; exact I|].
  repeat split; vm_compute; reflexivity.
Qed.

(** ** kg_builder.py: building the graph *)

Lemma course_node_inj p q : KG.course_node p = KG.course_node q → p = q.
Proof. intros H. cbv in H. by injection H. Qed.

Lemma course_node_not_linea p l : KG.course_node p ≠ KG.linea_node l.
Proof. intros H. cbv in H. discriminate H. Qed.

Lemma course_node_not_student p s : KG.course_node p ≠ KG.student_node s.
Proof. intros H. cbv in H. discriminate H. Qed.

Lemma has_node_true g n : KG.has_node g n = true ↔ is_Some (KG.g_nodes g !! n).
Proof. unfold KG.has_node. apply bool_decide_eq_true. Qed.

Lemma touch_node_present n m : is_Some (m !! n) → KG.touch_node n m = m.
Proof. intros [x Hx]. unfold KG.touch_node. by rewrite Hx. Qed.

Lemma touch_node_lookup n m k :
  is_Some (KG.touch_node n m !! k) ↔ is_Some (m !! k) ∨ k = n.
Proof.
  unfold KG.touch_node. destruct (m !! n) as [x|] eqn:Hn.
  - split; [by left|]. intros [H| ->]; [done|]. by rewrite Hn.
  - destruct (decide (k = n)) as [->|Hne].
    + rewrite lookup_insert_eq. split; [by right|by eauto].
    + rewrite lookup_insert_ne by done. split; [by left|]. by intros [H|H].
Qed.

(** The HAS_PREREQ pass for one course. *)
Lemma add_prereqs_of_spec course g :
  is_Some (KG.g_nodes g !! KG.course_node (course_code course)) →
  KG.g_nodes (KG.add_prereqs_of course g) = KG.g_nodes g
  ∧ ∀ e, e ∈ KG.g_edges (KG.add_prereqs_of course g) ↔
         e ∈ KG.g_edges g
         ∨ ∃ p, p ∈ prereq_codes course
                ∧ is_Some (KG.g_nodes g !! KG.course_node p)
                ∧ e = {| KG.e_src := KG.course_node (course_code course);
                         KG.e_dst := KG.course_node p;
                         KG.e_type := KG.HAS_PREREQ |}.
Proof.
  unfold KG.add_prereqs_of. generalize (prereq_codes course) as ps.
  intros ps. revert g. induction ps as [|p ps IH]; intros g Hc; simpl.
  - split; [done|]. intros e. split; [by left|].
    intros [H|(p & Hp & _)]; [done|]. by apply not_elem_of_nil in Hp.
  - destruct (KG.has_node g (KG.course_node p)) eqn:Hp.
    + apply has_node_true in Hp.
      set (g1 := KG.add_edge g _ _ _).
      assert (KG.g_nodes g1 = KG.g_nodes g) as Hn.
      { unfold g1, KG.add_edge. simpl.
        rewrite (touch_node_present _ _ Hc). by apply touch_node_present. }
      destruct (IH g1) as [IHn IHe]; [by rewrite Hn|].
      split; [by rewrite IHn|].
      intros e. rewrite IHe. setoid_rewrite Hn.
      unfold g1, KG.add_edge. simpl.
      rewrite elem_of_app, list_elem_of_singleton.
      split.
      * intros [[H|H]|(q & Hq & Hs & He)]; [by left| |].
        -- right. exists p. split; [by left|done].
        -- right. exists q. split; [by right|done].
      * intros [H|(q & [->|Hq]%elem_of_cons & Hs & He)].
        -- by left; left.
        -- by left; right.
        -- right. by exists q.
    + destruct (IH g Hc) as [IHn IHe]. split; [done|].
      intros e. rewrite IHe. split.
      * intros [H|(q & Hq & Hs & He)]; [by left|].
        right. exists q. split; [by right|done].
      * intros [H|(q & [->|Hq]%elem_of_cons & Hs & He)]; [by left| |].
        -- apply has_node_true in Hs. congruence.
        -- right. by exists q.
Qed.

Lemma add_has_prereq_spec (cs : list course_row) g :
  (∀ course, course ∈ cs →
     is_Some (KG.g_nodes g !! KG.course_node (course_code course))) →
  let g' := foldl (λ g course, KG.add_prereqs_of course g) g cs in
  KG.g_nodes g' = KG.g_nodes g
  ∧ ∀ e, e ∈ KG.g_edges g' ↔
         e ∈ KG.g_edges g
         ∨ ∃ course p, course ∈ cs ∧ p ∈ prereq_codes course
                ∧ is_Some (KG.g_nodes g !! KG.course_node p)
                ∧ e = {| KG.e_src := KG.course_node (course_code course);
                         KG.e_dst := KG.course_node p;
                         KG.e_type := KG.HAS_PREREQ |}.
Proof.
  revert g. induction cs as [|c cs IH]; intros g Hcs; simpl.
  - split; [done|]. intros e. split; [by left|].
    intros [H|(c & p & Hc & _)]; [done|]. by apply not_elem_of_nil in Hc.
  - destruct (add_prereqs_of_spec c g) as [Hn He]; [apply Hcs; by left|].
    destruct (IH (KG.add_prereqs_of c g)) as [IHn IHe].
    { intros c' Hc'. rewrite Hn. apply Hcs. by right. }
    split; [by rewrite IHn|].
    intros e. rewrite IHe, He. setoid_rewrite Hn. split.
    + intros [[H|(p & Hp & Hs & Heq)]|(c' & p & Hc' & Hp & Hs & Heq)].
      * by left.
      * right. exists c, p. split; [by left|done].
      * right. exists c', p. split; [by right|done].
    + intros [H|(c' & p & [->|Hc']%elem_of_cons & Hp & Hs & Heq)].
      * by left; left.
      * left; right. by exists p.
      * right. by exists c', p.
Qed.

Lemma foldl_invariant {A B} (P : A → Prop) (f : A → B → A) (l : list B) (a : A) :
  P a → (∀ a x, x ∈ l → P a → P (f a x)) → P (foldl f a l).
Proof.
  revert a. induction l as [|x l IH]; intros a Ha Hf; simpl; [done|].
  apply IH.
  - apply Hf; [by left|done].
  - intros a' y Hy. apply Hf. by right.
Qed.

Lemma add_node_lookup g n ty k :
  is_Some (KG.g_nodes (KG.add_node g n ty) !! k) ↔ is_Some (KG.g_nodes g !! k) ∨ k = n.
Proof.
  unfold KG.add_node. simpl. destruct (decide (k = n)) as [->|Hne].
  - rewrite lookup_insert_eq. split; [by right|by eauto].
  - rewrite lookup_insert_ne by done. split; [by left|]. by intros [H|H].
Qed.

Lemma add_edge_lookup g u v ty k :
  is_Some (KG.g_nodes (KG.add_edge g u v ty) !! k) ↔
  is_Some (KG.g_nodes g !! k) ∨ k = u ∨ k = v.
Proof. unfold KG.add_edge. simpl. rewrite !touch_node_lookup. tauto. Qed.

Lemma add_edge_edges g u v ty e :
  e ∈ KG.g_edges (KG.add_edge g u v ty) ↔
  e ∈ KG.g_edges g ∨ e = {| KG.e_src := u; KG.e_dst := v; KG.e_type := ty |}.
Proof. unfold KG.add_edge. simpl. by rewrite elem_of_app, list_elem_of_singleton. Qed.

Lemma graph_before_prereqs_nodes dl :
  nodes_from dl (KG.graph_before_prereqs dl)
  ∧ ∀ course, course ∈ courses dl →
      is_Some (KG.g_nodes (KG.graph_before_prereqs dl)
                 !! KG.course_node (course_code course)).
Proof.
  unfold KG.graph_before_prereqs.
  set (P := λ g, nodes_from dl g
                 ∧ ∀ course, course ∈ courses dl →
                     is_Some (KG.g_nodes g !! KG.course_node (course_code course))).
  assert (P (KG.add_course_nodes dl KG.empty_graph)) as H1.
  { unfold KG.add_course_nodes.
    assert (∀ (cs : list course_row) g,
      (∀ k, is_Some (KG.g_nodes
               (foldl (λ g course, KG.add_node g (KG.course_node (course_code course))
                                      KG.course_t) g cs) !! k) ↔
            is_Some (KG.g_nodes g !! k)
            ∨ ∃ course, course ∈ cs ∧ k = KG.course_node (course_code course))) as Hgen.
    { induction cs as [|c cs IH]; intros g k; simpl.
      - split; [by left|]. intros [H|(c & Hc & _)]; [done|].
        by apply not_elem_of_nil in Hc.
      - rewrite IH, add_node_lookup. split.
        + intros [[H| ->]|(c' & Hc' & ->)]; [by left| |].
          * right. exists c. split; [by left|done].
          * right. exists c'. split; [by right|done].
        + intros [H|(c' & [->|Hc']%elem_of_cons & ->)].
          * by left; left.
          * by left; right.
          * right. by exists c'. }
    split.
    - intros k [H|H]%Hgen.
      + simpl in H. rewrite lookup_empty in H. by destruct H.
      + by left.
    - intros c Hc. apply Hgen. right. by exists c. }
  assert (∀ g, P g → P (KG.add_linea_nodes dl g)) as H2.
  { intros g Hg. unfold KG.add_linea_nodes. apply foldl_invariant; [done|].
    intros g' l _ [Hn Hc]. split.
    - intros k [H| ->]%add_node_lookup; [by apply Hn|]. right; left. by exists l.
    - intros c Hin. apply add_node_lookup. left. by apply Hc. }
  assert (∀ g, P g → P (KG.add_student_nodes dl g)) as H3.
  { intros g Hg. unfold KG.add_student_nodes. apply foldl_invariant; [done|].
    intros g' s _ [Hn Hc]. split.
    - intros k [H| ->]%add_node_lookup; [by apply Hn|]. right; right. by exists s.
    - intros c Hin. apply add_node_lookup. left. by apply Hc. }
  assert (∀ g, P g → P (KG.add_belongs_to dl g)) as H4.
  { intros g Hg. unfold KG.add_belongs_to. apply foldl_invariant; [done|].
    intros g' c Hcin Hg'. apply foldl_invariant; [done|].
    intros g'' l _ [Hn Hc]. split.
    - intros k [H|[->| ->]]%add_edge_lookup; [by apply Hn| |].
      + left. by exists c.
      + right; left. by exists l.
    - intros c' Hin. apply add_edge_lookup. left. by apply Hc. }
  by apply H4, H3, H2.
Qed.

Lemma graph_before_prereqs_has_course dl p :
  KG.has_node (KG.graph_before_prereqs dl) (KG.course_node p) = true ↔
  p ∈ get_all_courses dl.
Proof.
  rewrite has_node_true. destruct (graph_before_prereqs_nodes dl) as [Hn Hc].
  unfold get_all_courses. rewrite list_elem_of_fmap. split.
  - intros [(c & Hc' & Heq)|[(l & Heq)|(s & Heq)]]%Hn.
    + exists c. split; [by apply course_node_inj|done].
    + by apply course_node_not_linea in Heq.
    + by apply course_node_not_student in Heq.
  - intros (c & -> & Hin). by apply Hc.
Qed.

Lemma graph_before_prereqs_edges dl e :
  e ∈ KG.g_edges (KG.graph_before_prereqs dl) → KG.e_type e = KG.BELONGS_TO.
Proof.
  unfold KG.graph_before_prereqs. revert e.
  set (P := λ g, ∀ e, e ∈ KG.g_edges g → KG.e_type e = KG.BELONGS_TO).
  change (P (KG.add_belongs_to dl
               (KG.add_student_nodes dl
                  (KG.add_linea_nodes dl (KG.add_course_nodes dl KG.empty_graph))))).
  assert (∀ (f : KG.MultiDiGraph → string → KG.MultiDiGraph) (l : list string) g,
            (∀ g x, KG.g_edges (f g x) = KG.g_edges g) →
            KG.g_edges (foldl f g l) = KG.g_edges g) as Hsame.
  { intros f l. induction l as [|x l IH]; intros g Hf; simpl; [done|].
    by rewrite IH, Hf. }
  assert (P (KG.add_course_nodes dl KG.empty_graph)) as H1.
  { unfold KG.add_course_nodes. apply foldl_invariant.
    - by intros e ?%not_elem_of_nil.
    - intros g c _ Hg. exact Hg. }
  assert (∀ g, P g → P (KG.add_linea_nodes dl g)) as H2.
  { intros g Hg. unfold KG.add_linea_nodes. apply foldl_invariant; [done|].
    intros g' l _ Hg'. exact Hg'. }
  assert (∀ g, P g → P (KG.add_student_nodes dl g)) as H3.
  { intros g Hg. unfold KG.add_student_nodes. apply foldl_invariant; [done|].
    intros g' l _ Hg'. exact Hg'. }
  assert (∀ g, P g → P (KG.add_belongs_to dl g)) as H4.
  { intros g Hg. unfold KG.add_belongs_to. apply foldl_invariant; [done|].
    intros g' c _ Hg'. apply foldl_invariant; [done|].
    intros g'' l _ Hg'' e [H| ->]%add_edge_edges; [by apply Hg''|done]. }
  by apply H4, H3, H2.
Qed.

Lemma add_took_edges dl t g e :
  e ∈ KG.g_edges (KG.add_took dl t g) →
  e ∈ KG.g_edges g ∨ ∃ x b, KG.e_type e = KG.TOOK x b.
Proof.
  unfold KG.add_took. revert e.
  apply (foldl_invariant
           (λ g', ∀ e, e ∈ KG.g_edges g' →
                       e ∈ KG.g_edges g ∨ ∃ x b, KG.e_type e = KG.TOOK x b)).
  - intros e He. by left.
  - intros g' r _ Hg' e [H| ->]%add_edge_edges; [by apply Hg'|].
    right. simpl. eauto.
Qed.

Lemma add_took_edges_mono dl t g e :
  e ∈ KG.g_edges g → e ∈ KG.g_edges (KG.add_took dl t g).
Proof.
  unfold KG.add_took.
  apply (foldl_invariant (λ g', e ∈ KG.g_edges g → e ∈ KG.g_edges g')).
  - done.
  - intros g' r _ Hg' He. apply add_edge_edges. left. by apply Hg'.
Qed.

Lemma all_prereqs_spec (ls : list (list string)) (acc : gset string) p :
  p ∈ foldl (λ acc prereqs, acc ∪ list_to_set prereqs) acc ls ↔
  p ∈ acc ∨ ∃ l, l ∈ ls ∧ p ∈ l.
Proof.
  revert acc. induction ls as [|l ls IH]; intros acc; simpl.
  - split; [by left|]. intros [H|(l & Hl & _)]; [done|]. by apply not_elem_of_nil in Hl.
  - rewrite IH, elem_of_union, elem_of_list_to_set. split.
    + intros [[H|H]|(l' & Hl' & Hp)]; [by left| |].
      * right. exists l. split; [by left|done].
      * right. exists l'. split; [by right|done].
    + intros [H|(l' & [->|Hl']%elem_of_cons & Hp)].
      * by left; left.
      * by left; right.
      * right. by exists l'.
Qed.

Lemma validate_reports_dangling dl course p :
  course ∈ courses dl → p ∈ prereq_codes course → p ∉ get_all_courses dl →
  ∃ s, InvalidPrereqs s ∈ issues (validate_data_consistency dl) ∧ p ∈ s.
Proof.
  intros Hc Hp Hnot. unfold validate_data_consistency. simpl.
  set (catalog := list_to_set (course_code <$> courses dl) : gset string).
  set (allp := foldl _ ∅ (prereq_codes <$> courses dl)).
  assert (p ∈ allp ∖ catalog) as Hin.
  { apply elem_of_difference. split.
    - apply all_prereqs_spec. right. exists (prereq_codes course).
      split; [by apply list_elem_of_fmap_2|done].
    - unfold catalog. by rewrite elem_of_list_to_set. }
  exists (allp ∖ catalog). split; [|done].
  rewrite decide_False.
  - apply elem_of_app. right. by apply list_elem_of_singleton.
  - intros Hempty. rewrite Hempty in Hin. by apply not_elem_of_empty in Hin.
Qed.

(** C8. Building the graph adds the HAS_PREREQ edge from a course to a
    declared prerequisite exactly when the prerequisite is a Course node
    when the pass runs, that is, when the catalog lists it.  A prerequisite
    the catalog does not list gets no edge, the build returns its graph all
    the same, and the validation report lists the code among the invalid
    prerequisites. *)
Theorem build_graph_has_prereq dl t :
  let g := KG.build_graph dl t in
  let prereq_edge c p :=
    {| KG.e_src := KG.course_node c; KG.e_dst := KG.course_node p;
       KG.e_type := KG.HAS_PREREQ |} in
  (∀ c p,
     prereq_edge c p ∈ KG.g_edges g ↔
     (∃ course, course ∈ courses dl ∧ course_code course = c
                ∧ p ∈ prereq_codes course)
     ∧ KG.has_node (KG.graph_before_prereqs dl) (KG.course_node p) = true)
  ∧ (∀ p, KG.has_node (KG.graph_before_prereqs dl) (KG.course_node p) = true ↔
          p ∈ get_all_courses dl)
  ∧ (∀ course p,
       course ∈ courses dl → p ∈ prereq_codes course → p ∉ get_all_courses dl →
       (∀ e, e ∈ KG.g_edges g → KG.e_type e = KG.HAS_PREREQ →
             KG.e_dst e ≠ KG.course_node p)
       ∧ ∃ s, InvalidPrereqs s ∈ issues (validate_data_consistency dl) ∧ p ∈ s).
Proof.
  intros g prereq_edge.
  destruct (graph_before_prereqs_nodes dl) as [Hfrom Hcourses].
  destruct (add_has_prereq_spec (courses dl) (KG.graph_before_prereqs dl) Hcourses)
    as [Hn He].
  fold (KG.add_has_prereq dl (KG.graph_before_prereqs dl)) in Hn, He.
  assert (∀ e, KG.e_type e = KG.HAS_PREREQ →
     (e ∈ KG.g_edges g ↔
      ∃ course p, course ∈ courses dl ∧ p ∈ prereq_codes course
        ∧ is_Some (KG.g_nodes (KG.graph_before_prereqs dl) !! KG.course_node p)
        ∧ e = prereq_edge (course_code course) p)) as Hedges.
  { intros e Hty. unfold g, KG.build_graph. split.
    - intros [H|(x & b & H)]%add_took_edges; [|congruence].
      apply He in H as [H|H]; [|done].
      apply graph_before_prereqs_edges in H. congruence.
    - intros H. apply add_took_edges_mono, He. by right. }
  split; [|split].
  - intros c p. rewrite Hedges by done. rewrite has_node_true. split.
    + intros (course & q & Hc & Hq & Hs & Heq).
      pose proof (f_equal KG.e_src Heq) as H1.
      pose proof (f_equal KG.e_dst Heq) as H2.
      apply course_node_inj in H1, H2. subst c p.
      split; [by exists course|done].
    + intros [(course & Hc & <- & Hp) Hs]. by exists course, p.
  - apply graph_before_prereqs_has_course.
  - intros course p Hc Hp Hnot. split.
    + intros e Hin Hty Hdst.
      apply Hedges in Hin as (c' & q & _ & _ & Hs & ->); [|done].
      apply (course_node_inj q p) in Hdst as ->.
      by apply has_node_true, graph_before_prereqs_has_course in Hs.
    + by eapply validate_reports_dangling.
Qed.

Lemma build_graph_has_prereq_witness :
  ∃ course s,
    course ∈ courses sample_loader
    ∧ "ZZZ99" ∈ prereq_codes course
    ∧ ("ZZZ99" ∉ get_all_courses sample_loader)
    ∧ InvalidPrereqs s ∈ issues (validate_data_consistency sample_loader)
    ∧ "ZZZ99" ∈ s.
Proof.
  assert (Hc : {| course_code := "EL001"; course_name := "Electivo";
                  prereq_codes := ["BAE01"; "ZZZ99"];
                  lineas_carrera := ["T2"] |} ∈ courses sample_loader)
    by (apply list_elem_of_lookup; exists 3%nat; reflexivity).
  assert (Hp : "ZZZ99" ∈ ["BAE01"; "ZZZ99"])
    by (apply list_elem_of_lookup; exists 1%nat; reflexivity).
  assert (Hn : "ZZZ99" ∉ get_all_courses sample_loader)
    by (apply (bool_decide_unpack _); vm_compute; exact I).
  destruct (build_graph_has_prereq sample_loader 11) as (_ & _ & H).
  destruct (H _ "ZZZ99" Hc Hp Hn) as (_ & s & Hs & Hin).
  eexists _, s. split; [exact Hc|]. split; [exact Hp|]. split; [exact Hn|].
  split; [exact Hs|exact Hin].
Defined.

(** ** kg_builder.py: the embedding update *)

Lemma filter_ext_in {A} (P Q : A → Prop) `{∀ x, Decision (P x)} `{∀ x, Decision (Q x)}
    (l : list A) :
  (∀ x, x ∈ l → P x ↔ Q x) → filter P l = filter Q l.
Proof.
  induction l as [|x l IH]; intros HPQ; [done|].
  rewrite !filter_cons. rewrite IH by (intros y Hy; apply HPQ; by right).
  destruct (decide (P x)) as [HP|HP], (decide (Q x)) as [HQ|HQ]; try done.
  - apply HPQ in HP; [done|by left].
  - apply HPQ in HQ; [done|by left].
Qed.

Lemma filter_none {A} (P : A → Prop) `{∀ x, Decision (P x)} (l : list A) :
  (∀ x, x ∈ l → ¬ P x) → filter P l = [].
Proof.
  induction l as [|x l IH]; intros HP; [done|].
  rewrite filter_cons_False by (apply HP; by left).
  apply IH. intros y Hy. apply HP. by right.
Qed.

Lemma for_each_guard {A S} (g : A → bool) (f : S → A → result S) (s : S) (l : list A) :
  for_each (λ s x, if g x then f s x else Ok s) s l =
  for_each f s (filter (λ x, g x = true) l).
Proof.
  revert s. induction l as [|x l IH]; intros s; [done|].
  simpl. destruct (g x) eqn:Hg.
  - rewrite filter_cons_True by done. simpl.
    destruct (f s x) as [s'|e]; simpl; [apply IH|done].
  - rewrite filter_cons_False by congruence. simpl. apply IH.
Qed.

Lemma window_range (walk : list string) (i : Z) :
  let len := Z.of_nat (length walk) in
  let context_start := Z.max 0 (i - KG.window_size) in
  let context_end := Z.min len (i + KG.window_size + 1) in
  filter (λ j, bool_decide (i ≠ j ∧ (j < len)%Z) = true)
         (seqZ context_start (context_end - context_start))
  = window_positions walk i.
Proof.
  intros len lo hi. unfold window_positions. fold len.
  unfold KG.window_size in *.
  destruct (decide (hi ≤ lo)%Z) as [Hle|Hlt].
  - rewrite seqZ_nil by lia. rewrite filter_nil. symmetry.
    apply filter_none. intros j Hj%elem_of_seqZ. lia.
  - replace (seqZ 0 len) with (seqZ 0 (lo + ((hi - lo) + (len - hi))))
      by (f_equal; lia).
    rewrite (seqZ_app 0 lo), (seqZ_app (0 + lo)) by lia.
    rewrite !filter_app.
    rewrite (filter_none _ (seqZ 0 lo)) by (intros j Hj%elem_of_seqZ; lia).
    rewrite (filter_none _ (seqZ (0 + lo + (hi - lo)) _))
      by (intros j Hj%elem_of_seqZ; lia).
    rewrite app_nil_r. simpl.
    apply filter_ext_in. intros j Hj%elem_of_seqZ.
    rewrite bool_decide_eq_true. lia.
Qed.

Lemma update_pair_distinct lr (E : gmap string (list Q)) node ctx en ec :
  node ≠ ctx → E !! node = Some en → E !! ctx = Some ec → length en = length ec →
  let gradient := (py_sum (zip_with Qmult en ec) - 1) * lr in
  let en' := KG.vsub en (KG.vscale gradient ec) in
  KG.update_pair lr E node ctx =
    Ok (<[ctx := KG.vsub ec (KG.vscale gradient en')]> (<[node := en']> E)).
Proof.
  intros Hne Hn Hc Hlen. unfold KG.update_pair, getitem, np_dot.
  rewrite Hn, Hc. simpl. rewrite decide_True by done. simpl.
  rewrite (lookup_insert_ne E node ctx) by exact Hne. rewrite Hc. simpl.
  rewrite lookup_insert_eq. done.
Qed.

Lemma update_window_positions lr walk i node (E : gmap string (list Q)) :
  KG.update_window lr walk i node E =
  for_each (λ E j,
              context_node ← of_option IndexError (walk !! Z.to_nat j);
              KG.update_pair lr E node context_node)
           E (window_positions walk i).
Proof.
  unfold KG.update_window. rewrite <- window_range.
  apply (for_each_guard
           (λ j, bool_decide (i ≠ j ∧ (j < Z.of_nat (length walk))%Z))).
Qed.

Section update_rule.
Variable linalg_norm : list Q → Q.

Lemma normalize_present node (E : gmap string (list Q)) v :
  E !! node = Some v →
  KG.normalize linalg_norm node E =
    Ok (<[node := KG.vdiv v (linalg_norm v + 1e-10)]> E).
Proof. intros Hv. unfold KG.normalize, getitem. by rewrite Hv. Qed.

(** C7, as amended.  For a pair (node, context) of distinct nodes the update
    computes the gradient (dot - 1) * learning rate from the embeddings
    before the pair, subtracts gradient * emb[context] from emb[node], and
    then subtracts from emb[context] the gradient times the embedding of
    the node as just updated.  Position [i] of a walk is paired with the
    positions at distance at most 5, in increasing order, and the
    embedding of its node is then divided by its norm plus 1e-10. *)
Theorem update_embeddings_rule :
  (∀ lr (E : gmap string (list Q)) node ctx en ec,
     node ≠ ctx → E !! node = Some en → E !! ctx = Some ec →
     length en = length ec →
     let gradient := (py_sum (zip_with Qmult en ec) - 1) * lr in
     let en' := KG.vsub en (KG.vscale gradient ec) in
     KG.update_pair lr E node ctx =
       Ok (<[ctx := KG.vsub ec (KG.vscale gradient en')]> (<[node := en']> E)))
  ∧ (∀ lr walk i node (E : gmap string (list Q)),
       KG.update_window lr walk i node E =
       for_each (λ E j,
                   context_node ← of_option IndexError (walk !! Z.to_nat j);
                   KG.update_pair lr E node context_node)
                E (window_positions walk i))
  ∧ (∀ node (E : gmap string (list Q)) v,
       E !! node = Some v →
       KG.normalize linalg_norm node E =
         Ok (<[node := KG.vdiv v (linalg_norm v + 1e-10)]> E))
  ∧ (∀ (E : gmap string (list Q)) walk lr,
       KG._update_embeddings linalg_norm E walk lr =
       for_each (λ E '(i, node),
                   E' ← KG.update_window lr walk i node E;
                   KG.normalize linalg_norm node E')
                E (zip (seqZ 0 (Z.of_nat (length walk))) walk)).
Proof.
  split; [apply update_pair_distinct|].
  split; [apply update_window_positions|].
  split; [apply normalize_present|done].
Qed.
End update_rule.

Lemma update_embeddings_rule_witness :
  ∃ E', KG.update_pair 0.01 pair_store "a" "b" = Ok E'
        ∧ ∃ x y, E' !! "a" = Some [x] ∧ x == 1.85
                 ∧ E' !! "b" = Some [y] ∧ y == 2.9075.
Proof.
  destruct (update_embeddings_rule (λ _, 1)) as (Hpair & _).
  eexists. split.
  - apply (Hpair 0.01 pair_store "a" "b" [2] [3]); [done|reflexivity|reflexivity|reflexivity].
  - eexists _, _. split; [vm_compute; reflexivity|]. split; [by vm_compute|].
    split; [vm_compute; reflexivity|]. by vm_compute.
Defined.

(** C7, as stated, fails: the second assignment of a pair reads the
    embedding of the node after the first assignment, not the one before
    the pair. *)
Lemma update_pair_reads_updated_node :
  ∃ E' E'' x y,
    KG.update_pair 0.01 pair_store "a" "b" = Ok E'
    ∧ update_pair_as_stated 0.01 pair_store "a" "b" = Ok E''
    ∧ E' !! "b" = Some [x] ∧ E'' !! "b" = Some [y]
    ∧ x == 2.9075 ∧ y == 2.9 ∧ ¬ x == y.
Proof.
  eexists _, _, _, _.
  split; [vm_compute; reflexivity|].
  split; [vm_compute; reflexivity|].
  split; [vm_compute; reflexivity|].
  split; [vm_compute; reflexivity|].
  split; [by vm_compute|]. split; [by vm_compute|]. by vm_compute.
Qed.

(** ** cf_model.py: recommend *)

Lemma mask_Ok (taken : list nat) (sc sc' : list CF.ext) :
  CF.mask sc taken = Ok sc' →
  length sc' = length sc
  ∧ ∀ i, sc' !! i = if decide (i ∈ taken) then Some CF.NegInf else sc !! i.
Proof.
  unfold CF.mask. revert sc. induction taken as [|t taken IH]; intros sc H; simpl in H.
  - injection H as <-. split; [done|]. intros i.
    rewrite decide_False; [done|apply not_elem_of_nil].
  - case_decide as Ht; simpl in H; [|discriminate].
    apply IH in H as [Hlen Hlk]. rewrite length_insert in Hlen.
    split; [done|]. intros i. rewrite Hlk.
    destruct (decide (i ∈ taken)) as [Hi|Hi].
    + rewrite decide_True; [done|by right].
    + destruct (decide (i = t)) as [->|Hne].
      * rewrite decide_True by (by left). by apply list_lookup_insert_eq.
      * rewrite decide_False by (intros [?|?]%elem_of_cons; done).
        by apply list_lookup_insert_ne.
Qed.

Lemma ext_leb_posinf (y : CF.ext) : CF.ext_leb CF.PosInf y = true → y = CF.PosInf.
Proof. by destruct y. Qed.

Lemma ext_leb_total x y : CF.ext_leb x y = false → CF.ext_leb y x = true.
Proof.
  destruct x as [|a|], y as [|b|]; simpl; try done.
  intros H. apply Qle_bool_iff.
  destruct (Qlt_le_dec b a) as [Hlt|Hle]; [by apply Qlt_le_weak|].
  apply Qle_bool_iff in Hle. congruence.
Qed.

Lemma ext_leb_trans x y z :
  CF.ext_leb x y = true → CF.ext_leb y z = true → CF.ext_leb x z = true.
Proof.
  destruct x as [|a|], y as [|b|], z as [|c|]; simpl; try done.
  rewrite !Qle_bool_iff. apply Qle_trans.
Qed.

Lemma enumerate_lookup {A} (l : list A) i x :
  enumerate l !! i = Some x ↔ x.1 = i ∧ l !! i = Some x.2.
Proof.
  unfold enumerate. destruct x as [j a]. simpl.
  rewrite lookup_zip_with_Some. split.
  - intros (j' & a' & [= <- <-] & Hj & Ha).
    apply lookup_seq in Hj as [-> _]. done.
  - intros [-> Ha]. exists i, a. split; [done|]. split; [|done].
    apply lookup_seq. split; [done|]. by eapply lookup_lt_Some.
Qed.

Lemma enumerate_fst {A} (l : list A) : (enumerate l).*1 = seq 0 (length l).
Proof. unfold enumerate. apply fst_zip. by rewrite length_seq. Qed.

Lemma enumerate_elem {A} (l : list A) i a :
  (i, a) ∈ enumerate l ↔ l !! i = Some a.
Proof.
  rewrite list_elem_of_lookup. split.
  - intros (p & [Hp Ha]%enumerate_lookup). simpl in *. by subst.
  - intros Ha. exists i. by apply enumerate_lookup.
Qed.

(** In the ranking, the entries cut at [k] carry a finite key as long as [k]
    does not exceed the number of entries whose key is not [+inf]. *)
Lemma argsort_finite_first (keys : list CF.ext) (taken : list nat) (k : nat) i :
  (∀ j, keys !! j = Some CF.PosInf → j ∈ taken) →
  (k + length taken ≤ length keys)%nat →
  i ∈ take k (CF.argsort keys) →
  ∃ q, keys !! i = Some (CF.Fin q) ∨ keys !! i = Some CF.NegInf.
Proof.
  intros Htaken Hk Hi. unfold CF.argsort in Hi.
  set (L := py_sort (λ x y, CF.ext_leb x.2 y.2) (enumerate keys)) in *.
  assert (L ≡ₚ enumerate keys) as Hperm by apply py_sort_perm.
  assert (StronglySorted (λ a b, CF.ext_leb a.2 b.2 = true) L) as Hsorted.
  { apply py_sort_sorted.
    - intros x y. apply ext_leb_total.
    - intros x y z. apply ext_leb_trans. }
  rewrite <- fmap_take in Hi.
  apply list_elem_of_fmap in Hi as ([i' key] & -> & Hin). simpl.
  apply elem_of_take in Hin as (p & Hp & Hpk).
  assert (keys !! i' = Some key) as Hkey.
  { apply enumerate_elem. rewrite <- Hperm. by eapply list_elem_of_lookup_2. }
  destruct key as [|q|]; [exists 0; by right|exists q; by left|].
  exfalso.
  (* every entry from position [p] on has key [+inf] *)
  assert (∀ x, x ∈ drop p L → x.1 ∈ taken) as Htail.
  { intros [j kj] Hx. apply list_elem_of_lookup in Hx as [d Hd].
    rewrite lookup_drop in Hd. simpl.
    assert (kj = CF.PosInf) as ->.
    { destruct d as [|d].
      - rewrite Nat.add_0_r in Hd. congruence.
      - apply ext_leb_posinf.
        apply (StronglySorted_lookup_lt _ L p (p + S d) (i', CF.PosInf) (j, kj) Hsorted);
          [lia|done|done]. }
    apply Htaken, enumerate_elem. rewrite <- Hperm.
    by eapply list_elem_of_lookup_2. }
  assert (NoDup (drop p L).*1) as Hnodup.
  { rewrite fmap_drop. eapply sublist_NoDup; [|apply sublist_drop].
    rewrite Hperm, enumerate_fst. apply NoDup_seq. }
  assert (length (drop p L).*1 ≤ length taken)%nat as Hlen.
  { apply submseteq_length, NoDup_submseteq; [done|].
    intros j ([j' kj] & -> & Hx)%list_elem_of_fmap. by apply (Htail (j', kj)). }
  rewrite length_fmap, length_drop in Hlen.
  assert (length L = length keys) as HL.
  { rewrite Hperm. unfold enumerate.
    rewrite length_zip_with, length_seq. lia. }
  lia.
Qed.

(** X17. When [top_k] does not exceed the number of courses the student has
    not interacted with, [recommend] returns none of the interacted courses: every
    returned course is the course of an index outside the interactions. *)
Lemma cf_recommend_unseen_when_enough cf sid top_k recs student_idx row :
  student_to_idx (CF.preprocessor cf) !! sid = Some student_idx →
  CF.interaction_matrix cf !! student_idx = Some row →
  (0 ≤ top_k)%Z →
  (top_k + Z.of_nat (length (CF.nonzero row))
     ≤ Z.of_nat (length (CF.item_factors cf)))%Z →
  CF.recommend cf sid top_k = Ok recs →
  ∀ course score, (course, score) ∈ recs →
    ∃ idx, idx_to_course (CF.preprocessor cf) !! idx = Some course
           ∧ idx ∉ CF.nonzero row.
Proof.
  intros Hsid Hrow Hk0 Hk Hrec course score Hin.
  unfold CF.recommend in Hrec. rewrite Hsid in Hrec.
  destruct (CF.user_factors cf !! student_idx) as [user_emb|]; simpl in Hrec;
    [|discriminate].
  destruct (mapM _ (CF.item_factors cf)) as [scores|] eqn:Hscores; simpl in Hrec;
    [|discriminate].
  rewrite Hrow in Hrec. simpl in Hrec.
  destruct (CF.mask _ _) as [scores_copy|] eqn:Hmask; simpl in Hrec; [|discriminate].
  apply mapM_Ok_Forall2 in Hrec.
  apply list_elem_of_lookup in Hin as [p Hp].
  destruct (Forall2_lookup_r _ _ _ _ _ Hrec Hp) as (idx & Hidx & Hrun).
  destruct (getitem _ idx) as [c|] eqn:Hc; simpl in Hrun; [|discriminate].
  destruct (scores !! idx) as [s|]; simpl in Hrun; [|discriminate].
  injection Hrun as <- <-.
  exists idx. split.
  { unfold getitem, of_option in Hc.
    destruct (idx_to_course _ !! idx) as [c'|]; [by injection Hc as ->|discriminate]. }
  apply mask_Ok in Hmask as [Hlen Hlk].
  apply mapM_Ok_Forall2, Forall2_length in Hscores.
  rewrite length_fmap in Hlen.
  unfold py_slice_to in Hidx.
  destruct (Z.leb_spec 0 top_k) as [_|?]; [|lia].
  apply list_elem_of_lookup_2 in Hidx.
  destruct (argsort_finite_first (CF.ext_neg <$> scores_copy) (CF.nonzero row)
              (Z.to_nat top_k) idx) as (q & Hq); [| |done|].
  - intros j Hj. rewrite list_lookup_fmap, Hlk in Hj.
    destruct (decide (j ∈ CF.nonzero row)); [done|].
    rewrite list_lookup_fmap in Hj. by destruct (scores !! j).
  - rewrite length_fmap. lia.
  - intros Hnz. rewrite list_lookup_fmap, Hlk, decide_True in Hq by done.
    simpl in Hq. by destruct Hq.
Qed.

(** C5. With two courses, student [u] interacted with C0 and asks for two
    recommendations: the masked score of C0 is ranked last, the cut at
    [top_k] keeps it, and C0 is returned with its raw score.  With
    [top_k = 1], within the bound of [cf_recommend_unseen_when_enough], only
    C1 is returned. *)
Theorem cf_recommend_returns_taken_item :
  student_to_idx (CF.preprocessor masked_cf) !! "u" = Some 0%nat
  ∧ idx_to_course (CF.preprocessor masked_cf) !! 0%nat = Some "C0"
  ∧ CF.nonzero [1; 0] = [0%nat]
  ∧ CF.mask [CF.Fin 1; CF.Fin 2] [0%nat] = Ok [CF.NegInf; CF.Fin 2]
  ∧ CF.recommend masked_cf "u" 2 = Ok [("C1", 2); ("C0", 1)]
  ∧ CF.recommend masked_cf "u" 1 = Ok [("C1", 2)].
Proof. repeat split; vm_compute; reflexivity. Qed.

(** ** data_loader.py: invariants of the history and of the report *)

Lemma unique_first_spec {A} `{EqDecision A} (l : list A) :
  NoDup (unique_first l) ∧ ∀ x, x ∈ unique_first l ↔ x ∈ l.
Proof.
  unfold unique_first.
  assert (∀ acc, NoDup acc →
            NoDup (foldl (λ acc x, if decide (x ∈ acc) then acc else acc ++ [x]) acc l)
            ∧ ∀ x, x ∈ foldl (λ acc x, if decide (x ∈ acc) then acc else acc ++ [x]) acc l
                   ↔ x ∈ acc ∨ x ∈ l) as Hgen.
  { induction l as [|y l IH]; intros acc Hacc; simpl.
    - split; [done|]. intros x. split; [by left|]. intros [H|H]; [done|].
      by apply not_elem_of_nil in H.
    - case_decide as Hy.
      + destruct (IH acc Hacc) as [Hn Hm]. split; [done|].
        intros x. rewrite Hm, elem_of_cons. split; [tauto|].
        intros [H|[->|H]]; tauto.
      + destruct (IH (acc ++ [y])) as [Hn Hm].
        { apply NoDup_app. split; [done|]. split; [|apply NoDup_singleton].
          intros x Hx ->%list_elem_of_singleton. done. }
        split; [done|]. intros x.
        rewrite Hm, elem_of_app, list_elem_of_singleton, elem_of_cons. tauto. }
  destruct (Hgen [] (NoDup_nil_2)) as [Hn Hm]. split; [done|].
  intros x. rewrite Hm. split; [|tauto]. intros [H|H]; [|done].
  by apply not_elem_of_nil in H.
Qed.

Lemma NoDup_fst_filter {A B} (P : A * B → Prop) `{∀ x, Decision (P x)}
    (l : list (A * B)) :
  NoDup l.*1 → NoDup (filter P l).*1.
Proof.
  induction l as [|x l IH]; [done|].
  rewrite fmap_cons. intros [Hx Hl]%NoDup_cons. rewrite filter_cons.
  destruct (decide (P x)); [|by apply IH].
  rewrite fmap_cons. apply NoDup_cons. split; [|by apply IH].
  intros ([a b] & Heq & [_ Hin]%list_elem_of_filter)%list_elem_of_fmap.
  apply Hx. apply list_elem_of_fmap. by exists (a, b).
Qed.

Lemma grades_lookup_attempts dl sid t code :
  is_Some (grades (get_student_history dl sid t) !! code) ↔ attempts dl sid code ≠ [].
Proof.
  pose proof (grades_spec dl sid t code) as H.
  destruct (grades _ !! code) as [g|].
  - destruct H as [Hin _]. split; [|by eauto].
    intros _ Hnil. rewrite Hnil in Hin. by apply not_elem_of_nil in Hin.
  - split; [by intros [? ?]|]. done.
Qed.

(** X1. The passed courses of a history are listed once each and are among
    the courses taken; the grade map has an entry exactly for the courses
    taken. *)
Theorem history_passed_subset dl sid t :
  let h := get_student_history dl sid t in
  NoDup (passed_courses h)
  ∧ (∀ code, code ∈ passed_courses h → code ∈ all_courses h)
  ∧ (∀ code, code ∈ all_courses h ↔ is_Some (grades h !! code)).
Proof.
  intros h.
  assert (∀ code, code ∈ all_courses h ↔ is_Some (grades h !! code)) as Hdom.
  { intros code. unfold h. rewrite grades_lookup_attempts, all_courses_spec.
    unfold attempts. rewrite list_elem_of_fmap. split.
    - intros (r & -> & Hr) Hnil.
      assert (r ∈ filter (λ r0, taken_code r0 = taken_code r)
                    (filter (λ r0, alumno r0 = sid) (courses_taken dl))) as Hin
        by (by apply list_elem_of_filter).
      apply (list_elem_of_fmap_2 grade) in Hin. rewrite Hnil in Hin.
      by apply not_elem_of_nil in Hin.
    - intros Hne. destruct (filter (λ r, taken_code r = code) _) as [|r l] eqn:Hf;
        [done|].
      assert (r ∈ r :: l) as Hin by (by left). rewrite <- Hf in Hin.
      apply list_elem_of_filter in Hin as [<- Hin]. by exists r. }
  split; [|split; [|done]].
  - unfold h, get_student_history. case_decide; simpl; [apply NoDup_nil_2|].
    rewrite py_sort_perm. apply NoDup_fst_filter, NoDup_fst_map_to_list.
  - intros code Hp. apply Hdom. unfold h in *.
    apply passed_courses_spec in Hp as (g & Hg & _). by eauto.
Qed.

Lemma passed_iff_attempt dl sid t code :
  code ∈ passed_courses (get_student_history dl sid t) ↔
  ∃ x, x ∈ attempts dl sid code ∧ t <= x.
Proof.
  rewrite passed_courses_spec.
  pose proof (grades_spec dl sid t code) as H.
  destruct (grades _ !! code) as [g|].
  - destruct H as [Hin Hub]. split.
    + intros (g' & [= <-] & Hle). by exists g.
    + intros (x & Hx & Hle). exists g. split; [done|].
      eapply Qle_trans; [done|]. by apply Hub.
  - split; [by intros (g & Hg & _)|].
    intros (x & Hx & _). rewrite H in Hx. by apply not_elem_of_nil in Hx.
Qed.

(** X2. Raising the pass threshold can only shrink the passed set: a course
    passed at the higher threshold is passed at the lower one. *)
Theorem passed_courses_antitone dl sid t1 t2 code :
  t1 <= t2 →
  code ∈ passed_courses (get_student_history dl sid t2) →
  code ∈ passed_courses (get_student_history dl sid t1).
Proof.
  intros Ht. rewrite !passed_iff_attempt. intros (x & Hx & Hle).
  exists x. split; [done|]. by eapply Qle_trans.
Qed.

(** X3. [get_students_who_took_course] lists, once each, exactly the students
    whose history counts the course as passed at the same threshold. *)
Theorem get_students_who_took_course_spec dl code t :
  NoDup (get_students_who_took_course dl code t)
  ∧ ∀ sid, sid ∈ get_students_who_took_course dl code t ↔
           code ∈ passed_courses (get_student_history dl sid t).
Proof.
  unfold get_students_who_took_course.
  destruct (unique_first_spec
              (alumno <$>
                 filter (λ r, taken_code r = code ∧ Qle_bool t (grade r) = true)
                        (courses_taken dl))) as [Hnd Hmem].
  split; [done|]. intros sid. rewrite Hmem, passed_iff_attempt, list_elem_of_fmap.
  unfold attempts. split.
  - intros (r & -> & [[Hc Hg] Hin]%list_elem_of_filter).
    exists (grade r). split; [|by apply Qle_bool_iff].
    apply list_elem_of_fmap_2, list_elem_of_filter. split; [done|].
    by apply list_elem_of_filter.
  - intros (x & (r & -> & [Hc [Hs Hin]%list_elem_of_filter]%list_elem_of_filter)
              %list_elem_of_fmap & Hle).
    exists r. split; [done|]. apply list_elem_of_filter. split; [|done].
    split; [done|]. by apply Qle_bool_iff.
Qed.

(** X4. The validation report is [valid] exactly when every course of the
    history table and every declared prerequisite is in the catalog. *)
Theorem validate_data_consistency_valid dl :
  valid (validate_data_consistency dl) = true ↔
  (∀ r, r ∈ courses_taken dl → taken_code r ∈ get_all_courses dl)
  ∧ (∀ course p, course ∈ courses dl → p ∈ prereq_codes course →
                 p ∈ get_all_courses dl).
Proof.
  unfold validate_data_consistency. simpl.
  set (catalog := list_to_set (course_code <$> courses dl) : gset string).
  set (taken := list_to_set (taken_code <$> courses_taken dl) : gset string).
  set (allp := foldl _ ∅ (prereq_codes <$> courses dl)).
  assert (taken ∖ catalog = ∅ ↔
          ∀ r, r ∈ courses_taken dl → taken_code r ∈ get_all_courses dl) as H1.
  { split.
    - intros He r Hr. destruct (decide (taken_code r ∈ get_all_courses dl)); [done|].
      exfalso. apply (not_elem_of_empty (C:=gset string) (taken_code r)).
      rewrite <- He. apply elem_of_difference. split.
      + apply elem_of_list_to_set. by apply list_elem_of_fmap_2.
      + unfold catalog. by rewrite elem_of_list_to_set.
    - intros H. apply set_eq. intros x. rewrite elem_of_difference.
      split; [|by intros ?%not_elem_of_empty].
      intros [(r & -> & Hr)%elem_of_list_to_set%list_elem_of_fmap Hn].
      exfalso. apply Hn. unfold catalog. rewrite elem_of_list_to_set. by apply H. }
  assert (allp ∖ catalog = ∅ ↔
          ∀ course p, course ∈ courses dl → p ∈ prereq_codes course →
                      p ∈ get_all_courses dl) as H2.
  { split.
    - intros He c p Hc Hp. destruct (decide (p ∈ get_all_courses dl)); [done|].
      exfalso. apply (not_elem_of_empty (C:=gset string) p).
      rewrite <- He. apply elem_of_difference. split.
      + apply all_prereqs_spec. right. exists (prereq_codes c).
        split; [by apply list_elem_of_fmap_2|done].
      + unfold catalog. by rewrite elem_of_list_to_set.
    - intros H. apply set_eq. intros x. rewrite elem_of_difference.
      split; [|by intros ?%not_elem_of_empty].
      intros [[Hx|(l & (c & -> & Hc)%list_elem_of_fmap & Hp)]%all_prereqs_spec Hn].
      + by apply not_elem_of_empty in Hx.
      + exfalso. apply Hn. unfold catalog. rewrite elem_of_list_to_set. by eapply H. }
  rewrite bool_decide_eq_true, <- H1, <- H2.
  destruct (decide (taken ∖ catalog = ∅)) as [E1|E1],
           (decide (allp ∖ catalog = ∅)) as [E2|E2]; simpl;
    try rewrite length_app; simpl; split; try tauto; try lia; intros [? ?]; done.
Qed.

Lemma passed_courses_antitone_witness :
  10 <= 11
  ∧ "BFI01" ∈ passed_courses (get_student_history sample_loader "s1" 11)
  ∧ "BFI01" ∈ passed_courses (get_student_history sample_loader "s1" 10).
Proof.
  assert (H1 : 10 <= 11) by (by vm_compute).
  assert (H2 : "BFI01" ∈ passed_courses (get_student_history sample_loader "s1" 11))
    by (vm_compute; apply list_elem_of_singleton; reflexivity).
  split; [exact H1|]. split; [exact H2|].
  exact (passed_courses_antitone sample_loader "s1" 10 11 "BFI01" H1 H2).
Defined.

(** ** preprocess.py: the index tables *)

Lemma insert_sorted_Sorted {A} (leb : A → A → bool) x l :
  (∀ a b, leb a b = false → leb b a = true) →
  Sorted (λ a b, leb a b = true) l →
  Sorted (λ a b, leb a b = true) (insert_sorted leb x l).
Proof.
  intros Htot. induction 1 as [|y l Hl IH Hy]; simpl.
  - repeat constructor.
  - destruct (leb x y) eqn:Hxy.
    + constructor; [by constructor|by constructor].
    + constructor; [done|].
      destruct l as [|z l]; simpl in *.
      * constructor. by apply Htot.
      * destruct (leb x z); constructor; [by apply Htot|].
        by inversion Hy.
Qed.

Lemma py_sort_Sorted {A} (leb : A → A → bool) l :
  (∀ a b, leb a b = false → leb b a = true) →
  Sorted (λ a b, leb a b = true) (py_sort leb l).
Proof.
  intros Htot. induction l as [|x l IH]; simpl; [constructor|].
  by apply insert_sorted_Sorted.
Qed.

Lemma string_leb_total a b : String.leb a b = false → String.leb b a = true.
Proof. destruct (String.leb_total a b) as [H|H]; congruence. Qed.

Lemma get_all_students_NoDup dl : NoDup (get_all_students dl).
Proof.
  unfold get_all_students. rewrite py_sort_perm.
  apply (unique_first_spec (alumno <$> courses_taken dl)).
Qed.

(** X5. [get_all_students] lists every student of the history table once,
    in ascending order of the identifiers. *)
Theorem get_all_students_spec dl :
  NoDup (get_all_students dl)
  ∧ Sorted (λ a b, String.leb a b = true) (get_all_students dl)
  ∧ ∀ sid, sid ∈ get_all_students dl ↔ ∃ r, r ∈ courses_taken dl ∧ alumno r = sid.
Proof.
  unfold get_all_students.
  destruct (unique_first_spec (alumno <$> courses_taken dl)) as [Hnd Hmem].
  split; [by rewrite py_sort_perm|].
  split; [apply py_sort_Sorted, string_leb_total|].
  intros sid. rewrite py_sort_perm, Hmem, list_elem_of_fmap. split.
  - intros (r & -> & Hr). by exists r.
  - intros (r & Hr & <-). by exists r.
Qed.

Lemma enumerate_snoc {A} (l : list A) x :
  enumerate (l ++ [x]) = enumerate l ++ [(length l, x)].
Proof.
  unfold enumerate. rewrite length_app. simpl.
  rewrite seq_app. simpl. rewrite zip_with_app by (by rewrite length_seq). done.
Qed.

Lemma index_of_value_lookup {A} `{Countable A} (l : list A) (i : nat) :
  foldl (λ m '(idx, x), <[idx := x]> m) (∅ : gmap nat A) (enumerate l) !! i = l !! i.
Proof.
  induction l as [|x l IH] using rev_ind.
  - simpl. by rewrite lookup_empty.
  - rewrite enumerate_snoc, foldl_snoc.
    destruct (decide (i = length l)) as [->|Hne].
    + rewrite lookup_insert_eq, lookup_app_r by lia.
      by rewrite Nat.sub_diag.
    + rewrite lookup_insert_ne by done. rewrite IH.
      destruct (decide (i < length l)%nat).
      * by rewrite lookup_app_l.
      * rewrite !lookup_ge_None_2; [done| |lia]. rewrite length_app. simpl. lia.
Qed.

Lemma value_to_index_lookup {A} `{Countable A} (l : list A) (x : A) (i : nat) :
  NoDup l →
  foldl (λ m '(idx, x), <[x := idx]> m) (∅ : gmap A nat) (enumerate l) !! x = Some i
  ↔ l !! i = Some x.
Proof.
  induction l as [|y l IH] using rev_ind; intros Hnd.
  - simpl. rewrite lookup_empty. done.
  - apply NoDup_app in Hnd as (Hl & Hy & _).
    rewrite enumerate_snoc, foldl_snoc.
    destruct (decide (x = y)) as [->|Hne].
    + rewrite lookup_insert_eq. split.
      * intros [= <-]. rewrite lookup_app_r by lia. by rewrite Nat.sub_diag.
      * intros Hi. f_equal.
        destruct (decide (i < length l)%nat) as [Hlt|Hge].
        -- rewrite lookup_app_l in Hi by done.
           exfalso. apply (Hy y); [by eapply list_elem_of_lookup_2|by left].
        -- apply lookup_lt_Some in Hi. rewrite length_app in Hi. simpl in Hi. lia.
    + rewrite lookup_insert_ne by done. rewrite (IH Hl). split.
      * intros Hi. rewrite lookup_app_l; [done|]. by eapply lookup_lt_Some.
      * intros Hi. destruct (decide (i < length l)%nat) as [Hlt|Hge].
        -- by rewrite lookup_app_l in Hi.
        -- rewrite lookup_app_r in Hi by lia.
           destruct (i - length l)%nat; simpl in Hi; [congruence|done].
Qed.

(** X6. The index tables of the preprocessor are inverse to each other on
    students: a student has index [i] exactly when it is the [i]-th of
    [get_all_students], and index [i] names that student.  For courses the
    same holds when the catalog has no duplicate code; the table from
    indices to courses follows the catalog in any case. *)
Theorem build_indices_inverse dl :
  let pre := build_indices dl in
  (∀ sid i, student_to_idx pre !! sid = Some i ↔ get_all_students dl !! i = Some sid)
  ∧ (∀ i, idx_to_student pre !! i = get_all_students dl !! i)
  ∧ (∀ i, idx_to_course pre !! i = get_all_courses dl !! i)
  ∧ (NoDup (get_all_courses dl) →
     ∀ code i, course_to_idx pre !! code = Some i ↔ get_all_courses dl !! i = Some code).
Proof.
  simpl. split; [|split; [|split]].
  - intros sid i. apply value_to_index_lookup, get_all_students_NoDup.
  - intros i. apply index_of_value_lookup.
  - intros i. apply index_of_value_lookup.
  - intros Hnd code i. by apply value_to_index_lookup.
Qed.

Lemma build_indices_inverse_witness :
  NoDup (get_all_courses sample_loader)
  ∧ course_to_idx (build_indices sample_loader) !! "BFI05" = Some 2%nat
  ∧ idx_to_course (build_indices sample_loader) !! 2%nat = Some "BFI05".
Proof.
  assert (Hnd : NoDup (get_all_courses sample_loader))
    by (apply (bool_decide_unpack _); vm_compute; exact I).
  split; [exact Hnd|]. split.
  - apply (proj2 (proj2 (proj2 (build_indices_inverse sample_loader))) Hnd "BFI05" 2%nat).
    reflexivity.
  - reflexivity.
Defined.

(** ** recommend.py: what a run returns *)

Lemma prioritized_candidates_elem dl sid code :
  code ∈ prioritized_candidates dl sid ↔
  code ∈ failed_courses dl sid ∨ code ∈ not_taken_obligatory dl sid
  ∨ code ∈ other_courses dl sid.
Proof. unfold prioritized_candidates. by rewrite !elem_of_app, !elem_of_elements. Qed.

Lemma tiers_disjoint dl sid code :
  (code ∈ failed_courses dl sid → code ∉ not_taken_obligatory dl sid)
  ∧ (code ∈ failed_courses dl sid → code ∉ other_courses dl sid)
  ∧ (code ∈ not_taken_obligatory dl sid → code ∉ other_courses dl sid).
Proof.
  unfold failed_courses, not_taken_obligatory, other_courses.
  rewrite !elem_of_intersection, !elem_of_difference. tauto.
Qed.

Lemma prioritized_candidates_NoDup dl sid : NoDup (prioritized_candidates dl sid).
Proof.
  unfold prioritized_candidates.
  apply NoDup_app. split; [apply NoDup_elements|]. split.
  - intros x Hx%elem_of_elements [Hy|Hy]%elem_of_app; apply elem_of_elements in Hy;
      destruct (tiers_disjoint dl sid x) as (H1 & H2 & H3); tauto.
  - apply NoDup_app. split; [apply NoDup_elements|]. split; [|apply NoDup_elements].
    intros x Hx%elem_of_elements Hy%elem_of_elements.
    destruct (tiers_disjoint dl sid x) as (H1 & H2 & H3). tauto.
Qed.

Lemma passed_courses_taken dl sid t code :
  code ∈ passed_courses (get_student_history dl sid t) →
  code ∈ all_courses (get_student_history dl sid t).
Proof.
  intros (x & Hx & _)%passed_iff_attempt. rewrite all_courses_spec.
  unfold attempts in Hx.
  apply list_elem_of_fmap in Hx as (r & _ & [<- Hr]%list_elem_of_filter).
  by apply list_elem_of_fmap_2.
Qed.

Lemma candidate_not_passed dl sid code :
  code ∈ prioritized_candidates dl sid →
  code ∉ passed_courses (get_student_history dl sid 10).
Proof.
  rewrite prioritized_candidates_elem.
  unfold failed_courses, not_taken_obligatory, other_courses.
  rewrite !elem_of_intersection, !elem_of_difference, !elem_of_list_to_set.
  intros [[[_ H] _]|[[_ H]|[[_ H] _]]]; [done| |done].
  intros Hp. apply H. by apply passed_courses_taken.
Qed.

Lemma score_candidate_codes self sid (l : list string) :
  item_course_code <$> omap (score_candidate self sid) l
  = filter (λ c, cumple_prereqs self sid c = true) l.
Proof.
  induction l as [|c l IH]; [done|].
  change (omap (score_candidate self sid) (c :: l))
    with (match score_candidate self sid c with
          | Some item => item :: omap (score_candidate self sid) l
          | None => omap (score_candidate self sid) l
          end).
  destruct (score_candidate self sid c) as [item|] eqn:Hs.
  - apply score_candidate_Some in Hs as (Hc & Hpre & _).
    rewrite filter_cons_True by done. rewrite fmap_cons, IH, Hc. done.
  - rewrite filter_cons_False; [done|].
    unfold score_candidate in Hs. intros Hpre. rewrite Hpre in Hs. simpl in Hs.
    by repeat case_decide.
Qed.

Lemma scored_candidates_codes self sid :
  item_course_code <$> scored_candidates self sid
  ≡ₚ filter (λ c, cumple_prereqs self sid c = true)
            (prioritized_candidates (data_loader self) sid).
Proof.
  unfold scored_candidates. rewrite py_sort_perm. by rewrite score_candidate_codes.
Qed.

Lemma recomendar_cursos_slice self sid top_k recs :
  recomendar_cursos self sid top_k = Ok recs →
  Forall2 (λ item r, attach self sid item = Ok r)
          (py_slice_to top_k (scored_candidates self sid)) recs.
Proof.
  unfold recomendar_cursos, scored_candidates.
  destruct (prioritized_candidates _ _) as [|c l]; simpl is_nil; cbv iota.
  - intros [= <-]. simpl. unfold py_slice_to. destruct (0 <=? top_k)%Z;
      rewrite take_nil; constructor.
  - apply mapM_Ok_Forall2.
Qed.

Lemma recomendar_cursos_codes self sid top_k recs :
  recomendar_cursos self sid top_k = Ok recs →
  rec_course_code <$> recs
  = item_course_code <$> py_slice_to top_k (scored_candidates self sid).
Proof.
  intros H%recomendar_cursos_slice.
  induction H as [|item r items recs Ha _ IH]; [done|].
  rewrite !fmap_cons, IH. f_equal. by apply attach_Ok in Ha as (-> & _).
Qed.

Lemma py_slice_to_sublist {A} (k : Z) (l : list A) : py_slice_to k l `sublist_of` l.
Proof. destruct (py_slice_to_take k l) as [n ->]. apply sublist_take. Qed.

(** X7. A returned recommendation is never a course the student has passed
    (threshold 10); it is an obligatory course or a course of the catalog,
    and no course is returned twice. *)
Theorem recomendar_cursos_not_passed self sid top_k recs :
  recomendar_cursos self sid top_k = Ok recs →
  NoDup (rec_course_code <$> recs)
  ∧ ∀ r, r ∈ recs →
      (rec_course_code r ∉ passed_courses (get_student_history (data_loader self) sid 10))
      ∧ (rec_course_code r ∈ OBLIGATORY_COURSES
         ∨ rec_course_code r ∈ get_all_courses (data_loader self)).
Proof.
  intros Hrec. pose proof (recomendar_cursos_codes _ _ _ _ Hrec) as Hcodes.
  assert (∀ c, c ∈ rec_course_code <$> recs →
               c ∈ prioritized_candidates (data_loader self) sid) as Hcand.
  { intros c Hc. rewrite Hcodes in Hc.
    destruct (py_slice_to_take top_k (scored_candidates self sid)) as [n Hn].
    rewrite Hn, fmap_take in Hc. apply subseteq_take in Hc.
    rewrite scored_candidates_codes in Hc.
    by apply list_elem_of_filter in Hc as [_ ?]. }
  split.
  - rewrite Hcodes.
    destruct (py_slice_to_take top_k (scored_candidates self sid)) as [n ->].
    rewrite fmap_take. eapply sublist_NoDup; [|apply sublist_take].
    rewrite scored_candidates_codes. apply NoDup_filter, prioritized_candidates_NoDup.
  - intros r Hr. apply (list_elem_of_fmap_2 rec_course_code), Hcand in Hr.
    split; [by apply candidate_not_passed|].
    apply prioritized_candidates_elem in Hr.
    unfold failed_courses, not_taken_obligatory, other_courses in Hr.
    rewrite !elem_of_intersection, !elem_of_difference, !elem_of_list_to_set in Hr.
    tauto.
Qed.

Lemma recomendar_cursos_elem self sid top_k recs r :
  recomendar_cursos self sid top_k = Ok recs → r ∈ recs →
  ∃ item, score_candidate self sid (rec_course_code r) = Some item
          ∧ rec_course_code r ∈ prioritized_candidates (data_loader self) sid
          ∧ attach self sid item = Ok r.
Proof.
  intros Hrec%recomendar_cursos_slice [i Hi]%list_elem_of_lookup.
  destruct (Forall2_lookup_r _ _ _ _ _ Hrec Hi) as (item & Hitem & Hatt).
  apply list_elem_of_lookup_2 in Hitem.
  pose proof (elem_of_sublist _ _ _ Hitem (py_slice_to_sublist _ _)) as Hin.
  unfold scored_candidates in Hin. rewrite py_sort_perm in Hin.
  apply list_elem_of_omap in Hin as (c & Hc & Hs).
  pose proof (attach_Ok _ _ _ _ Hatt) as (Hcode & _).
  pose proof (score_candidate_Some _ _ _ _ Hs) as (Hcode' & _).
  exists item. rewrite Hcode, Hcode'. done.
Qed.

Lemma attach_Ok_obligatory self sid item r :
  attach self sid item = Ok r → rec_is_obligatory r = item_is_obligatory item.
Proof.
  unfold attach. intros H.
  destruct (explain_recommendation self sid (item_course_code item)) as [e|e];
    simpl in H; [|discriminate].
  by injection H as <-.
Qed.

Lemma score_candidate_flags self sid course item :
  score_candidate self sid course = Some item →
  item_is_failed item = bool_decide (course ∈ failed_courses (data_loader self) sid)
  ∧ item_is_obligatory item = bool_decide (course ∈ OBLIGATORY_COURSES).
Proof.
  unfold score_candidate.
  destruct (cumple_prereqs self sid course); simpl; [|done].
  by repeat case_decide; intros [= <-].
Qed.

(** X8. The flags of a recommendation agree with its priority: [is_failed]
    holds exactly for priority 1, [is_obligatory] exactly for priorities 1
    and 2, and the priority is 1, 2 or 3. *)
Theorem recomendar_cursos_flags self sid top_k recs r :
  recomendar_cursos self sid top_k = Ok recs → r ∈ recs →
  (rec_is_failed r = true ↔ rec_priority r = 1%Z)
  ∧ (rec_is_obligatory r = true ↔ rec_priority r = 1%Z ∨ rec_priority r = 2%Z)
  ∧ (rec_is_obligatory r = false ↔ rec_priority r = 3%Z)
  ∧ (rec_is_obligatory r = true ↔ rec_course_code r ∈ OBLIGATORY_COURSES).
Proof.
  intros Hrec Hr.
  destruct (recomendar_cursos_elem _ _ _ _ _ Hrec Hr) as (item & Hs & Hcand & Hatt).
  pose proof (attach_Ok_obligatory _ _ _ _ Hatt) as Hob.
  apply attach_Ok in Hatt as (_ & _ & Hp & Hf & _).
  pose proof (score_candidate_flags _ _ _ _ Hs) as [Hif Hio].
  apply score_candidate_Some in Hs as (_ & _ & Hcases).
  rewrite Hp, Hf, Hob, Hif, Hio. clear Hp Hf Hob Hif Hio.
  set (c := rec_course_code r) in *.
  assert (c ∈ failed_courses (data_loader self) sid → c ∈ OBLIGATORY_COURSES) as H1.
  { unfold failed_courses. rewrite elem_of_intersection. tauto. }
  assert (c ∈ not_taken_obligatory (data_loader self) sid → c ∈ OBLIGATORY_COURSES)
    as H2.
  { unfold not_taken_obligatory. rewrite elem_of_difference. tauto. }
  assert (c ∉ failed_courses (data_loader self) sid →
          c ∉ not_taken_obligatory (data_loader self) sid →
          c ∉ OBLIGATORY_COURSES) as H3.
  { intros Hnf Hnn. apply prioritized_candidates_elem in Hcand
      as [?|[?|Ho]]; [done|done|].
    unfold other_courses in Ho. rewrite !elem_of_difference in Ho. tauto. }
  rewrite !bool_decide_eq_true, <- not_true_iff_false, bool_decide_eq_true.
  cbv zeta in Hcases.
  destruct Hcases as [(Ha & -> & _)|[(Ha & Hb & -> & _)|(Ha & Hb & -> & _)]].
  - repeat split; try tauto; try lia; intros; try done; tauto.
  - repeat split; try tauto; try lia; intros; try done; tauto.
  - specialize (H3 Ha Hb). repeat split; try tauto; try lia; intros; try done.
Qed.

Lemma scored_candidates_length self sid :
  length (scored_candidates self sid)
  = length (filter (λ c, cumple_prereqs self sid c = true)
                   (prioritized_candidates (data_loader self) sid)).
Proof.
  rewrite <- (length_fmap item_course_code). by rewrite scored_candidates_codes.
Qed.

(** X9. The number of recommendations: with [n] candidates whose
    prerequisites are met, a [top_k] that is not negative gives
    [min top_k n] recommendations, and a negative [top_k] gives all but the
    last [-top_k] of the ranking. *)
Theorem recomendar_cursos_length self sid top_k recs :
  recomendar_cursos self sid top_k = Ok recs →
  let n := length (filter (λ c, cumple_prereqs self sid c = true)
                          (prioritized_candidates (data_loader self) sid)) in
  ((0 ≤ top_k)%Z → length recs = Nat.min (Z.to_nat top_k) n)
  ∧ ((top_k < 0)%Z → length recs = Z.to_nat (Z.of_nat n + top_k)).
Proof.
  intros Hrec%recomendar_cursos_slice%Forall2_length n.
  rewrite <- Hrec. unfold py_slice_to.
  destruct (Z.leb_spec 0 top_k); rewrite length_take, scored_candidates_length;
    fold n; split; intros; lia.
Qed.

(** X10. With [top_k] at least the number of candidates, every candidate
    whose prerequisites are met is returned. *)
Theorem recomendar_cursos_complete self sid top_k recs code :
  recomendar_cursos self sid top_k = Ok recs →
  (Z.of_nat (length (prioritized_candidates (data_loader self) sid)) ≤ top_k)%Z →
  code ∈ prioritized_candidates (data_loader self) sid →
  cumple_prereqs self sid code = true →
  ∃ r, r ∈ recs ∧ rec_course_code r = code.
Proof.
  intros Hrec Hk Hc Hpre.
  pose proof (recomendar_cursos_codes _ _ _ _ Hrec) as Hcodes.
  rewrite py_slice_to_all in Hcodes.
  - assert (code ∈ rec_course_code <$> recs) as Hin.
    { rewrite Hcodes, scored_candidates_codes. by apply list_elem_of_filter. }
    apply list_elem_of_fmap in Hin as (r & -> & Hr). by exists r.
  - rewrite scored_candidates_length.
    pose proof (length_filter (λ c, cumple_prereqs self sid c = true)
                  (prioritized_candidates (data_loader self) sid)). lia.
Qed.

Lemma no_history_passed dl sid t :
  all_courses (get_student_history dl sid t) = [] →
  passed_courses (get_student_history dl sid t) = [].
Proof.
  intros Hall. destruct (passed_courses _) as [|c l] eqn:Hp; [done|].
  assert (c ∈ all_courses (get_student_history dl sid t)) as Hin.
  { apply passed_courses_taken. rewrite Hp. by left. }
  rewrite Hall in Hin. by apply not_elem_of_nil in Hin.
Qed.

(** X11. A student without any record is only recommended courses that
    declare no prerequisite; none is flagged as failed and the priority is 2
    for the obligatory ones and 3 for the others. *)
Theorem recomendar_cursos_new_student self sid top_k recs r :
  all_courses (get_student_history (data_loader self) sid 10) = [] →
  recomendar_cursos self sid top_k = Ok recs → r ∈ recs →
  declared_prereqs (data_loader self) (rec_course_code r) = []
  ∧ rec_is_failed r = false
  ∧ (rec_priority r = 2%Z ∨ rec_priority r = 3%Z).
Proof.
  intros Hall Hrec Hr.
  pose proof (no_history_passed _ _ _ Hall) as Hpassed.
  destruct (recomendar_cursos_elem _ _ _ _ _ Hrec Hr) as (item & Hs & Hcand & Hatt).
  apply attach_Ok in Hatt as (_ & _ & Hp & Hf & _).
  pose proof (score_candidate_flags _ _ _ _ Hs) as [Hif _].
  apply score_candidate_Some in Hs as (_ & Hpre & Hcases).
  assert (rec_course_code r ∉ failed_courses (data_loader self) sid) as Hnf.
  { unfold failed_courses. rewrite Hall.
    rewrite elem_of_intersection, elem_of_difference, elem_of_list_to_set.
    by intros [[?%not_elem_of_nil _] _]. }
  split; [|split].
  - unfold cumple_prereqs in Hpre. unfold declared_prereqs.
    destruct (get_course_info _ _) as [info|]; [|done].
    destruct (prereq_codes info) as [|p ps]; [done|].
    simpl in Hpre. rewrite Hpassed in Hpre.
    apply andb_true_iff in Hpre as [Hp0%bool_decide_eq_true _].
    simpl in Hp0. by apply not_elem_of_empty in Hp0.
  - rewrite Hf, Hif. by apply bool_decide_eq_false.
  - rewrite Hp. cbv zeta in Hcases.
    destruct Hcases as [(Ha & _)|[(_ & _ & -> & _)|(_ & _ & -> & _)]];
      [done|by left|by right].
Qed.

Lemma attach_Ok_node self sid item r :
  attach self sid item = Ok r →
  KG.has_node (KG.graph (kg_builder self)) (KG.course_node (item_course_code item))
  = true.
Proof.
  unfold attach, explain_recommendation, KG.get_course_neighbors, KG.successors.
  destruct (KG.has_node _ _); [done|]. simpl. discriminate.
Qed.

Lemma attach_Raise_node self sid item :
  KG.has_node (KG.graph (kg_builder self)) (KG.course_node (item_course_code item))
  = false →
  attach self sid item = Raise NetworkXError.
Proof.
  intros H. unfold attach, explain_recommendation, KG.get_course_neighbors,
    KG.successors. by rewrite H.
Qed.

(** X12. Recommendations need the knowledge graph: every returned course is
    a node of the graph, and when the first course of the cut ranking is not
    a node the call raises [NetworkXError]. *)
Theorem recomendar_cursos_graph_nodes self sid top_k :
  (∀ recs r,
     recomendar_cursos self sid top_k = Ok recs → r ∈ recs →
     KG.has_node (KG.graph (kg_builder self)) (KG.course_node (rec_course_code r))
     = true)
  ∧ (∀ item rest,
       py_slice_to top_k (scored_candidates self sid) = item :: rest →
       KG.has_node (KG.graph (kg_builder self))
                   (KG.course_node (item_course_code item)) = false →
       recomendar_cursos self sid top_k = Raise NetworkXError).
Proof.
  split.
  - intros recs r Hrec Hr.
    destruct (recomendar_cursos_elem _ _ _ _ _ Hrec Hr) as (item & _ & _ & Hatt).
    pose proof (attach_Ok _ _ _ _ Hatt) as (-> & _).
    by eapply attach_Ok_node.
  - intros item rest Hslice Hnode.
    unfold recomendar_cursos. unfold scored_candidates in Hslice.
    destruct (prioritized_candidates _ _) as [|c l] eqn:Hc.
    + simpl in Hslice. unfold py_slice_to in Hslice.
      destruct (0 <=? top_k)%Z; by rewrite take_nil in Hslice.
    + simpl is_nil. cbv iota. rewrite Hslice. simpl.
      by rewrite (attach_Raise_node _ _ _ Hnode).
Qed.

Lemma sample_run : recomendar_cursos sample_recommender "s1" 3 = Ok sample_recs.
Proof. vm_compute. reflexivity. Defined.

Lemma recomendar_cursos_not_passed_witness :
  recomendar_cursos sample_recommender "s1" 3 = Ok sample_recs
  ∧ NoDup (rec_course_code <$> sample_recs)
  ∧ ∃ r, sample_recs !! 0%nat = Some r
         ∧ (rec_course_code r
              ∉ passed_courses (get_student_history sample_loader "s1" 10)).
Proof.
  destruct (recomendar_cursos_not_passed sample_recommender "s1" 3 sample_recs sample_run)
    as [Hnd Hall].
  split; [exact sample_run|]. split; [exact Hnd|].
  eexists. split; [reflexivity|].
  refine (proj1 (Hall _ _)). apply list_elem_of_lookup. by exists 0%nat.
Defined.

Lemma recomendar_cursos_flags_witness :
  recomendar_cursos sample_recommender "s1" 3 = Ok sample_recs
  ∧ ∃ r, sample_recs !! 0%nat = Some r
         ∧ (rec_is_failed r = true ↔ rec_priority r = 1%Z).
Proof.
  split; [exact sample_run|].
  eexists. split; [reflexivity|].
  refine (proj1 (recomendar_cursos_flags sample_recommender "s1" 3 sample_recs _
                   sample_run _)).
  apply list_elem_of_lookup. by exists 0%nat.
Defined.

Lemma recomendar_cursos_length_witness :
  recomendar_cursos sample_recommender "s1" 3 = Ok sample_recs
  ∧ (0 ≤ 3)%Z
  ∧ length sample_recs = 3%nat.
Proof.
  split; [exact sample_run|]. split; [lia|].
  rewrite (proj1 (recomendar_cursos_length sample_recommender "s1" 3 sample_recs
                    sample_run)) by lia.
  by vm_compute.
Defined.

Lemma recomendar_cursos_complete_witness :
  ∃ recs,
    recomendar_cursos (recommender_of graduate_loader) "s3" 5 = Ok recs
    ∧ "EL002" ∈ prioritized_candidates graduate_loader "s3"
    ∧ cumple_prereqs (recommender_of graduate_loader) "s3" "EL002" = true
    ∧ ∃ r, r ∈ recs ∧ rec_course_code r = "EL002".
Proof.
  eexists.
  assert (Hrun : recomendar_cursos (recommender_of graduate_loader) "s3" 5 = Ok _)
    by (vm_compute; reflexivity).
  assert (Hc : "EL002" ∈ prioritized_candidates graduate_loader "s3")
    by (apply (bool_decide_unpack _); vm_compute; exact I).
  assert (Hp : cumple_prereqs (recommender_of graduate_loader) "s3" "EL002" = true)
    by (vm_compute; reflexivity).
  split; [exact Hrun|]. split; [exact Hc|]. split; [exact Hp|].
  apply (recomendar_cursos_complete (recommender_of graduate_loader) "s3" 5 _ "EL002"
           Hrun); [by vm_compute|exact Hc|exact Hp].
Defined.

Lemma recomendar_cursos_new_student_witness :
  ∃ recs r,
    all_courses (get_student_history sample_loader "s9" 10) = []
    ∧ recomendar_cursos sample_recommender "s9" 1 = Ok recs
    ∧ recs !! 0%nat = Some r
    ∧ declared_prereqs sample_loader (rec_course_code r) = []
    ∧ rec_is_failed r = false.
Proof.
  eexists _, _.
  assert (Hall : all_courses (get_student_history sample_loader "s9" 10) = [])
    by reflexivity.
  assert (Hrun : recomendar_cursos sample_recommender "s9" 1 = Ok _)
    by (vm_compute; reflexivity).
  split; [exact Hall|]. split; [exact Hrun|]. split; [reflexivity|].
  match goal with
  | |- declared_prereqs _ (rec_course_code ?r) = [] ∧ _ =>
      destruct (recomendar_cursos_new_student sample_recommender "s9" 1 _ r Hall Hrun)
        as (H1 & H2 & _); [|split; [exact H1|exact H2]]
  end.
  apply list_elem_of_lookup. by exists 0%nat.
Defined.

Lemma recomendar_cursos_graph_nodes_witness :
  ∃ item rest,
    py_slice_to 1 (scored_candidates (without_graph sample_recommender) "s1")
    = item :: rest
    ∧ KG.has_node (KG.graph (kg_builder (without_graph sample_recommender)))
                  (KG.course_node (item_course_code item)) = false
    ∧ recomendar_cursos (without_graph sample_recommender) "s1" 1
      = Raise NetworkXError.
Proof.
  eexists _, _.
  assert (Hs : py_slice_to 1 (scored_candidates (without_graph sample_recommender) "s1")
               = _ :: _) by (vm_compute; reflexivity).
  split; [exact Hs|]. split; [reflexivity|].
  exact (proj2 (recomendar_cursos_graph_nodes (without_graph sample_recommender) "s1" 1)
           _ _ Hs eq_refl).
Defined.

(** ** kg_builder.py: edges of the history and neighbour queries *)

Lemma add_took_edges_eq dl t g :
  KG.g_edges (KG.add_took dl t g) = KG.g_edges g ++ (took_edge t <$> courses_taken dl).
Proof.
  unfold KG.add_took. revert g.
  induction (courses_taken dl) as [|r l IH]; intros g; simpl.
  - by rewrite app_nil_r.
  - rewrite IH. unfold KG.add_edge, took_edge. simpl. by rewrite <- app_assoc.
Qed.

(** X13. The graph has one TOOK edge per record of the history table, in
    table order, from the student to the course, with the grade and the flag
    [grade >= pass_threshold]; repeated attempts give parallel edges. *)
Theorem build_graph_took_edges dl t :
  filter is_took (KG.g_edges (KG.build_graph dl t)) = took_edge t <$> courses_taken dl.
Proof.
  unfold KG.build_graph. rewrite add_took_edges_eq, filter_app.
  rewrite (filter_none is_took (KG.g_edges _)).
  - simpl. induction (courses_taken dl) as [|r l IH]; [done|].
    rewrite fmap_cons, filter_cons_True by done. by rewrite IH.
  - intros e He.
    destruct (graph_before_prereqs_nodes dl) as [_ Hcourses].
    destruct (add_has_prereq_spec (courses dl) (KG.graph_before_prereqs dl) Hcourses)
      as [_ Hedges].
    apply Hedges in He as [He|(c & p & _ & _ & _ & ->)].
    + apply graph_before_prereqs_edges in He. unfold is_took. rewrite He. tauto.
    + unfold is_took. simpl. tauto.
Qed.

Lemma graph_wf_add_node g n ty : graph_wf g → graph_wf (KG.add_node g n ty).
Proof.
  intros Hwf e He. destruct (Hwf e He) as [H1 H2].
  split; apply add_node_lookup; by left.
Qed.

Lemma graph_wf_add_edge g u v ty : graph_wf g → graph_wf (KG.add_edge g u v ty).
Proof.
  intros Hwf e [He| ->]%add_edge_edges.
  - destruct (Hwf e He) as [H1 H2]. split; apply add_edge_lookup; by left.
  - split; apply add_edge_lookup; simpl; tauto.
Qed.

Lemma build_graph_wf dl t : graph_wf (KG.build_graph dl t).
Proof.
  unfold KG.build_graph, KG.graph_before_prereqs.
  assert (graph_wf KG.empty_graph) as H0 by (by intros e ?%not_elem_of_nil).
  assert (∀ g, graph_wf g → graph_wf (KG.add_course_nodes dl g)) as H1.
  { intros g Hg. unfold KG.add_course_nodes. apply foldl_invariant; [done|].
    intros. by apply graph_wf_add_node. }
  assert (∀ g, graph_wf g → graph_wf (KG.add_linea_nodes dl g)) as H2.
  { intros g Hg. unfold KG.add_linea_nodes. apply foldl_invariant; [done|].
    intros. by apply graph_wf_add_node. }
  assert (∀ g, graph_wf g → graph_wf (KG.add_student_nodes dl g)) as H3.
  { intros g Hg. unfold KG.add_student_nodes. apply foldl_invariant; [done|].
    intros. by apply graph_wf_add_node. }
  assert (∀ g, graph_wf g → graph_wf (KG.add_belongs_to dl g)) as H4.
  { intros g Hg. unfold KG.add_belongs_to. apply foldl_invariant; [done|].
    intros g' c _ Hg'. apply foldl_invariant; [done|].
    intros. by apply graph_wf_add_edge. }
  assert (∀ g, graph_wf g → graph_wf (KG.add_has_prereq dl g)) as H5.
  { intros g Hg. unfold KG.add_has_prereq. apply foldl_invariant; [done|].
    intros g' c _ Hg'. unfold KG.add_prereqs_of. apply foldl_invariant; [done|].
    intros g'' p _ Hg''. destruct (KG.has_node _ _); [|done].
    by apply graph_wf_add_edge. }
  assert (∀ g, graph_wf g → graph_wf (KG.add_took dl t g)) as H6.
  { intros g Hg. unfold KG.add_took. apply foldl_invariant; [done|].
    intros. by apply graph_wf_add_edge. }
  by apply H6, H5, H4, H3, H2, H1.
Qed.

Lemma add_took_nodes dl t g k :
  is_Some (KG.g_nodes (KG.add_took dl t g) !! k) ↔
  is_Some (KG.g_nodes g !! k)
  ∨ ∃ r, r ∈ courses_taken dl
         ∧ (k = KG.student_node (alumno r) ∨ k = KG.course_node (taken_code r)).
Proof.
  unfold KG.add_took. revert g.
  induction (courses_taken dl) as [|r l IH]; intros g; simpl.
  - split; [by left|]. intros [H|(r & Hr & _)]; [done|]. by apply not_elem_of_nil in Hr.
  - rewrite IH, add_edge_lookup. split.
    + intros [[H|H]|(r' & Hr' & H)].
      * by left.
      * right. exists r. split; [by left|done].
      * right. exists r'. split; [by right|done].
    + intros [H|(r' & [->|Hr']%elem_of_cons & H)].
      * by left; left.
      * by left; right.
      * right. by exists r'.
Qed.

Lemma build_graph_course_node dl t code :
  KG.has_node (KG.build_graph dl t) (KG.course_node code) = true ↔
  code ∈ get_all_courses dl ∨ ∃ r, r ∈ courses_taken dl ∧ taken_code r = code.
Proof.
  rewrite has_node_true. unfold KG.build_graph. rewrite add_took_nodes.
  destruct (graph_before_prereqs_nodes dl) as [_ Hcourses].
  destruct (add_has_prereq_spec (courses dl) (KG.graph_before_prereqs dl) Hcourses)
    as [Hn _].
  fold (KG.add_has_prereq dl (KG.graph_before_prereqs dl)) in Hn.
  rewrite Hn, <- has_node_true, graph_before_prereqs_has_course.
  split.
  - intros [H|(r & Hr & [H|H])]; [by left| |].
    + by apply course_node_not_student in H.
    + right. exists r. split; [done|]. symmetry. by apply course_node_inj.
  - intros [H|(r & Hr & <-)]; [by left|]. right. exists r. split; [done|]. by right.
Qed.

Lemma for_each_total {A S} (f : S → A → result S) (l : list A) (s : S) :
  (∀ x s, x ∈ l → ∃ s', f s x = Ok s') → ∃ s', for_each f s l = Ok s'.
Proof.
  revert s. induction l as [|x l IH]; intros s Hf; simpl; [by eauto|].
  destruct (Hf x s) as [s' Hs']; [by left|]. rewrite Hs'. simpl.
  apply IH. intros y s0 Hy. apply Hf. by right.
Qed.

Lemma py_slice_to_length {A} (k : Z) (l : list A) :
  (0 ≤ k)%Z → (Z.of_nat (length (py_slice_to k l)) ≤ k)%Z.
Proof.
  intros Hk. unfold py_slice_to. destruct (Z.leb_spec 0 k); [|lia].
  rewrite length_take. lia.
Qed.

(** X14. On a graph whose edges join nodes, [get_course_neighbors] raises
    [NetworkXError] exactly when the course has no node, and otherwise
    returns at most [k] pairs (for [k >= 0]).  On the graph of [build_graph]
    the course has a node exactly when the catalog lists it or some record of
    the history table names it. *)
Theorem get_course_neighbors_total kg code k :
  graph_wf (KG.graph kg) →
  (KG.has_node (KG.graph kg) (KG.course_node code) = false →
   KG.get_course_neighbors kg code k = Raise NetworkXError)
  ∧ (KG.has_node (KG.graph kg) (KG.course_node code) = true →
     ∃ l, KG.get_course_neighbors kg code k = Ok l
          ∧ ((0 ≤ k)%Z → (Z.of_nat (length l) ≤ k)%Z))
  ∧ (∀ dl t, KG.graph kg = KG.build_graph dl t →
       (KG.has_node (KG.graph kg) (KG.course_node code) = true ↔
        code ∈ get_all_courses dl ∨ ∃ r, r ∈ courses_taken dl ∧ taken_code r = code)).
Proof.
  intros Hwf. split; [|split].
  - intros Hn. unfold KG.get_course_neighbors, KG.successors. by rewrite Hn.
  - intros Hn. unfold KG.get_course_neighbors, KG.successors. rewrite Hn. simpl.
    set (nbrs := unique_first _).
    match goal with
    | |- context [for_each ?f ?s nbrs] =>
        destruct (for_each_total f nbrs s) as [acc Hacc]
    end.
    { intros x acc Hx. destruct (String.prefix "Linea:" x); [|by eauto].
      unfold KG.predecessors.
      assert (KG.has_node (KG.graph kg) x = true) as ->; [|simpl; by eauto].
      apply has_node_true.
      unfold nbrs in Hx. apply (proj1 (proj2 (unique_first_spec _) x)) in Hx.
      apply list_elem_of_fmap in Hx as (e & -> & [_ He]%list_elem_of_filter).
      by apply Hwf. }
    rewrite Hacc. simpl. eexists. split; [done|]. apply py_slice_to_length.
  - intros dl t ->. apply build_graph_course_node.
Qed.

Lemma get_course_neighbors_total_witness :
  graph_wf (KG.graph (kg_builder sample_recommender))
  ∧ KG.has_node (KG.graph (kg_builder sample_recommender)) (KG.course_node "ZZZ99")
    = false
  ∧ KG.get_course_neighbors (kg_builder sample_recommender) "ZZZ99" 3
    = Raise NetworkXError.
Proof.
  assert (Hwf : graph_wf (KG.graph (kg_builder sample_recommender)))
    by apply build_graph_wf.
  assert (Hn : KG.has_node (KG.graph (kg_builder sample_recommender))
                 (KG.course_node "ZZZ99") = false) by (vm_compute; reflexivity).
  split; [exact Hwf|]. split; [exact Hn|].
  exact (proj1 (get_course_neighbors_total (kg_builder sample_recommender) "ZZZ99" 3 Hwf)
           Hn).
Defined.

(** ** kg_builder.py: what a training step keeps, and random walks *)

Lemma update_pair_keeps lr (E : gmap string (list Q)) node ctx d :
  (∀ k v, E !! k = Some v → k = node ∨ k = ctx → length v = d) →
  is_Some (E !! node) → is_Some (E !! ctx) →
  ∃ E', KG.update_pair lr E node ctx = Ok E'
  ∧ (∀ k, is_Some (E' !! k) ↔ is_Some (E !! k))
  ∧ (∀ k, k ≠ node → k ≠ ctx → E' !! k = E !! k)
  ∧ (∀ k v, E' !! k = Some v → k = node ∨ k = ctx → length v = d).
Proof.
  intros Hd [en Hn] [ec Hc]. unfold KG.update_pair, getitem, np_dot.
  rewrite Hn, Hc. simpl.
  assert (length en = d) as Hen by (eapply Hd; eauto).
  assert (length ec = d) as Hec by (eapply Hd; eauto).
  rewrite decide_True by congruence. simpl.
  set (g := (py_sum (zip_with Qmult en ec) - 1) * lr).
  set (en' := KG.vsub en (KG.vscale g ec)).
  assert (length en' = d) as Hen'.
  { unfold en', KG.vsub, KG.vscale. rewrite length_zip_with, length_fmap. lia. }
  rewrite lookup_insert_eq.
  destruct (decide (node = ctx)) as [->|Hne].
  - rewrite lookup_insert_eq. simpl. eexists. split; [done|].
    split; [|split].
    + intros k. destruct (decide (k = ctx)) as [->|Hk].
      * rewrite lookup_insert_eq. split; by eauto.
      * by rewrite !lookup_insert_ne.
    + intros k Hk _. by rewrite !lookup_insert_ne.
    + intros k v Hv [->| ->]; rewrite lookup_insert_eq in Hv; injection Hv as <-;
        unfold KG.vsub, KG.vscale; rewrite length_zip_with, length_fmap; lia.
  - rewrite lookup_insert_ne, Hc by done. simpl. eexists. split; [done|].
    split; [|split].
    + intros k. destruct (decide (k = ctx)) as [->|Hk].
      * rewrite lookup_insert_eq. split; by eauto.
      * rewrite lookup_insert_ne by done.
        destruct (decide (k = node)) as [->|Hk'].
        -- rewrite lookup_insert_eq. split; by eauto.
        -- by rewrite lookup_insert_ne.
    + intros k Hk1 Hk2. by rewrite !lookup_insert_ne.
    + intros k v Hv [->| ->].
      * rewrite lookup_insert_ne, lookup_insert_eq in Hv by done. by injection Hv as <-.
      * rewrite lookup_insert_eq in Hv. injection Hv as <-.
        unfold KG.vsub, KG.vscale. rewrite length_zip_with, length_fmap. lia.
Qed.

Lemma for_each_invariant {A S} (P : S → Prop) (f : S → A → result S)
    (l : list A) (s : S) :
  P s → (∀ s x, x ∈ l → P s → ∃ s', f s x = Ok s' ∧ P s') →
  ∃ s', for_each f s l = Ok s' ∧ P s'.
Proof.
  revert s. induction l as [|x l IH]; intros s Hs Hf; simpl; [by eauto|].
  destruct (Hf s x) as (s' & Hs' & HP); [by left|done|].
  rewrite Hs'. simpl. apply IH; [done|].
  intros s0 y Hy. apply Hf. by right.
Qed.

Lemma window_positions_range walk i j :
  j ∈ window_positions walk i → (0 ≤ j < Z.of_nat (length walk))%Z ∧ j ≠ i.
Proof.
  unfold window_positions. intros [[Hne _] Hj%elem_of_seqZ]%list_elem_of_filter. lia.
Qed.

Lemma window_positions_lookup walk i j :
  j ∈ window_positions walk i → ∃ ctx, walk !! Z.to_nat j = Some ctx ∧ ctx ∈ walk.
Proof.
  intros [Hj _]%window_positions_range.
  destruct (lookup_lt_is_Some_2 walk (Z.to_nat j)) as [ctx Hctx]; [lia|].
  exists ctx. split; [done|]. by eapply list_elem_of_lookup_2.
Qed.

Section update_keeps.
Variable linalg_norm : list Q → Q.

Lemma keeps_pair lr E0 walk d E node ctx :
  (∀ k, k ∈ walk → is_Some (E0 !! k)) →
  node ∈ walk → ctx ∈ walk → keeps E0 walk d E →
  ∃ E', KG.update_pair lr E node ctx = Ok E' ∧ keeps E0 walk d E'.
Proof.
  intros Hpres Hn Hc (Hdom & Hout & Hlen).
  destruct (update_pair_keeps lr E node ctx d) as (E' & Hrun & Hd' & Ho' & Hl').
  - intros k v Hv [->| ->]; (eapply Hlen; [|exact Hv]; done).
  - apply Hdom. by apply Hpres.
  - apply Hdom. by apply Hpres.
  - exists E'. split; [done|]. split; [|split].
    + intros k. by rewrite Hd'.
    + intros k Hk. rewrite Ho'; [by apply Hout|intros ->; done|intros ->; done].
    + intros k v Hk Hv.
      destruct (decide (k = node)) as [->|H1]; [by eapply Hl'; eauto|].
      destruct (decide (k = ctx)) as [->|H2]; [by eapply Hl'; eauto|].
      rewrite Ho' in Hv by done. eapply Hlen; [|exact Hv]; done.
Qed.

Lemma keeps_normalize E0 walk d E node :
  (∀ k, k ∈ walk → is_Some (E0 !! k)) →
  node ∈ walk → keeps E0 walk d E →
  ∃ E', KG.normalize linalg_norm node E = Ok E' ∧ keeps E0 walk d E'.
Proof.
  intros Hpres Hn (Hdom & Hout & Hlen).
  destruct (proj2 (Hdom node) (Hpres node Hn)) as [v Hv].
  unfold KG.normalize, getitem. rewrite Hv. simpl. eexists. split; [done|].
  split; [|split].
  - intros k. destruct (decide (k = node)) as [->|Hk].
    + rewrite lookup_insert_eq, <- Hdom, Hv. split; by eauto.
    + by rewrite lookup_insert_ne.
  - intros k Hk. rewrite lookup_insert_ne; [by apply Hout|]. by intros ->.
  - intros k w Hk Hw. destruct (decide (k = node)) as [->|Hne].
    + rewrite lookup_insert_eq in Hw. injection Hw as <-.
      unfold KG.vdiv. rewrite length_fmap. eapply Hlen; [|exact Hv]; done.
    + rewrite lookup_insert_ne in Hw by done. eapply Hlen; [|exact Hw]; done.
Qed.

(** X15. When every node of the walk has an embedding of one dimension,
    [_update_embeddings] returns a table with the same keys, in which the
    nodes outside the walk keep their embedding and the nodes of the walk
    keep their dimension.  When the first node of the walk has no embedding
    it raises [KeyError]. *)
Theorem update_embeddings_keeps (E : gmap string (list Q)) walk lr d :
  ((∀ k, k ∈ walk → ∃ v, E !! k = Some v ∧ length v = d) →
   ∃ E', KG._update_embeddings linalg_norm E walk lr = Ok E'
         ∧ (∀ k, is_Some (E' !! k) ↔ is_Some (E !! k))
         ∧ (∀ k, k ∉ walk → E' !! k = E !! k)
         ∧ (∀ k v, k ∈ walk → E' !! k = Some v → length v = d))
  ∧ (∀ node rest, walk = node :: rest → E !! node = None →
       KG._update_embeddings linalg_norm E walk lr = Raise KeyError).
Proof.
  split.
  - intros Hwalk.
    assert (∀ k, k ∈ walk → is_Some (E !! k)) as Hpres.
    { intros k Hk. destruct (Hwalk k Hk) as (v & Hv & _). by eauto. }
    assert (keeps E walk d E) as H0.
    { split; [done|]. split; [done|]. intros k v Hk Hv.
      destruct (Hwalk k Hk) as (v' & Hv' & Hl). congruence. }
    unfold KG._update_embeddings.
    apply (for_each_invariant (keeps E walk d)); [done|].
    intros E1 [i node] Hin HE1.
    assert (node ∈ walk) as Hnode.
    { apply elem_of_zip_r in Hin. done. }
    destruct (for_each_invariant (keeps E walk d)
                (λ E j, context_node ← of_option IndexError (walk !! Z.to_nat j);
                        KG.update_pair lr E node context_node)
                (window_positions walk i) E1 HE1) as (E2 & Hwin & HE2).
    { intros E' j Hj HE'.
      destruct (window_positions_lookup _ _ _ Hj) as (ctx & Hctx & Hcw).
      rewrite Hctx. simpl. by apply keeps_pair. }
    rewrite update_window_positions, Hwin. simpl.
    by apply keeps_normalize.
  - intros node rest -> Hnone. unfold KG._update_embeddings.
    rewrite seqZ_cons by (simpl; lia). simpl.
    rewrite update_window_positions.
    destruct (window_positions (node :: rest) 0) as [|j l] eqn:Hpos.
    + simpl. unfold KG.normalize, getitem. by rewrite Hnone.
    + assert (j ∈ window_positions (node :: rest) 0) as Hj by (rewrite Hpos; by left).
      destruct (window_positions_lookup _ _ _ Hj) as (ctx & Hctx & _).
      simpl for_each. rewrite Hctx. simpl.
      unfold KG.update_pair, getitem. by rewrite Hnone.
Qed.
End update_keeps.

Lemma update_embeddings_keeps_witness :
  (∀ k, k ∈ ["a"; "b"] → ∃ v, pair_store !! k = Some v ∧ length v = 1%nat)
  ∧ ∃ E', KG._update_embeddings (λ _, 1) pair_store ["a"; "b"] 0.01 = Ok E'
          ∧ (∀ k, is_Some (E' !! k) ↔ is_Some (pair_store !! k)).
Proof.
  assert (H : ∀ k, k ∈ ["a"; "b"] → ∃ v, pair_store !! k = Some v ∧ length v = 1%nat).
  { intros k [->|[->|Hk%not_elem_of_nil]%elem_of_cons]%elem_of_cons; [| |done].
    - exists [2]. split; reflexivity.
    - exists [3]. split; reflexivity. }
  split; [exact H|].
  destruct (proj1 (update_embeddings_keeps (λ _, 1) pair_store ["a"; "b"] 0.01 1) H)
    as (E' & Hrun & Hdom & _).
  exists E'. split; [exact Hrun|exact Hdom].
Defined.

Lemma walk_steps_length neighbors rng i steps current :
  (length (walk_steps neighbors rng i steps current) ≤ steps)%nat.
Proof.
  revert i current. induction steps as [|n IH]; intros i current; simpl; [lia|].
  destruct (neighbors !! current) as [[|x l]|]; simpl; [lia| |lia].
  apply le_n_S, IH.
Qed.

Lemma walk_steps_linked neighbors rng i steps current p a b :
  (current :: walk_steps neighbors rng i steps current) !! p = Some a →
  (current :: walk_steps neighbors rng i steps current) !! S p = Some b →
  ∃ nbrs, neighbors !! a = Some nbrs ∧ b ∈ nbrs.
Proof.
  revert i current p. induction steps as [|n IH]; intros i current p Ha Hb.
  - simpl in Hb. by destruct p.
  - simpl in Ha, Hb.
    destruct (neighbors !! current) as [[|x l]|] eqn:Hn; try (by destruct p).
    set (next := default x ((x :: l) !! (rng i mod length (x :: l))%nat)) in *.
    destruct p as [|p].
    + simpl in Ha, Hb. injection Ha as <-. injection Hb as <-.
      exists (x :: l). split; [done|]. unfold next.
      destruct ((x :: l) !! _) as [y|] eqn:Hy; simpl; [|by left].
      by eapply list_elem_of_lookup_2.
    + apply (IH (S i) next p); done.
Qed.

Lemma walk_steps_stops neighbors rng i steps current :
  (length (walk_steps neighbors rng i steps current) < steps)%nat →
  ∃ final, last (current :: walk_steps neighbors rng i steps current) = Some final
           ∧ (neighbors !! final = None ∨ neighbors !! final = Some []).
Proof.
  revert i current. induction steps as [|n IH]; intros i current; [simpl; lia|].
  cbn [walk_steps].
  destruct (neighbors !! current) as [[|x l]|] eqn:Hn.
  - intros _. exists current. by eauto.
  - cbv zeta. cbn [length]. intros Hlt%Nat.succ_lt_mono.
    destruct (IH _ _ Hlt) as (final & Hlast & Hdead).
    exists final. split; [|done]. rewrite last_cons. by rewrite Hlast.
  - intros _. exists current. by eauto.
Qed.

(** X16. Whatever the random draws, a walk starts at the start node, has
    between 1 and [max 1 walk_length] nodes, moves at each step to a
    neighbour of the current node, and is shorter than [walk_length] only
    when it ends in a node without neighbours. *)
Theorem random_walk_shape rng start walk_length neighbors :
  let walk := _random_walk rng start walk_length neighbors in
  walk !! 0%nat = Some start
  ∧ (1 ≤ Z.of_nat (length walk) ≤ Z.max 1 walk_length)%Z
  ∧ (∀ p a b, walk !! p = Some a → walk !! S p = Some b →
       ∃ nbrs, neighbors !! a = Some nbrs ∧ b ∈ nbrs)
  ∧ ((Z.of_nat (length walk) < walk_length)%Z →
       ∃ final, last walk = Some final
                ∧ (neighbors !! final = None ∨ neighbors !! final = Some [])).
Proof.
  unfold _random_walk. cbv zeta. split; [done|]. split; [|split].
  - simpl length.
    pose proof (walk_steps_length neighbors rng 0 (Z.to_nat (walk_length - 1)) start).
    lia.
  - intros p a b. apply walk_steps_linked.
  - intros Hlt. apply walk_steps_stops. simpl length in Hlt. lia.
Qed.

Lemma random_walk_shape_witness :
  _random_walk (λ _, 0%nat) "a" 5 dead_end_neighbors = ["a"; "b"]
  ∧ (Z.of_nat (length (_random_walk (λ _, 0%nat) "a" 5 dead_end_neighbors)) < 5)%Z
  ∧ ∃ final,
      last (_random_walk (λ _, 0%nat) "a" 5 dead_end_neighbors) = Some final
      ∧ (dead_end_neighbors !! final = None ∨ dead_end_neighbors !! final = Some []).
Proof.
  assert (Hlt : (Z.of_nat (length (_random_walk (λ _, 0%nat) "a" 5 dead_end_neighbors))
                 < 5)%Z) by (by vm_compute).
  split; [reflexivity|]. split; [exact Hlt|].
  exact (proj2 (proj2 (proj2
           (random_walk_shape (λ _, 0%nat) "a" 5 dead_end_neighbors))) Hlt).
Defined.

(** ** cf_model.py: scores and the shape of recommend *)

Lemma dot_zeros_l (v : list Q) n : py_sum (zip_with Qmult (zeros n) v) == 0.
Proof.
  unfold zeros. revert v. induction n as [|n IH]; intros v; [done|].
  destruct v as [|x v]; [done|]. simpl zip_with.
  rewrite py_sum_cons, IH. ring.
Qed.

Lemma dot_zeros_r (v : list Q) n : py_sum (zip_with Qmult v (zeros n)) == 0.
Proof.
  unfold zeros. revert v. induction n as [|n IH]; intros v.
  - destruct v; done.
  - destruct v as [|x v]; [done|]. simpl zip_with.
    rewrite py_sum_cons, IH. ring.
Qed.

(** X18. The score of the collaborative filter falls back to the zero
    vector for an unknown student or course: with both unknown the score is
    0; with one of them known the score is 0 when the stored factor row has
    [factors] entries and the call raises [ValueError] when it has not; an
    index without factor row raises [IndexError]. *)
Theorem cf_predict_score_fallback cf sid code :
  student_to_idx (CF.preprocessor cf) !! sid = None →
  (course_to_idx (CF.preprocessor cf) !! code = None →
   ∃ q, CF.predict_score cf sid code = Ok q ∧ q == 0)
  ∧ (∀ i, course_to_idx (CF.preprocessor cf) !! code = Some i →
       match CF.item_factors cf !! i with
       | None => CF.predict_score cf sid code = Raise IndexError
       | Some v =>
           if decide (length v = CF.factors cf)
           then ∃ q, CF.predict_score cf sid code = Ok q ∧ q == 0
           else CF.predict_score cf sid code = Raise ValueError
       end).
Proof.
  intros Hs. unfold CF.predict_score, CF.get_student_embedding,
    CF.get_course_embedding. rewrite Hs. simpl. split.
  - intros ->. simpl. unfold np_dot. rewrite decide_True by done.
    eexists. split; [done|]. apply dot_zeros_l.
  - intros i ->. destruct (CF.item_factors cf !! i) as [v|]; simpl; [|done].
    unfold np_dot, zeros. rewrite length_replicate.
    case_decide as Hlen.
    + rewrite decide_True by done. eexists. split; [done|]. apply dot_zeros_l.
    + rewrite decide_False by congruence. done.
Qed.

Lemma argsort_sorted (keys : list CF.ext) p q i j :
  (p < q)%nat → CF.argsort keys !! p = Some i → CF.argsort keys !! q = Some j →
  ∃ ki kj, keys !! i = Some ki ∧ keys !! j = Some kj ∧ CF.ext_leb ki kj = true.
Proof.
  intros Hpq Hp Hq. unfold CF.argsort in *.
  set (L := py_sort (λ x y, CF.ext_leb x.2 y.2) (enumerate keys)) in *.
  assert (L ≡ₚ enumerate keys) as Hperm by apply py_sort_perm.
  assert (StronglySorted (λ a b, CF.ext_leb a.2 b.2 = true) L) as Hsorted.
  { apply py_sort_sorted.
    - intros x y. apply ext_leb_total.
    - intros x y z. apply ext_leb_trans. }
  rewrite list_lookup_fmap in Hp, Hq.
  destruct (L !! p) as [[i' ki]|] eqn:HLp; simpl in Hp; [|done].
  destruct (L !! q) as [[j' kj]|] eqn:HLq; simpl in Hq; [|done].
  injection Hp as ->. injection Hq as ->.
  exists ki, kj. split; [|split].
  - apply enumerate_elem. rewrite <- Hperm. by eapply list_elem_of_lookup_2.
  - apply enumerate_elem. rewrite <- Hperm. by eapply list_elem_of_lookup_2.
  - by apply (StronglySorted_lookup_lt _ L p q (i, ki) (j, kj) Hsorted).
Qed.

Lemma argsort_length keys : length (CF.argsort keys) = length keys.
Proof.
  unfold CF.argsort. rewrite length_fmap, py_sort_perm. unfold enumerate.
  rewrite length_zip_with, length_seq. lia.
Qed.

(** X19. For a known student and [top_k >= 0], [recommend] returns
    [min top_k n] pairs, [n] being the number of courses; an unknown student
    gets the empty list.  When [top_k] does not exceed the number of courses
    without interaction, the returned scores are in non-increasing order. *)
Theorem cf_recommend_shape cf sid top_k recs :
  CF.recommend cf sid top_k = Ok recs →
  (student_to_idx (CF.preprocessor cf) !! sid = None → recs = [])
  ∧ (∀ student_idx row,
       student_to_idx (CF.preprocessor cf) !! sid = Some student_idx →
       CF.interaction_matrix cf !! student_idx = Some row →
       (0 ≤ top_k)%Z →
       length recs = Nat.min (Z.to_nat top_k) (length (CF.item_factors cf))
       ∧ ((top_k + Z.of_nat (length (CF.nonzero row))
             ≤ Z.of_nat (length (CF.item_factors cf)))%Z →
          ∀ p q r1 r2, (p < q)%nat → recs !! p = Some r1 → recs !! q = Some r2 →
                       r2.2 <= r1.2)).
Proof.
  intros Hrec. split.
  { intros Hs. unfold CF.recommend in Hrec. rewrite Hs in Hrec. by injection Hrec. }
  intros student_idx row Hsid Hrow Hk0.
  unfold CF.recommend in Hrec. rewrite Hsid in Hrec.
  destruct (CF.user_factors cf !! student_idx) as [user_emb|]; simpl in Hrec;
    [|discriminate].
  destruct (mapM _ (CF.item_factors cf)) as [scores|] eqn:Hscores; simpl in Hrec;
    [|discriminate].
  rewrite Hrow in Hrec. simpl in Hrec.
  destruct (CF.mask _ _) as [scores_copy|] eqn:Hmask; simpl in Hrec; [|discriminate].
  apply mapM_Ok_Forall2 in Hrec.
  apply mask_Ok in Hmask as [Hlen Hlk].
  apply mapM_Ok_Forall2, Forall2_length in Hscores.
  rewrite length_fmap in Hlen.
  unfold py_slice_to in Hrec.
  destruct (Z.leb_spec 0 top_k) as [_|?]; [|lia].
  split.
  { apply Forall2_length in Hrec. rewrite <- Hrec, length_take, argsort_length,
      length_fmap. lia. }
  intros Hbound p q r1 r2 Hpq Hp Hq.
  destruct (Forall2_lookup_r _ _ _ _ _ Hrec Hp) as (i & Hi & Hri).
  destruct (Forall2_lookup_r _ _ _ _ _ Hrec Hq) as (j & Hj & Hrj).
  assert (∀ idx r, idx ∈ take (Z.to_nat top_k) (CF.argsort (CF.ext_neg <$> scores_copy)) →
            (c ← getitem (idx_to_course (CF.preprocessor cf)) idx;
             s ← of_option IndexError (scores !! idx); Ok (c, s)) = Ok r →
            (CF.ext_neg <$> scores_copy) !! idx = Some (CF.Fin (- r.2))) as Hkey.
  { intros idx r Hidx Hr.
    destruct (getitem _ idx) as [c|]; simpl in Hr; [|discriminate].
    destruct (scores !! idx) as [s|] eqn:Hs; simpl in Hr; [|discriminate].
    injection Hr as <-. simpl.
    destruct (argsort_finite_first (CF.ext_neg <$> scores_copy) (CF.nonzero row)
                (Z.to_nat top_k) idx) as (x & Hx); [| |done|].
    - intros k Hk. rewrite list_lookup_fmap, Hlk in Hk.
      destruct (decide (k ∈ CF.nonzero row)); [done|].
      rewrite list_lookup_fmap in Hk. by destruct (scores !! k).
    - rewrite length_fmap. lia.
    - rewrite list_lookup_fmap, Hlk in Hx |- *.
      destruct (decide (idx ∈ CF.nonzero row)); [simpl in Hx; by destruct Hx|].
      rewrite list_lookup_fmap, Hs. done. }
  pose proof (Hkey i r1 (list_elem_of_lookup_2 _ _ _ Hi) Hri) as Hk1.
  pose proof (Hkey j r2 (list_elem_of_lookup_2 _ _ _ Hj) Hrj) as Hk2.
  apply lookup_take_Some in Hi as [Hi _]. apply lookup_take_Some in Hj as [Hj _].
  destruct (argsort_sorted _ p q i j Hpq Hi Hj) as (ki & kj & Hki & Hkj & Hle).
  rewrite Hk1 in Hki. rewrite Hk2 in Hkj. injection Hki as <-. injection Hkj as <-.
  simpl in Hle. apply Qle_bool_iff in Hle.
  apply Qopp_le_compat in Hle. by rewrite !Qopp_involutive in Hle.
Qed.

Lemma cf_recommend_unseen_when_enough_witness :
  student_to_idx (CF.preprocessor masked_cf) !! "u" = Some 0%nat
  ∧ CF.interaction_matrix masked_cf !! 0%nat = Some [1; 0]
  ∧ CF.recommend masked_cf "u" 1 = Ok [("C1", 2)]
  ∧ ∃ idx, idx_to_course (CF.preprocessor masked_cf) !! idx = Some "C1"
           ∧ idx ∉ CF.nonzero [1; 0].
Proof.
  assert (H1 : student_to_idx (CF.preprocessor masked_cf) !! "u" = Some 0%nat)
    by reflexivity.
  assert (H2 : CF.interaction_matrix masked_cf !! 0%nat = Some [1; 0]) by reflexivity.
  assert (H3 : CF.recommend masked_cf "u" 1 = Ok [("C1", 2)])
    by (vm_compute; reflexivity).
  split; [exact H1|]. split; [exact H2|]. split; [exact H3|].
  apply (cf_recommend_unseen_when_enough masked_cf "u" 1 [("C1", 2)] 0%nat [1; 0]
           H1 H2 ltac:(lia) ltac:(by vm_compute) H3 "C1" 2).
  apply list_elem_of_singleton. reflexivity.
Defined.

Lemma cf_predict_score_fallback_witness :
  student_to_idx (CF.preprocessor masked_cf) !! "nobody" = None
  ∧ course_to_idx (CF.preprocessor masked_cf) !! "none" = None
  ∧ ∃ q, CF.predict_score masked_cf "nobody" "none" = Ok q ∧ q == 0.
Proof.
  assert (H1 : student_to_idx (CF.preprocessor masked_cf) !! "nobody" = None)
    by reflexivity.
  assert (H2 : course_to_idx (CF.preprocessor masked_cf) !! "none" = None)
    by reflexivity.
  split; [exact H1|]. split; [exact H2|].
  exact (proj1 (cf_predict_score_fallback masked_cf "nobody" "none" H1) H2).
Defined.

Lemma cf_recommend_shape_witness :
  CF.recommend masked_cf "u" 1 = Ok [("C1", 2)]
  ∧ student_to_idx (CF.preprocessor masked_cf) !! "u" = Some 0%nat
  ∧ CF.interaction_matrix masked_cf !! 0%nat = Some [1; 0]
  ∧ length [("C1", 2)] = Nat.min (Z.to_nat 1) (length (CF.item_factors masked_cf)).
Proof.
  assert (H1 : student_to_idx (CF.preprocessor masked_cf) !! "u" = Some 0%nat)
    by reflexivity.
  assert (H2 : CF.interaction_matrix masked_cf !! 0%nat = Some [1; 0]) by reflexivity.
  assert (H3 : CF.recommend masked_cf "u" 1 = Ok [("C1", 2)])
    by (vm_compute; reflexivity).
  split; [exact H3|]. split; [exact H1|]. split; [exact H2|].
  exact (proj1 (proj2 (cf_recommend_shape masked_cf "u" 1 [("C1", 2)] H3)
                  0%nat [1; 0] H1 H2 ltac:(lia))).
Defined.

(** ** utils.py: curriculum progress and comparison of students *)

Lemma ratio_bounds (a b : nat) :
  (a ≤ b)%nat → (0 < b)%nat →
  0 <= inject_Z (Z.of_nat a) / inject_Z (Z.of_nat b)
  ∧ inject_Z (Z.of_nat a) / inject_Z (Z.of_nat b) <= 1.
Proof.
  intros Hab Hb.
  assert (0 < inject_Z (Z.of_nat b)) as Hb'.
  { change 0 with (inject_Z 0). rewrite <- Zlt_Qlt. lia. }
  assert (0 <= inject_Z (Z.of_nat a)) as Ha'.
  { change 0 with (inject_Z 0). rewrite <- Zle_Qle. lia. }
  assert (inject_Z (Z.of_nat a) <= inject_Z (Z.of_nat b)) as Hab'.
  { rewrite <- Zle_Qle. lia. }
  split.
  - apply Qle_shift_div_l; [done|]. lra.
  - apply Qle_shift_div_r; [done|]. lra.
Qed.

(** X20. The curriculum progress splits the obligatory courses into passed,
    failed and pending: the three counts add up to the total, the percentage
    lies between 0 and 100, and with the orchestrator's obligatory set and
    threshold 10 the failed and pending lists are the first two tiers of the
    recommender. *)
Theorem get_curriculum_progress_partition dl sid obl t :
  let cp := get_curriculum_progress dl sid obl t in
  (obligatory_passed cp + obligatory_failed cp + obligatory_pending cp
   = total_obligatory cp)%nat
  ∧ 0 <= progress_percentage cp ∧ progress_percentage cp <= 100
  ∧ (∀ code, code ∈ failed_list (get_curriculum_progress dl sid OBLIGATORY_COURSES 10)
             ↔ code ∈ failed_courses dl sid)
  ∧ (∀ code, code ∈ pending_list (get_curriculum_progress dl sid OBLIGATORY_COURSES 10)
             ↔ code ∈ not_taken_obligatory dl sid).
Proof.
  simpl.
  set (passed := list_to_set (passed_courses (get_student_history dl sid t))
                 : gset string).
  set (taken := list_to_set (all_courses (get_student_history dl sid t))
                : gset string).
  assert (passed ⊆ taken) as Hsub.
  { intros c. unfold passed, taken. rewrite !elem_of_list_to_set.
    apply passed_courses_taken. }
  assert (obl = (passed ∩ obl) ∪ ((taken ∖ passed) ∩ obl) ∪ (obl ∖ taken)) as Hsplit.
  { apply set_eq. intros c. specialize (Hsub c).
    rewrite !elem_of_union, !elem_of_intersection, !elem_of_difference.
    destruct (decide (c ∈ passed)), (decide (c ∈ taken)); tauto. }
  assert (size (passed ∩ obl) ≤ size obl)%nat as Hle.
  { apply subseteq_size. intros c. rewrite elem_of_intersection. tauto. }
  split; [|split; [|split; [|split]]].
  - transitivity (size ((passed ∩ obl) ∪ ((taken ∖ passed) ∩ obl) ∪ (obl ∖ taken)));
      [|by rewrite <- Hsplit].
    rewrite (size_union (_ ∪ _) (obl ∖ taken)), (size_union (passed ∩ obl)); [done| |].
    + apply elem_of_disjoint. intros c.
      rewrite !elem_of_intersection, !elem_of_difference. tauto.
    + apply elem_of_disjoint. intros c. specialize (Hsub c).
      rewrite !elem_of_union, !elem_of_intersection, !elem_of_difference. tauto.
  - case_decide as Hpos; [|lra].
    destruct (ratio_bounds (size (passed ∩ obl)) (size obl)) as [H0 H1]; [done|done|].
    apply Qmult_le_0_compat; [done|lra].
  - case_decide as Hpos; [|lra].
    destruct (ratio_bounds (size (passed ∩ obl)) (size obl)) as [H0 H1]; [done|done|].
    set (r := _ / _) in *. lra.
  - intros code. by rewrite elem_of_elements.
  - intros code. by rewrite elem_of_elements.
Qed.


(** ** recommend.py: the explanation of a recommendation *)

Lemma attach_Ok_reasons self sid item r :
  attach self sid item = Ok r →
  let code := item_course_code item in
  content_similarity (rec_reasons r) = compute_similarity (content_model self) sid code
  ∧ KG.get_course_neighbors (kg_builder self) code 3 = Ok (kg_neighbors (rec_reasons r))
  ∧ CF.predict_score (cf_model self) sid code = Ok (collaborative_score (rec_reasons r))
  ∧ lineas_performance (rec_reasons r) = calcular_peso_lineas self sid code
  ∧ prerequisites (rec_reasons r) = declared_prereqs (data_loader self) code
  ∧ prerequisites_met (rec_reasons r) = cumple_prereqs self sid code.
Proof.
  unfold attach, explain_recommendation. intros H.
  destruct (KG.get_course_neighbors _ _ _) as [nb|]; simpl in H; [|discriminate].
  destruct (CF.predict_score _ _ _) as [cf|]; simpl in H; [|discriminate].
  injection H as <-. done.
Qed.

(** X22. The explanation attached to a recommendation agrees with the
    ranking: it says that the prerequisites are met, lists the declared
    prerequisites of the course, reports the track weight that entered the
    score, the score of the collaborative filter for the pair, and at most
    three related courses. *)
Theorem recomendar_cursos_reasons self sid top_k recs r :
  recomendar_cursos self sid top_k = Ok recs → r ∈ recs →
  let code := rec_course_code r in
  prerequisites_met (rec_reasons r) = true
  ∧ prerequisites (rec_reasons r) = declared_prereqs (data_loader self) code
  ∧ lineas_performance (rec_reasons r) = calcular_peso_lineas self sid code
  ∧ CF.predict_score (cf_model self) sid code = Ok (collaborative_score (rec_reasons r))
  ∧ content_similarity (rec_reasons r) = compute_similarity (content_model self) sid code
  ∧ (length (kg_neighbors (rec_reasons r)) ≤ 3)%nat.
Proof.
  intros Hrec Hr.
  destruct (recomendar_cursos_elem _ _ _ _ _ Hrec Hr) as (item & Hs & _ & Hatt).
  pose proof (attach_Ok _ _ _ _ Hatt) as (Hcode & _).
  apply attach_Ok_reasons in Hatt. cbv zeta in Hatt. rewrite <- Hcode in Hatt.
  destruct Hatt as (H1 & H2 & H3 & H4 & H5 & H6).
  apply score_candidate_Some in Hs as (_ & Hpre & _).
  cbv zeta. split; [by rewrite H6|]. do 4 (split; [done|]).
  unfold KG.get_course_neighbors in H2.
  destruct (KG.successors _ _) as [nb|]; simpl in H2; [|discriminate].
  destruct (for_each _ _ _) as [acc|]; simpl in H2; [|discriminate].
  injection H2 as <-.
  match goal with
  | |- context [length (py_slice_to 3 ?l)] =>
      pose proof (py_slice_to_length 3 l ltac:(lia))
  end. lia.
Qed.

Lemma recomendar_cursos_reasons_witness :
  recomendar_cursos sample_recommender "s1" 3 = Ok sample_recs
  ∧ ∃ r, sample_recs !! 0%nat = Some r
         ∧ prerequisites_met (rec_reasons r) = true
         ∧ lineas_performance (rec_reasons r)
           = calcular_peso_lineas sample_recommender "s1" (rec_course_code r).
Proof.
  split; [exact sample_run|].
  eexists. split; [reflexivity|].
  match goal with
  | |- prerequisites_met (rec_reasons ?r) = true ∧ _ =>
      destruct (recomendar_cursos_reasons sample_recommender "s1" 3 sample_recs r
                  sample_run) as (H1 & _ & H3 & _)
  end.
  - apply list_elem_of_lookup. by exists 0%nat.
  - split; [exact H1|exact H3].
Defined.

(** ** data_loader.py: prerequisite chains *)

Lemma size_list_to_set_le (l : list string) :
  (size (list_to_set l : gset string) ≤ length l)%nat.
Proof.
  induction l as [|x l IH].
  - by rewrite list_to_set_nil, size_empty.
  - rewrite list_to_set_cons, size_union_alt, size_singleton. cbn [length].
    pose proof (subseteq_size (list_to_set l ∖ {[x]}) (list_to_set l : gset string)
                  ltac:(intros y Hy; apply elem_of_difference in Hy; tauto)).
    lia.
Qed.

Lemma elem_of_concat {A} (x : A) (ls : list (list A)) :
  x ∈ concat ls ↔ ∃ l, x ∈ l ∧ l ∈ ls.
Proof.
  induction ls as [|l ls IH]; simpl.
  - split; [by intros ?%elem_of_nil|by intros (l & _ & ?%elem_of_nil)].
  - rewrite elem_of_app, IH. split.
    + intros [H|(l' & H1 & H2)]; [exists l; split; [done|left]|].
      exists l'. split; [done|by right].
    + intros (l' & H1 & H2). apply elem_of_cons in H2 as [->|H2]; [by left|].
      right. by exists l'.
Qed.

Lemma get_course_info_catalog dl code info :
  get_course_info dl code = Some info → code ∈ get_all_courses dl.
Proof.
  unfold get_course_info, get_all_courses.
  destruct (filter _ _) as [|c cs] eqn:Hf; [done|]. intros _.
  assert (c ∈ filter (λ c, course_code c = code) (courses dl)) as Hc
    by (rewrite Hf; left).
  apply list_elem_of_filter in Hc as [<- Hc].
  apply list_elem_of_fmap. by exists c.
Qed.

Lemma linked_snoc dl chain prereq code :
  linked dl chain → last chain = Some prereq →
  prereq ∈ declared_prereqs dl code → linked dl (chain ++ [code]).
Proof.
  intros Hl Hlast Hp i a b Ha Hb.
  destruct (decide (S i < length chain)%nat) as [Hi|Hi].
  - rewrite lookup_app_l in Ha by lia. rewrite lookup_app_l in Hb by lia. eauto.
  - assert (is_Some ((chain ++ [code]) !! S i)) as Hs by eauto.
    apply lookup_lt_is_Some in Hs. rewrite length_app in Hs. simpl in Hs.
    assert (S i = length chain) as Hi' by lia.
    rewrite Hi', lookup_app_r, Nat.sub_diag in Hb by lia. injection Hb as <-.
    rewrite lookup_app_l in Ha by lia.
    rewrite last_lookup, <- Hi' in Hlast. simpl in Hlast. congruence.
Qed.

Lemma singleton_chain_ok dl visited code :
  code ∉ visited →
  (∀ p, p ∈ declared_prereqs dl code → p = code ∨ p ∈ visited) →
  chains_ok dl visited code [[code]].
Proof.
  intros Hv Hp. split; [done|]. split; [done|].
  intros chain Hc. apply list_elem_of_singleton in Hc as ->.
  split; [done|]. split; [apply NoDup_singleton|].
  split; [by intros x ->%list_elem_of_singleton|].
  split; [by intros [|i] a b Ha Hb|].
  intros h p [= <-] Hin. destruct (Hp p Hin) as [->|]; [left; left|by right].
Qed.

Lemma get_prereqs_recursive_spec dl fuel : ∀ code visited,
  (size (list_to_set (get_all_courses dl) ∖ visited : gset string) < fuel)%nat →
  ∃ r, get_prereqs_recursive fuel dl code visited = Some r
       ∧ chains_ok dl visited code r.
Proof.
  induction fuel as [|fuel IH]; intros code visited Hsize; [lia|].
  cbn [get_prereqs_recursive]. case_decide as Hv.
  { exists []. split; [done|]. split; [done|]. split; [done|].
    by intros chain ?%elem_of_nil. }
  cbv zeta. destruct (get_course_info dl code) as [info|] eqn:Hinfo.
  2:{ eexists. split; [done|]. apply singleton_chain_ok; [done|].
      unfold declared_prereqs. rewrite Hinfo. by intros p ?%elem_of_nil. }
  destruct (prereq_codes info) as [|p0 ps] eqn:Hps; cbn [is_nil].
  { eexists. split; [done|]. apply singleton_chain_ok; [done|].
    unfold declared_prereqs. rewrite Hinfo, Hps. by intros p ?%elem_of_nil. }
  assert (declared_prereqs dl code = p0 :: ps) as Hdecl
    by (unfold declared_prereqs; by rewrite Hinfo).
  rewrite <- Hdecl. clear Hps.
  assert (size (list_to_set (get_all_courses dl) ∖ ({[code]} ∪ visited) : gset string)
          < fuel)%nat as Hsize'.
  { eapply Nat.lt_le_trans; [|apply PeanoNat.lt_n_Sm_le, Hsize].
    apply subset_size. split.
    - intros x. rewrite !elem_of_difference, elem_of_union. tauto.
    - intros Hsub. specialize (Hsub code).
      rewrite !elem_of_difference, elem_of_union, elem_of_singleton in Hsub.
      apply get_course_info_catalog in Hinfo.
      rewrite elem_of_list_to_set in Hsub. tauto. }
  destruct (mapM_is_Some_2
              (λ prereq, get_prereqs_recursive fuel dl prereq ({[code]} ∪ visited))
              (declared_prereqs dl code)) as [subs Hsubs].
  { apply Forall_forall. intros p _.
    destruct (IH p _ Hsize') as (r & Hr & _). exists r. exact Hr. }
  rewrite Hsubs. cbn [mbind option_bind]. eexists. split; [done|].
  apply mapM_Some_1 in Hsubs.
  assert (∀ sub, sub ∈ concat subs →
            ∃ p r, p ∈ declared_prereqs dl code
                   ∧ chains_ok dl ({[code]} ∪ visited) p r ∧ sub ∈ r) as Hsub.
  { intros sub Hin. apply elem_of_concat in Hin as (r & Hin & Hr).
    apply list_elem_of_lookup in Hr as [i Hi].
    destruct (Forall2_lookup_r _ _ _ _ _ Hsubs Hi) as (p & Hp & Hrun).
    destruct (IH p _ Hsize') as (r' & Hrun' & Hok).
    rewrite Hrun in Hrun'. injection Hrun' as <-.
    exists p, r. split; [by eapply list_elem_of_lookup_2|done]. }
  destruct (concat subs) as [|s0 ss] eqn:Hcat; cbn [fmap list_fmap is_nil].
  { apply singleton_chain_ok; [done|]. intros p Hp.
    apply list_elem_of_lookup in Hp as [i Hi].
    destruct (Forall2_lookup_l _ _ _ _ _ Hsubs Hi) as (r & Hr & Hrun).
    destruct (IH p _ Hsize') as (r' & Hrun' & Hin & Hout & _).
    rewrite Hrun in Hrun'. injection Hrun' as <-.
    destruct r as [|c r].
    - destruct (decide (p ∈ ({[code]} ∪ visited : gset string))) as [Hpv|Hpv].
      + apply elem_of_union in Hpv as [->%elem_of_singleton|]; tauto.
      + by destruct (Hout Hpv).
    - exfalso. assert (c ∈ concat subs) as Hc.
      { apply elem_of_concat. exists (c :: r). split; [left|].
        by eapply list_elem_of_lookup_2. }
      rewrite Hcat in Hc. by apply elem_of_nil in Hc. }
  split; [done|]. split; [done|].
  intros chain Hchain.
  change ((s0 ++ [code]) :: ((λ chain, chain ++ [code]) <$> ss))
    with ((λ chain, chain ++ [code]) <$> (s0 :: ss)) in Hchain.
  apply list_elem_of_fmap in Hchain as (sub & -> & Hin).
  destruct (Hsub sub Hin) as (p & r & Hp & (_ & _ & Hok) & Hr).
  destruct (Hok sub Hr) as (Hlast & Hnd & Hfresh & Hlink & Hhead).
  split; [apply last_snoc|].
  assert (∀ x, x ∈ sub → x ≠ code ∧ x ∉ visited) as Hfresh'.
  { intros x Hx. specialize (Hfresh x Hx).
    rewrite elem_of_union, elem_of_singleton in Hfresh. tauto. }
  split.
  { apply NoDup_app. split; [done|]. split; [|apply NoDup_singleton].
    intros x Hx ->%list_elem_of_singleton. by destruct (Hfresh' code Hx). }
  split.
  { intros x [Hx| ->%list_elem_of_singleton]%elem_of_app; [|done].
    by destruct (Hfresh' x Hx). }
  split; [by eapply linked_snoc|].
  intros h q Hh Hq. destruct sub as [|h' sub']; [done|].
  simpl in Hh. injection Hh as <-.
  destruct (Hhead h' q eq_refl Hq) as [Hin'|Hin'].
  - left. apply elem_of_app. by left.
  - apply elem_of_union in Hin' as [->%elem_of_singleton|]; [|by right].
    left. apply elem_of_app. right. left.
Qed.

(** X23. [get_prerequisite_chain] returns for every catalog, also one whose
    prerequisites form a cycle, and the result is not empty.  Every chain
    ends in the course asked for, repeats no course, goes from each course
    to one that declares it as a prerequisite, and starts at a course all of
    whose declared prerequisites lie on the chain itself (none, when the
    course declares none). *)
Theorem get_prerequisite_chain_spec dl code :
  ∃ chains, get_prerequisite_chain dl code = Some chains ∧ chains ≠ [] ∧
    ∀ chain, chain ∈ chains →
      last chain = Some code ∧ NoDup chain ∧ linked dl chain ∧
      ∀ h p, head chain = Some h → p ∈ declared_prereqs dl h → p ∈ chain.
Proof.
  destruct (get_prereqs_recursive_spec dl (S (length (courses dl))) code ∅)
    as (r & Hrun & _ & Hne & Hok).
  { eapply Nat.le_lt_trans; [apply subseteq_size|].
    - intros x Hx. apply elem_of_difference in Hx. exact (proj1 Hx).
    - eapply Nat.le_lt_trans; [apply size_list_to_set_le|].
      unfold get_all_courses. rewrite length_fmap. lia. }
  exists r. split; [exact Hrun|]. split; [by apply Hne|].
  intros chain Hc. destruct (Hok chain Hc) as (H1 & H2 & _ & H4 & H5).
  do 3 (split; [done|]). intros h p Hh Hp.
  destruct (H5 h p Hh Hp) as [|Hin]; [done|]. by apply elem_of_empty in Hin.
Qed.

(** ** preprocess.py: the interaction matrix *)

Lemma value_to_index_dom {A} `{Countable A} (l : list A) (x : A) :
  is_Some (foldl (λ m '(idx, x), <[x := idx]> m) (∅ : gmap A nat) (enumerate l) !! x)
  ↔ x ∈ l.
Proof.
  induction l as [|y l IH] using rev_ind.
  - simpl. rewrite lookup_empty. split; [by intros [? ?]|by intros ?%elem_of_nil].
  - rewrite enumerate_snoc, foldl_snoc, elem_of_app, list_elem_of_singleton.
    destruct (decide (x = y)) as [->|Hne].
    + rewrite lookup_insert_eq. split; [by right|by eauto].
    + rewrite lookup_insert_ne by done. rewrite IH. tauto.
Qed.

Lemma value_to_index_size {A} `{Countable A} (l : list A) :
  size (foldl (λ m '(idx, x), <[x := idx]> m) (∅ : gmap A nat) (enumerate l))
  = size (list_to_set l : gset A).
Proof.
  rewrite <- size_dom. f_equal. apply set_eq. intros x.
  rewrite elem_of_dom, elem_of_list_to_set. apply value_to_index_dom.
Qed.

Lemma entry_alter matrix i j i' j' :
  entry (alter (alter (λ v, v + 1) j) i matrix) i' j' =
  if decide (i = i' ∧ j = j') then (λ v, v + 1) <$> entry matrix i' j'
  else entry matrix i' j'.
Proof.
  unfold entry. destruct (decide (i = i')) as [->|Hi].
  - rewrite list_lookup_alter_eq. destruct (matrix !! i') as [row|]; simpl.
    + destruct (decide (j = j')) as [->|Hj].
      * rewrite list_lookup_alter_eq. by rewrite decide_True.
      * rewrite list_lookup_alter_ne by done. rewrite decide_False; [done|tauto].
    + by case_decide.
  - rewrite list_lookup_alter_ne by done. rewrite decide_False; [done|tauto].
Qed.

Lemma csr_matrix_Ok n_rows n_cols entries :
  (∀ i j, (i, j) ∈ entries → (i < n_rows ∧ j < n_cols)%nat) →
  ∃ matrix, csr_matrix n_rows n_cols entries = Ok matrix
    ∧ length matrix = n_rows
    ∧ (∀ row, row ∈ matrix → length row = n_cols)
    ∧ ∀ i j, (i < n_rows)%nat → (j < n_cols)%nat →
        ∃ v, entry matrix i j = Some v
             ∧ v == inject_Z (Z.of_nat (length (filter (λ p, p = (i, j)) entries))).
Proof.
  unfold csr_matrix. intros Hin.
  set (f := λ (matrix : list (list Q)) '(i, j),
              if decide (i < n_rows ∧ j < n_cols)%nat
              then Ok (alter (alter (λ v, v + 1) j) i matrix)
              else Raise ValueError).
  assert (∀ entries m0,
            (∀ i j, (i, j) ∈ entries → (i < n_rows ∧ j < n_cols)%nat) →
            length m0 = n_rows → (∀ row, row ∈ m0 → length row = n_cols) →
            ∃ matrix, for_each f m0 entries = Ok matrix
              ∧ length matrix = n_rows
              ∧ (∀ row, row ∈ matrix → length row = n_cols)
              ∧ ∀ i j v0, entry m0 i j = Some v0 →
                  ∃ v, entry matrix i j = Some v
                       ∧ v == v0 + inject_Z (Z.of_nat
                                   (length (filter (λ p, p = (i, j)) entries))))
    as Hgen.
  { clear entries Hin. intros entries.
    induction entries as [|[i j] entries IH]; intros m0 Hin Hlen Hrows.
    - exists m0. split; [done|]. split; [done|]. split; [done|].
      intros i j v0 Hv. exists v0. split; [done|].
      symmetry. apply Qplus_0_r.
    - change (for_each f m0 ((i, j) :: entries))
        with (f m0 (i, j) ≫= λ s', for_each f s' entries).
      assert (f m0 (i, j) = Ok (alter (alter (λ v, v + 1) j) i m0)) as ->.
      { unfold f. cbv beta iota. rewrite decide_True; [done|]. apply Hin. left. }
      simpl.
      destruct (IH (alter (alter (λ v, v + 1) j) i m0)) as (m & Hrun & Hl & Hr & He).
      + intros i' j' H'. apply Hin. by right.
      + by rewrite length_alter.
      + intros row Hrow. apply list_elem_of_lookup in Hrow as [k Hk].
        destruct (decide (i = k)) as [->|Hne].
        * rewrite list_lookup_alter_eq in Hk.
          destruct (m0 !! k) as [row0|] eqn:Hrow0; [|done].
          injection Hk as <-. rewrite length_alter. apply Hrows.
          by eapply list_elem_of_lookup_2.
        * rewrite list_lookup_alter_ne in Hk by done. apply Hrows.
          by eapply list_elem_of_lookup_2.
      + exists m. split; [exact Hrun|]. split; [done|]. split; [done|].
        intros i' j' v0 Hv0.
        destruct (decide (i = i' ∧ j = j')) as [[-> ->]|Hne].
        * destruct (He i' j' (v0 + 1)) as (v & Hv & Heq).
          { rewrite entry_alter, decide_True by done. by rewrite Hv0. }
          exists v. split; [done|]. rewrite Heq.
          rewrite filter_cons_True by done. cbn [length].
          rewrite Nat2Z.inj_succ. unfold Z.succ. rewrite inject_Z_plus.
          change (inject_Z 1) with 1. lra.
        * destruct (He i' j' v0) as (v & Hv & Heq).
          { rewrite entry_alter, decide_False by done. done. }
          exists v. split; [done|]. rewrite Heq.
          rewrite filter_cons_False; [done|]. intros [= -> ->]. tauto. }
  destruct (Hgen entries (replicate n_rows (zeros n_cols)) Hin) as (m & Hrun & Hl & Hr & He).
  { apply length_replicate. }
  { intros row [-> _]%elem_of_replicate. apply length_replicate. }
  exists m. split; [exact Hrun|]. split; [done|]. split; [done|].
  intros i j Hi Hj. destruct (He i j 0) as (v & Hv & Heq).
  { unfold entry. rewrite lookup_replicate_2 by done. simpl.
    unfold zeros. by rewrite lookup_replicate_2. }
  exists v. split; [done|]. rewrite Heq. lra.
Qed.

Lemma index_pair_lookup dl r i j :
  NoDup (get_all_courses dl) →
  (student_idx ← student_to_idx (build_indices dl) !! alumno r;
   course_idx ← course_to_idx (build_indices dl) !! taken_code r;
   Some (student_idx, course_idx)) = Some (i, j)
  ↔ get_all_students dl !! i = Some (alumno r)
    ∧ get_all_courses dl !! j = Some (taken_code r).
Proof.
  intros Hnd.
  pose proof (value_to_index_lookup (get_all_students dl) (alumno r) i
                (get_all_students_NoDup dl)) as H1.
  pose proof (value_to_index_lookup (get_all_courses dl) (taken_code r) j Hnd) as H2.
  simpl. rewrite <- H1, <- H2.
  destruct (foldl _ _ _ !! alumno r) as [a|]; simpl; [|split; [done|by intros [? _]]].
  destruct (foldl _ _ _ !! taken_code r) as [b|]; simpl;
    [|split; [done|by intros [_ ?]]].
  split; [by intros [= -> ->]|by intros [[= ->] [= ->]]].
Qed.

Lemma index_pairs_count dl t i j s c :
  NoDup (get_all_courses dl) →
  get_all_students dl !! i = Some s → get_all_courses dl !! j = Some c →
  length (filter (λ p, p = (i, j)) (index_pairs (build_indices dl) dl t))
  = length (passing_records dl s c t).
Proof.
  intros Hnd Hs Hc. unfold index_pairs, passing_records.
  pose proof (index_pair_lookup dl) as Hg.
  set (g := λ r : taken_row,
              student_idx ← student_to_idx (build_indices dl) !! alumno r;
              course_idx ← course_to_idx (build_indices dl) !! taken_code r;
              Some (student_idx, course_idx)) in *.
  induction (courses_taken dl) as [|r l IH]; [done|].
  rewrite !filter_cons.
  destruct (decide (Qle_bool t (grade r) = true)) as [Ht|Ht].
  2:{ rewrite decide_False by tauto. exact IH. }
  cbn [omap list_omap].
  destruct (g r) as [[i' j']|] eqn:Hgr.
  - unfold g in Hgr. apply Hg in Hgr as [Hi Hj]; [|done]. rewrite filter_cons.
    destruct (decide ((i', j') = (i, j))) as [[= -> ->]|Hne].
    + rewrite decide_True by (split; [congruence|split; [congruence|done]]).
      cbn [length]. f_equal. exact IH.
    + rewrite decide_False; [exact IH|]. intros (Ha & Hb & _). apply Hne.
      f_equal.
      * eapply NoDup_lookup; [apply get_all_students_NoDup|exact Hi|].
        by rewrite Ha.
      * eapply NoDup_lookup; [exact Hnd|exact Hj|]. by rewrite Hb.
  - rewrite decide_False; [exact IH|]. intros (Ha & Hb & _).
    assert (g r = Some (i, j)) as Hgr'
      by (unfold g; apply Hg; [done|]; by rewrite Ha, Hb).
    congruence.
Qed.

Lemma index_pairs_bounds dl t i j :
  NoDup (get_all_courses dl) →
  (i, j) ∈ index_pairs (build_indices dl) dl t →
  (i < length (get_all_students dl) ∧ j < length (get_all_courses dl))%nat.
Proof.
  intros Hnd Hin. unfold index_pairs in Hin.
  apply list_elem_of_omap in Hin as (r & _ & Hr).
  apply index_pair_lookup in Hr as [Hi Hj]; [|done].
  split; by eapply lookup_lt_Some.
Qed.

(** X24. On a catalog without duplicate codes, the interaction matrix built
    over the preprocessor's own indices has one row per student and one
    column per catalog course, and the entry of a student and a course is the
    number of the student's records of that course with a grade of at least
    the threshold: 0 when the course was not passed, and more than 1 when it
    was passed more than once. *)
Theorem build_interaction_matrix_counts dl t :
  NoDup (get_all_courses dl) →
  ∃ matrix, build_interaction_matrix (build_indices dl) dl t = Ok matrix
    ∧ length matrix = length (get_all_students dl)
    ∧ (∀ row, row ∈ matrix → length row = length (get_all_courses dl))
    ∧ ∀ i j s c,
        get_all_students dl !! i = Some s → get_all_courses dl !! j = Some c →
        ∃ v, entry matrix i j = Some v
             ∧ v == inject_Z (Z.of_nat (length (passing_records dl s c t))).
Proof.
  intros Hnd.
  assert (size (student_to_idx (build_indices dl)) = length (get_all_students dl))
    as Hns.
  { simpl. rewrite value_to_index_size.
    apply size_list_to_set, get_all_students_NoDup. }
  assert (size (course_to_idx (build_indices dl)) = length (get_all_courses dl))
    as Hnc.
  { simpl. rewrite value_to_index_size. by apply size_list_to_set. }
  destruct (csr_matrix_Ok (length (get_all_students dl)) (length (get_all_courses dl))
              (index_pairs (build_indices dl) dl t))
    as (m & Hrun & Hl & Hr & He).
  { intros i j. by apply index_pairs_bounds. }
  exists m. split.
  { unfold build_interaction_matrix. cbv zeta. rewrite Hns, Hnc.
    destruct (index_pairs _ _ _) eqn:Hp; cbn [is_nil]; [|exact Hrun].
    rewrite <- Hrun. done. }
  split; [done|]. split; [done|].
  intros i j s c Hs Hc.
  destruct (He i j) as (v & Hv & Heq); [by eapply lookup_lt_Some..|].
  exists v. split; [done|]. rewrite Heq.
  by rewrite (index_pairs_count dl t i j s c).
Qed.

Lemma build_interaction_matrix_counts_witness :
  NoDup (get_all_courses sample_loader)
  ∧ ∃ matrix, build_interaction_matrix (build_indices sample_loader) sample_loader 11
              = Ok matrix
              ∧ length matrix = length (get_all_students sample_loader).
Proof.
  assert (Hnd : NoDup (get_all_courses sample_loader))
    by (apply (bool_decide_unpack _); vm_compute; exact I).
  split; [exact Hnd|].
  destruct (build_interaction_matrix_counts sample_loader 11 Hnd)
    as (m & Hrun & Hl & _).
  exists m. split; [exact Hrun|exact Hl].
Defined.

(** ** content_model.py: recommend *)

Lemma score_desc_total (x y : string * Q) :
  Qle_bool y.2 x.2 = false → Qle_bool x.2 y.2 = true.
Proof.
  intros H. apply Qle_bool_iff. destruct (Qlt_le_dec x.2 y.2) as [Hlt|Hle]; [lra|].
  apply Qle_bool_iff in Hle. congruence.
Qed.

Lemma score_desc_trans (x y z : string * Q) :
  Qle_bool y.2 x.2 = true → Qle_bool z.2 y.2 = true → Qle_bool z.2 x.2 = true.
Proof. rewrite !Qle_bool_iff. lra. Qed.

(** X26. The content model's [recommend] returns the best candidates: the
    pairs are candidates with their similarity, in non-increasing order of
    similarity; for [top_k >= 0] there are [min top_k (len candidates)] of
    them, and a candidate whose pair is left out has a similarity no greater
    than that of any pair returned. *)
Theorem content_recommend_best cb sid candidates top_k :
  let recs := CB.recommend cb sid candidates top_k in
  (∀ course score, (course, score) ∈ recs →
     course ∈ candidates ∧ score = compute_similarity cb sid course)
  ∧ (∀ i j a b, (i < j)%nat → recs !! i = Some a → recs !! j = Some b → b.2 <= a.2)
  ∧ ((0 ≤ top_k)%Z →
     length recs = Nat.min (Z.to_nat top_k) (length candidates)
     ∧ ∀ course a, course ∈ candidates → a ∈ recs →
         (course, compute_similarity cb sid course) ∉ recs →
         compute_similarity cb sid course <= a.2).
Proof.
  intros recs. unfold CB.recommend in recs.
  set (scores := (λ course, (course, compute_similarity cb sid course)) <$> candidates)
    in *.
  set (L := py_sort (λ x y : string * Q, Qle_bool y.2 x.2) scores) in *.
  assert (L ≡ₚ scores) as Hperm by apply py_sort_perm.
  assert (StronglySorted (λ a b : string * Q, Qle_bool b.2 a.2 = true) L) as Hsorted.
  { apply py_sort_sorted.
    - intros x y. apply score_desc_total.
    - intros x y z. apply score_desc_trans. }
  destruct (py_slice_to_take top_k L) as [n Hn]. fold recs in Hn.
  split; [|split].
  - intros course score Hin. rewrite Hn in Hin.
    apply elem_of_take in Hin as (i & Hi & _).
    apply list_elem_of_lookup_2 in Hi. rewrite Hperm in Hi.
    apply list_elem_of_fmap in Hi as (c & [= -> ->] & Hc). done.
  - intros i j a b Hij Ha Hb. rewrite Hn in Ha, Hb.
    apply lookup_take_Some in Ha as [Ha _]. apply lookup_take_Some in Hb as [Hb _].
    apply Qle_bool_iff.
    exact (StronglySorted_lookup_lt _ L i j a b Hsorted Hij Ha Hb).
  - intros Hk.
    assert (recs = take (Z.to_nat top_k) L) as Hrecs.
    { unfold recs, py_slice_to. destruct (Z.leb_spec 0 top_k); [done|lia]. }
    assert (length L = length candidates) as HL.
    { rewrite Hperm. unfold scores. by rewrite length_fmap. }
    split; [by rewrite Hrecs, length_take, HL|].
    intros course a Hc Ha Hout. rewrite Hrecs in Ha, Hout.
    apply elem_of_take in Ha as (i & Hi & Hik).
    assert ((course, compute_similarity cb sid course) ∈ L) as Hin.
    { rewrite Hperm. unfold scores. apply list_elem_of_fmap. by exists course. }
    apply list_elem_of_lookup in Hin as [j Hj].
    assert (Z.to_nat top_k ≤ j)%nat as Hjk.
    { destruct (decide (j < Z.to_nat top_k)%nat) as [Hlt|]; [|lia].
      exfalso. apply Hout. apply elem_of_take. by exists j. }
    apply Qle_bool_iff.
    apply (StronglySorted_lookup_lt _ L i j a (course, compute_similarity cb sid course)
             Hsorted); [lia|done|done].
Qed.

Lemma content_recommend_best_witness :
  (0 ≤ 1)%Z
  ∧ length (CB.recommend (content_model sample_recommender) "s1" ["BAE01"; "BFI05"] 1)
    = Nat.min (Z.to_nat 1) (length ["BAE01"; "BFI05"]).
Proof.
  assert (H0 : (0 ≤ 1)%Z) by lia.
  split; [exact H0|].
  destruct (content_recommend_best (content_model sample_recommender) "s1"
              ["BAE01"; "BFI05"] 1) as (_ & _ & H).
  exact (proj1 (H H0)).
Defined.

(** ** data_loader.py: statistics of a course *)

Lemma inject_nat_pos (n : nat) : (0 < n)%nat → 0 < inject_Z (Z.of_nat n).
Proof. intros Hn. change 0 with (inject_Z 0). rewrite <- Zlt_Qlt. lia. Qed.

Lemma Qle_div_mult (a b c : Q) : 0 < c → a <= b / c → a * c <= b.
Proof.
  intros Hc H. apply (Qmult_le_compat_r _ _ c) in H; [|lra].
  assert (b / c * c == b) as Heq by (field; lra). by rewrite Heq in H.
Qed.

Lemma Qlt_div_mult (a b c : Q) : 0 < c → b / c < a → b < a * c.
Proof.
  intros Hc H. apply (Qmult_lt_compat_r _ _ c) in H; [|done].
  assert (b / c * c == b) as Heq by (field; lra). by rewrite Heq in H.
Qed.

(** A mean of at least [a] needs an entry of at least [a], and a mean below
    [a] an entry below [a]. *)
Lemma py_sum_some_ge (a : Q) (l : list Q) :
  l ≠ [] → a * inject_Z (Z.of_nat (length l)) <= py_sum l → ∃ x, x ∈ l ∧ a <= x.
Proof.
  induction l as [|x l IH]; [done|]. intros _ Hsum.
  destruct (Qlt_le_dec x a) as [Hlt|Hle]; [|exists x; split; [left|done]].
  rewrite py_sum_cons, inject_length_cons in Hsum.
  destruct l as [|y l].
  - exfalso. change (py_sum []) with 0 in Hsum.
    change (inject_Z (Z.of_nat (length (@nil Q)))) with 0 in Hsum. lra.
  - destruct IH as (z & Hz & Haz); [done|lra|].
    exists z. split; [by right|done].
Qed.

Lemma py_sum_some_lt (a : Q) (l : list Q) :
  l ≠ [] → py_sum l < a * inject_Z (Z.of_nat (length l)) → ∃ x, x ∈ l ∧ x < a.
Proof.
  induction l as [|x l IH]; [done|]. intros _ Hsum.
  destruct (Qlt_le_dec x a) as [Hlt|Hle]; [exists x; split; [left|done]|].
  rewrite py_sum_cons, inject_length_cons in Hsum.
  destruct l as [|y l].
  - exfalso. change (py_sum []) with 0 in Hsum.
    change (inject_Z (Z.of_nat (length (@nil Q)))) with 0 in Hsum. lra.
  - destruct IH as (z & Hz & Haz); [done|lra|].
    exists z. split; [by right|done].
Qed.

(** X27. [get_course_statistics] counts records, not students: a student
    who took the course twice is counted twice, so [num_students] is at
    least the number of different students with a record of the course.  The
    pass rate lies between 0 and 100.  The difficulty is 'N/A' exactly when
    no record names the course; 'Fácil' needs a record with a grade of at
    least 14, and 'Difícil' one with a grade below 11. *)
Theorem get_course_statistics_spec dl code :
  let st := get_course_statistics dl code in
  let records := filter (λ r, taken_code r = code) (courses_taken dl) in
  cs_num_students st = length records
  ∧ (∀ t, length (get_students_who_took_course dl code t) ≤ cs_num_students st)%nat
  ∧ 0 <= cs_pass_rate st ∧ cs_pass_rate st <= 100
  ∧ (cs_difficulty st = NotAvailable ↔ records = [])
  ∧ (cs_difficulty st = Facil → ∃ r, r ∈ records ∧ 14 <= grade r)
  ∧ (cs_difficulty st = Dificil → ∃ r, r ∈ records ∧ grade r < 11).
Proof.
  intros st records.
  assert (∀ t, length (get_students_who_took_course dl code t) ≤ length records)%nat
    as Hstudents.
  { intros t. unfold get_students_who_took_course.
    destruct (unique_first_spec
                (alumno <$> filter (λ r, taken_code r = code
                                         ∧ Qle_bool t (grade r) = true)
                                   (courses_taken dl))) as [Hnd Hmem].
    transitivity (length (alumno <$> records)); [|by rewrite length_fmap].
    apply submseteq_length, NoDup_submseteq; [done|].
    intros sid Hsid. apply Hmem in Hsid.
    apply list_elem_of_fmap in Hsid as (r & -> & [[Hc _] Hr]%list_elem_of_filter).
    apply list_elem_of_fmap_2. by apply list_elem_of_filter. }
  unfold st, get_course_statistics. fold records.
  case_decide as Hlen; cbv zeta; cbn [cs_num_students cs_pass_rate cs_difficulty].
  { apply nil_length_inv in Hlen.
    split; [by rewrite Hlen|]. split.
    { intros t. specialize (Hstudents t). rewrite Hlen in Hstudents. exact Hstudents. }
    split; [lra|]. split; [lra|]. split; [done|]. split; [done|done]. }
  assert (0 < length records)%nat as Hpos by lia.
  assert (records ≠ []) as Hne by (intros H; rewrite H in Hlen; done).
  pose proof (inject_nat_pos _ Hpos) as Hn.
  split; [done|]. split; [exact Hstudents|].
  destruct (ratio_bounds
              (length (filter (λ r, Qle_bool 10 (grade r) = true) records))
              (length records)) as [Hr0 Hr1]; [apply length_filter|done|].
  split; [lra|]. split; [lra|].
  assert (length (grade <$> records) = length records) as Hgl by apply length_fmap.
  assert (grade <$> records ≠ []) as Hgne.
  { intros H. apply (f_equal length) in H. rewrite Hgl in H. simpl in H. lia. }
  split; [|split].
  - split; [|done]. repeat case_match; done.
  - destruct (Qle_bool 14 _) eqn:H14; [|by repeat case_match]. intros _.
    apply Qle_bool_iff in H14.
    apply Qle_div_mult in H14; [|done]. rewrite <- Hgl in H14.
    destruct (py_sum_some_ge 14 (grade <$> records) Hgne H14) as (x & Hx & Hle).
    apply list_elem_of_fmap in Hx as (r & -> & Hr). by exists r.
  - destruct (Qle_bool 14 _) eqn:H14; [done|].
    destruct (Qle_bool 11 _) eqn:H11; [done|]. intros _.
    assert (py_sum (grade <$> records) / inject_Z (Z.of_nat (length records)) < 11)
      as Hlt.
    { apply Qnot_le_lt. intros Hle%Qle_bool_iff. congruence. }
    apply Qlt_div_mult in Hlt; [|done]. rewrite <- Hgl in Hlt.
    destruct (py_sum_some_lt 11 (grade <$> records) Hgne Hlt) as (x & Hx & Hlt').
    apply list_elem_of_fmap in Hx as (r & -> & Hr). by exists r.
Qed.
